(** * komle.utils: flattening, pivoting and log decoding of WITSML objects

    A shallow embedding of [src/komle/utils.py] ([logdata_dict], [to_plain],
    [obj_dict], [plural_dict]) and the properties of it that the
    specification states.

    Layout: the Python values and containers the module works with, the
    pyxb object model as data, the four functions, then the theorems. *)

From Stdlib Require Import String Ascii List ZArith Lia Bool Arith.
From Stdlib Require Import PrimInt63 Uint63 PrimFloat.
From Stdlib Require Import DecimalString DecimalZ DecimalPos Permutation FinFun.
Import ListNotations.
Open Scope string_scope.
Open Scope list_scope.

Set Implicit Arguments.
Set Warnings "-inexact-float,-register-all".

(* ================================================================== *)
(** ** Python outcomes *)

(** A raised exception: its class name and its message. *)
Record exn : Type := Exn { exn_class : string; exn_msg : string }.

(** What a call produces: a value, or a raised exception. *)
Inductive outcome (A : Type) : Type :=
| Ok (a : A)
| Raise (e : exn).

Arguments Ok {A} a.
Arguments Raise {A} e.

Definition bind {A B : Type} (m : outcome A) (k : A -> outcome B) : outcome B :=
  match m with
  | Ok a => k a
  | Raise e => Raise e
  end.

Notation "x <- m ;; k" := (bind m (fun x => k))
  (at level 61, m at next level, right associativity).

Definition KeyError (key : string) : exn := Exn "KeyError" key.
Definition IndexError : exn := Exn "IndexError" "list index out of range".
Definition ValueError (msg : string) : exn := Exn "ValueError" msg.
Definition TypeError (msg : string) : exn := Exn "TypeError" msg.
Definition AttributeError (msg : string) : exn := Exn "AttributeError" msg.

(** [pyxb.NotSimpleContentError], which [value()] raises on an object whose
    content is not simple.  It carries the object; the model keeps its class
    only. *)
Definition NotSimpleContentError : exn := Exn "NotSimpleContentError" "".

(** Not an exception of Python: the mark of a run of the [while] loop of
    [obj_dict] that the step budget of the model cut short.
    [obj_dict_outcome] shows that [obj_dict] never ends with it. *)
Definition out_of_fuel : exn := Exn "" "step budget exhausted".

(** Loops with an exception exit: [for x in l: st = body(st, x)]. *)
Fixpoint for_each {S X : Type} (body : S -> X -> outcome S) (l : list X) (st : S)
  : outcome S :=
  match l with
  | [] => Ok st
  | x :: l' => st' <- body st x ;; for_each body l' st'
  end.

(** [[f(x) for x in l]] with an exception exit. *)
Definition list_comp {X Y : Type} (f : X -> outcome Y) (l : list X) : outcome (list Y) :=
  for_each (fun acc x => y <- f x ;; Ok (acc ++ [y])) l [].

(** [enumerate(l)], counting from [i]. *)
Fixpoint enumerate_from {X : Type} (i : nat) (l : list X) : list (nat * X) :=
  match l with
  | [] => []
  | x :: l' => (i, x) :: enumerate_from (S i) l'
  end.

Definition enumerate {X : Type} (l : list X) : list (nat * X) := enumerate_from 0 l.

(* ================================================================== *)
(** ** Python values *)

(** Leaf values: [None], and the instances of the simple types of the
    bindings, by the Python type they derive from.  A [timestamp] is kept in
    its lexical form. *)
Inductive value : Type :=
| VNone
| VBool (b : bool)
| VInt (z : Z)
| VFloat (f : float)
| VStr (s : string)
| VTime (s : string).

(** Plain nested data, as [to_plain] returns it. *)
Inductive plain : Type :=
| PVal (v : value)
| PList (l : list plain)
| PDict (d : list (string * plain)).

(* ================================================================== *)
(** ** Dictionaries

    A [dict] (and an [OrderedDict]) with string keys: the entries in
    insertion order, one entry per key. *)

Definition dict (V : Type) : Type := list (string * V).

Fixpoint dict_get {V : Type} (key : string) (d : dict V) : option V :=
  match d with
  | [] => None
  | (k, v) :: d' => if String.eqb key k then Some v else dict_get key d'
  end.

(** [d[key] = v]: an existing key keeps its place, a new key goes last. *)
Fixpoint dict_set {V : Type} (key : string) (v : V) (d : dict V) : dict V :=
  match d with
  | [] => [(key, v)]
  | (k, w) :: d' =>
      if String.eqb key k then (k, v) :: d' else (k, w) :: dict_set key v d'
  end.

Definition dict_keys {V : Type} (d : dict V) : list string := map fst d.

Definition dict_mem {V : Type} (key : string) (d : dict V) : bool :=
  match dict_get key d with Some _ => true | None => false end.

(** [d.update(pairs)] and the dict comprehension [{k: v for k, v in pairs}]. *)
Definition dict_update {V : Type} (d : dict V) (pairs : list (string * V)) : dict V :=
  fold_left (fun acc kv => dict_set (fst kv) (snd kv) acc) pairs d.

Definition dict_comp {V : Type} (pairs : list (string * V)) : dict V :=
  dict_update [] pairs.

(** [d[key]], which raises [KeyError] on a missing key. *)
Definition dict_index {V : Type} (d : dict V) (key : string) : outcome V :=
  match dict_get key d with
  | Some v => Ok v
  | None => Raise (KeyError key)
  end.

(** [key in keys] for a list of keys. *)
Definition mem_string (key : string) (keys : list string) : bool :=
  existsb (String.eqb key) keys.

(* ================================================================== *)
(** ** Lists *)

(** [l[i] = x] for [0 <= i]: [IndexError] out of range. *)
Fixpoint list_assign {X : Type} (l : list X) (i : nat) (x : X) : outcome (list X) :=
  match l, i with
  | [], _ => Raise IndexError
  | _ :: l', O => Ok (x :: l')
  | y :: l', S i' => l'' <- list_assign l' i' x ;; Ok (y :: l'')
  end.

(** [l[i]] for [0 <= i]. *)
Definition list_index {X : Type} (l : list X) (i : nat) : outcome X :=
  match nth_error l i with
  | Some x => Ok x
  | None => Raise IndexError
  end.

(* ================================================================== *)
(** ** Strings *)

(** [s.split(sep)].  [split_scan] walks [s] once: [skip] counts the
    characters of a separator just recognised that are still to be passed,
    [cur] holds the current field, last character first. *)
Fixpoint rev_string (acc s : string) : string :=
  match s with
  | EmptyString => acc
  | String c s' => rev_string (String c acc) s'
  end.

Fixpoint split_scan (sep s : string) (skip : nat) (cur : string) : list string :=
  match s with
  | EmptyString => [rev_string "" cur]
  | String c s' =>
      match skip with
      | S k => split_scan sep s' k cur
      | O =>
          if String.prefix sep s
          then rev_string "" cur :: split_scan sep s' (String.length sep - 1) ""
          else split_scan sep s' 0 (String c cur)
      end
  end.

Definition py_split (s sep : string) : outcome (list string) :=
  match sep with
  | EmptyString => Raise (ValueError "empty separator")
  | _ => Ok (split_scan sep s 0 "")
  end.

(** [str(z)] for an [int]. *)
Definition str_of_int (z : Z) : string := NilZero.string_of_int (Z.to_int z).

(** [needle in hay]. *)
Fixpoint contains (needle hay : string) : bool :=
  String.prefix needle hay ||
  match hay with
  | EmptyString => false
  | String _ hay' => contains needle hay'
  end.

(** [ch in s] for a character. *)
Fixpoint has_char (ch : ascii) (s : string) : bool :=
  match s with
  | EmptyString => false
  | String c s' => Ascii.eqb ch c || has_char ch s'
  end.

(** [delimiter.join(filter(None, [base_name, name]))]: empty parts are
    dropped before joining. *)
Definition join_path (delimiter base_name name : string) : string :=
  match base_name, name with
  | EmptyString, _ => name
  | _, EmptyString => base_name
  | _, _ => (base_name ++ delimiter ++ name)%string
  end.

(* ================================================================== *)
(** ** The log of the bindings, as [logdata_dict] reads it *)

(** [c.mnemonic.value()] and [c.typeLogData] of a [logCurveInfo]. *)
Record cs_logCurveInfo : Type := {
  mnemonic : string;
  typeLogData : string
}.

(** [mnemonicList] and the rows [data] of a [logData] section. *)
Record cs_logData : Type := {
  mnemonicList : string;
  data : list string
}.

Record obj_log : Type := {
  logCurveInfo : list cs_logCurveInfo;
  dataDelimiter : option string;
  logData : list cs_logData
}.

(** A value cast of [LOG_PRIM_TYPES]: a callable from the raw field text. *)
Definition cast : Type := string -> outcome value.

(** The callables of the table that this module does not define: the
    built-ins [float] and [int] and the [timestamp] type of the bindings.
    The development is parametric in them. *)
Record prim_casts : Type := {
  py_timestamp : cast;
  py_float : cast;
  py_int : cast
}.

(** [str(s)] of a string is the string. *)
Definition py_str : cast := fun s => Ok (VStr s).

(** [bytes(s)] of a string, given no encoding, raises. *)
Definition py_bytes : cast :=
  fun _ => Raise (TypeError "string argument without an encoding").

Section LogTabularDecoder.

Variable P : prim_casts.

Definition LOG_PRIM_TYPES : dict cast :=
  [ ("byte", py_bytes);
    ("date time", py_timestamp P);
    ("double", py_float P);
    ("float", py_float P);
    ("int", py_int P);
    ("long", py_int P);
    ("short", py_int P);
    ("string", py_str);
    ("string40", py_str);
    ("string16", py_str);
    ("unknown", py_str) ].

(** One column of [data_list]: [(mnem, mnem_cast_map[mnem], [])], its list
    filled in place. *)
Definition column : Type := (string * cast * list value)%type.

(** [{c.mnemonic.value(): LOG_PRIM_TYPES[c.typeLogData] for c in log.logCurveInfo}] *)
Definition build_cast_map (curves : list cs_logCurveInfo) : outcome (dict cast) :=
  for_each
    (fun (m : dict cast) c =>
       value_cast <- dict_index LOG_PRIM_TYPES (typeLogData c) ;;
       Ok (dict_set (mnemonic c) value_cast m))
    curves [].

(** [[(mnem, mnem_cast_map[mnem], []) for mnem in mnems]] *)
Definition build_data_list (mnem_cast_map : dict cast) (mnems : list string)
  : outcome (list column) :=
  list_comp
    (fun mnem =>
       value_cast <- dict_index mnem_cast_map mnem ;;
       Ok (mnem, value_cast, @nil value))
    mnems.

(** [data_list[i][2].append(v)] *)
Definition append_at (data_list : list column) (i : nat) (v : value)
  : outcome (list column) :=
  col <- list_index data_list i ;;
  let '(mnem, value_cast, values) := col in
  list_assign data_list i (mnem, value_cast, values ++ [v]).

(** The body of the inner loop, for one [(i, point_str)]. *)
Definition decode_point (fill_missing : bool) (data_list : list column)
           (ip : nat * string) : outcome (list column) :=
  let '(i, point_str) := ip in
  match point_str with
  | String _ _ =>
      col <- list_index data_list i ;;
      let value_cast := snd (fst col) in
      v <- value_cast point_str ;;
      append_at data_list i v
  | EmptyString =>
      if fill_missing then append_at data_list i VNone else Ok data_list
  end.

(** The body of the outer loop, for one [data_str]. *)
Definition decode_row (delimiter : string) (fill_missing : bool)
           (data_list : list column) (data_str : string) : outcome (list column) :=
  points <- py_split data_str delimiter ;;
  for_each (decode_point fill_missing) (enumerate points) data_list.

(** [',' if log.dataDelimiter is None else log.dataDelimiter] *)
Definition delimiter_of (log : obj_log) : string :=
  match dataDelimiter log with None => "," | Some d => d end.

Definition logdata_dict (log : obj_log) (fill_missing : bool)
  : outcome (dict (list value)) :=
  mnem_cast_map <- build_cast_map (logCurveInfo log) ;;
  let delimiter := delimiter_of log in
  logData0 <- list_index (logData log) 0 ;;
  mnems <- py_split (mnemonicList logData0) delimiter ;;
  data_list <- build_data_list mnem_cast_map mnems ;;
  logData0' <- list_index (logData log) 0 ;;
  data_list <- for_each (decode_row delimiter fill_missing) (data logData0') data_list ;;
  Ok (dict_comp (map (fun col : column => (fst (fst col), snd col)) data_list)).

End LogTabularDecoder.

(* ================================================================== *)
(** ** Bound objects

    What the functions see of an object of the bindings:
    - [Leaf v]: an instance of a simple type; it is its own value and its
      [_AttributeMap] is empty.
    - [Simple attrs v]: a [complexTypeDefinition] whose [_ContentTypeTag] is
      [_CT_SIMPLE]; [v] is its [value()].
    - [Complex as_log attrs content]: a [complexTypeDefinition] with element
      content.  [content] is [orderedContent()]: an item is [None] when its
      [elementDeclaration] is [None], and otherwise holds the [id()] of the
      declaration with the value of that element of the object, which is
      what [obj._ElementMap[name].value(obj)] and [getattr(obj, id)] return:
      the child itself, or the whole [_PluralBinding] when the element
      repeats (so a collection of n members stands at n items).
      [as_log] is [Some log] when the class of the object is [obj_log], with
      the fields [logdata_dict] reads.
    - [Plural items]: a [_PluralBinding].
    - [Empty attrs]: a [complexTypeDefinition] whose [_ContentTypeTag] is
      [_CT_EMPTY].  Both functions send it to the branch of the objects
      with simple content and call [value()], which raises
      [NotSimpleContentError] on it.
    - [Mixed attrs]: a [complexTypeDefinition] with mixed content whose
      [orderedContent()] holds an item that is no element (text).  Such an
      item has no [elementDeclaration], so the loops over
      [orderedContent()] raise [AttributeError] on it; what else the
      content holds is then never used.

    [attrs] lists [_AttributeMap.values()] as pairs of [attr_use.id()] and
    [attr_use.value(obj)], [VNone] for an attribute that is not set. *)
Inductive node : Type :=
| Leaf (v : value)
| Simple (attrs : list (string * value)) (v : value)
| Complex (as_log : option obj_log) (attrs : list (string * value))
          (content : list (option (string * node)))
| Plural (items : list node)
| Empty (attrs : list (string * value))
| Mixed (attrs : list (string * value)).

(** The items of an ordered content that have an [elementDeclaration], in
    turn: [(cont.elementDeclaration.id(), value)]. *)
Definition children_of (content : list (option (string * node))) : list (string * node) :=
  flat_map (fun cont : option (string * node) =>
              match cont with Some c => [c] | None => [] end) content.

(** The attributes of an object that has an [_AttributeMap]. *)
Definition attribute_map (obj : node) : list (string * value) :=
  match obj with
  | Leaf _ => []
  | Simple attrs _ => attrs
  | Complex _ attrs _ => attrs
  | Plural _ => []
  | Empty attrs => attrs
  | Mixed attrs => attrs
  end.

(** The number of iterations of the [while] loop of [obj_dict] that an entry
    of [obj_list] stands for: one for the object and those of what it pushes. *)
Fixpoint weight (obj : node) : nat :=
  match obj with
  | Leaf _ => 1
  | Simple _ _ => 1
  | Complex _ _ content =>
      S (list_sum
           (map (fun cont : option (string * node) =>
                   match cont with
                   | Some (_, next_obj) => weight next_obj
                   | None => 0
                   end) content))
  | Plural items => S (list_sum (map weight items))
  | Empty _ => 1
  | Mixed _ => 1
  end.

Definition weight_list (obj_list : list (string * node)) : nat :=
  list_sum (map (fun e : string * node => weight (snd e)) obj_list).

(* ================================================================== *)
(** ** The Tree Flattener: [obj_dict] *)

Section TreeFlattener.

Variables (include_attr : bool) (prefix_attr delimiter : string) (start_idx : Z).

(** [obj_list] is kept with its last element first: [append] is a cons
    and [pop()] takes the head. *)
Definition work_list : Type := list (string * node).

(** [f'{base_name}[{start_idx+i}]'] *)
Definition item_path (base_name : string) (i : nat) : string :=
  (base_name ++ "[" ++ str_of_int (start_idx + Z.of_nat i) ++ "]")%string.

(** [for i, item in enumerate(obj): obj_list.append((f'{base_name}[{start_idx+i}]', item))] *)
Definition push_items (base_name : string) (items : list node)
           (obj_list : work_list) : work_list :=
  fold_left
    (fun acc (ix : nat * node) => (item_path base_name (fst ix), snd ix) :: acc)
    (enumerate items) obj_list.

(** The [for cont in obj.orderedContent()] loop. *)
Definition push_content (base_name : string)
           (content : list (option (string * node)))
           (obj_list : work_list) : work_list :=
  fold_left
    (fun acc (cont : option (string * node)) =>
       match cont with
       | Some (id, next_obj) => (join_path delimiter base_name id, next_obj) :: acc
       | None => acc
       end)
    content obj_list.

(** The [for attr_use in obj._AttributeMap.values()] loop. *)
Definition emit_attrs (base_name : string) (attrs : list (string * value))
           (flatten_witsml : dict value) : dict value :=
  fold_left
    (fun acc (a : string * value) =>
       dict_set (join_path delimiter base_name (prefix_attr ++ fst a)%string) (snd a) acc)
    attrs flatten_witsml.

(** One iteration of the [while] loop, after [base_name, obj = obj_list.pop()]. *)
Definition obj_step (base_name : string) (obj : node)
           (obj_list : work_list) (flatten_witsml : dict value)
  : outcome (work_list * dict value) :=
  match obj with
  | Plural items => Ok (push_items base_name items obj_list, flatten_witsml)
  | _ =>
      let flatten_witsml :=
        if include_attr
        then emit_attrs base_name (attribute_map obj) flatten_witsml
        else flatten_witsml in
      match obj with
      | Complex _ _ content =>
          Ok (push_content base_name content obj_list, flatten_witsml)
      | Mixed _ => Raise (AttributeError "elementDeclaration")
      | Leaf v | Simple _ v =>
          Ok (obj_list, dict_set base_name v flatten_witsml)
      | Empty _ => Raise NotSimpleContentError
      | Plural _ => Ok (obj_list, flatten_witsml)
      end
  end.

(** [while obj_list: ...], cut after [fuel] iterations. *)
Fixpoint obj_dict_loop (fuel : nat) (obj_list : work_list)
         (flatten_witsml : dict value) : outcome (dict value) :=
  match obj_list with
  | [] => Ok flatten_witsml
  | (base_name, obj) :: obj_list' =>
      match fuel with
      | O => Raise out_of_fuel
      | S fuel' =>
          st <- obj_step base_name obj obj_list' flatten_witsml ;;
          obj_dict_loop fuel' (fst st) (snd st)
      end
  end.

Definition obj_dict (obj : node) : outcome (dict value) :=
  obj_dict_loop (weight obj) [("", obj)] [].

(* ---------------------------------------------------------------- *)
(** ** The Frame Builder: [plural_dict] *)

(** [existing_keys.extend([k for k in flatten_witsml if k not in existing_keys])] *)
Definition extend_keys (existing_keys : list string) (flatten_witsml : dict value)
  : list string :=
  existing_keys
    ++ filter (fun k => negb (mem_string k existing_keys)) (dict_keys flatten_witsml).

(** The first loop: [frame_list] and [existing_keys]. *)
Definition flatten_all (plural_obj : list node)
  : outcome (list (dict value) * list string) :=
  for_each
    (fun (st : list (dict value) * list string) obj =>
       flatten_witsml <- obj_dict obj ;;
       Ok (fst st ++ [flatten_witsml], extend_keys (snd st) flatten_witsml))
    plural_obj ([], []).

(** [frame_dict[key][idx] = v], inside [if key in frame_dict]. *)
Definition fill_cell (idx : nat) (frame_dict : dict (list value))
           (kv : string * value) : outcome (dict (list value)) :=
  match dict_get (fst kv) frame_dict with
  | Some col =>
      col' <- list_assign col idx (snd kv) ;;
      Ok (dict_set (fst kv) col' frame_dict)
  | None => Ok frame_dict
  end.

(** [frame_dict[key].append(v)] *)
Definition append_cell (frame_dict : dict (list value)) (kv : string * value)
  : outcome (dict (list value)) :=
  col <- dict_index frame_dict (fst kv) ;;
  Ok (dict_set (fst kv) (col ++ [snd kv]) frame_dict).

Definition plural_dict_with (fill_missing : bool) (plural_obj : list node)
  : outcome (dict (list value)) :=
  st <- flatten_all plural_obj ;;
  let '(frame_list, existing_keys) := st in
  if fill_missing then
    let frame_dict :=
      dict_comp (map (fun key => (key, repeat VNone (length plural_obj))) existing_keys) in
    for_each
      (fun frame_dict (ifw : nat * dict value) =>
         for_each (fill_cell (fst ifw)) (snd ifw) frame_dict)
      (enumerate frame_list) frame_dict
  else
    let frame_dict :=
      dict_comp (map (fun key => (key, @nil value)) existing_keys) in
    for_each
      (fun frame_dict (fw : dict value) => for_each append_cell fw frame_dict)
      frame_list frame_dict.

End TreeFlattener.

(** [plural_dict], its arguments in the order of the source. *)
Definition plural_dict (plural_obj : list node) (include_attr fill_missing : bool)
           (prefix_attr delimiter : string) (start_idx : Z)
  : outcome (dict (list value)) :=
  plural_dict_with include_attr prefix_attr delimiter start_idx fill_missing plural_obj.

(* ================================================================== *)
(** ** The Nested-to-Plain Converter: [to_plain] *)

(** The frame of [logdata_dict] as plain data. *)
Definition plain_of_frame (frame : dict (list value)) : plain :=
  PDict (map (fun kv : string * list value => (fst kv, PList (map PVal (snd kv)))) frame).

(** [dict.fromkeys(names)] over the named items of a content, each kept with
    what [getattr(obj, name)] gives for it: the first item of a name stays. *)
Definition dict_fromkeys {X : Type} (named : list (string * X)) : dict X :=
  fold_left
    (fun acc (kv : string * X) => if dict_mem (fst kv) acc then acc else acc ++ [kv])
    named [].

(** [all_keys.update(as_dict)] where [as_dict] is no mapping: [update] then
    iterates its argument and takes each element as a pair [key, value].
    The result tells whether a key was added.  Such a key is never looked at:
    with it in [all_keys], [frame.get] is reached and fails on [as_dict]. *)
Definition update_element (x : plain) : outcome unit :=
  let two (n : nat) : outcome unit :=
    if Nat.eqb n 2 then Ok tt
    else Raise (ValueError "dictionary update sequence element has a length other than 2") in
  match x with
  | PVal (VStr s) => two (String.length s)
  | PVal _ =>
      Raise (TypeError "cannot convert dictionary update sequence element to a sequence")
  | PDict d => two (List.length d)
  | PList l =>
      _ <- two (List.length l) ;;
      match l with
      | PList _ :: _ | PDict _ :: _ => Raise (TypeError "unhashable type")
      | _ => Ok tt
      end
  end.

Definition update_from_iterable (x : plain) : outcome bool :=
  match x with
  | PDict _ => Ok false
  | PVal (VStr EmptyString) => Ok false
  | PVal (VStr (String c _)) => _ <- update_element (PVal (VStr (String c ""))) ;; Ok true
  | PVal _ => Raise (TypeError "object is not iterable")
  | PList l =>
      _ <- for_each (fun (_ : unit) e => update_element e) l tt ;;
      Ok (match l with [] => false | _ => true end)
  end.

(** [frame.get(key, None)] *)
Definition frame_get (key : string) (frame : plain) : outcome plain :=
  match frame with
  | PDict d => Ok (match dict_get key d with Some v => v | None => PVal VNone end)
  | _ => Raise (AttributeError "get")
  end.

(** The state of the loop of [plural_to_dict_of_lists]: [frame_list],
    [all_keys], and whether [all_keys] holds a key that came from a member
    that is no mapping. *)
Record pivot_state : Type := {
  frame_list : list plain;
  all_keys : dict plain;
  foreign_key : bool
}.

(** [frame_list.append(as_dict); all_keys.update(as_dict)] *)
Definition pivot_add (st : pivot_state) (as_dict : plain) : outcome pivot_state :=
  match as_dict with
  | PDict d =>
      Ok {| frame_list := frame_list st ++ [as_dict];
            all_keys := dict_update (all_keys st) d;
            foreign_key := foreign_key st |}
  | _ =>
      added <- update_from_iterable as_dict ;;
      Ok {| frame_list := frame_list st ++ [as_dict];
            all_keys := all_keys st;
            foreign_key := foreign_key st || added |}
  end.

(** [{key: [frame.get(key, None) for frame in frame_list] for key in all_keys}] *)
Definition pivot_finish (st : pivot_state) : outcome plain :=
  if foreign_key st then Raise (AttributeError "get")
  else
    cols <- list_comp
              (fun key => col <- list_comp (frame_get key) (frame_list st) ;;
                          Ok (key, PList col))
              (dict_keys (all_keys st)) ;;
    Ok (PDict (dict_comp cols)).

(** The column pivot, on the plain conversions of the members. *)
Definition pivot (as_dicts : list plain) : outcome plain :=
  st <- for_each pivot_add as_dicts
          {| frame_list := []; all_keys := []; foreign_key := false |} ;;
  pivot_finish st.

Section NestedToPlain.

Variable P : prim_casts.
Variables (include_attr : bool) (prefix_attr delimiter : string) (transpose : bool).

(** [plural_to_list_of_plains], on the conversions of the members in turn. *)
Definition plural_to_list_of_plains (members : list (outcome plain)) : outcome plain :=
  l <- list_comp (fun r : outcome plain => r) members ;;
  Ok (PList l).

(** [plural_to_dict_of_lists], on the conversions of the members in turn. *)
Definition plural_to_dict_of_lists (members : list (outcome plain)) : outcome plain :=
  st <- for_each (fun st (r : outcome plain) => as_dict <- r ;; pivot_add st as_dict)
          members {| frame_list := []; all_keys := []; foreign_key := false |} ;;
  pivot_finish st.

(** [as_dict[prefix + attr_use.id()] = attr_use.value(obj)] over the
    attributes, when [include_attr] holds. *)
Definition plain_attrs (prefix : string) (attrs : list (string * value))
           (as_dict : dict plain) : dict plain :=
  if include_attr then
    fold_left
      (fun acc (a : string * value) =>
         dict_set (prefix ++ prefix_attr ++ fst a)%string (PVal (snd a)) acc)
      attrs as_dict
  else as_dict.

(** The structured branch of [singular_to_plain]: [children] are the
    distinct names of the content, each with [getattr(obj, name)] and the
    conversion of that object. *)
Definition singular_to_plain (attrs : list (string * value))
           (children : dict (node * outcome plain)) : outcome plain :=
  as_dict <- for_each
               (fun as_dict (child : string * (node * outcome plain)) =>
                  let '(next_path, (next_obj, converted)) := child in
                  let as_dict :=
                    plain_attrs (next_path ++ delimiter) (attribute_map next_obj) as_dict in
                  x <- converted ;;
                  Ok (dict_set next_path x as_dict))
               children (plain_attrs "" attrs []) ;;
  Ok (PDict as_dict).

(** [names], each name with [getattr(obj, name)] and the conversion of that
    object by [convert]. *)
Definition named_with {X : Type} (convert : node -> X)
           (content : list (option (string * node))) : list (string * (node * X)) :=
  (fix named (c : list (option (string * node))) : list (string * (node * X)) :=
     match c with
     | [] => []
     | None :: c' => named c'
     | Some (id, next_obj) :: c' => (id, (next_obj, convert next_obj)) :: named c'
     end) content.

Fixpoint any_to_plain (obj : node) : outcome plain :=
  match obj with
  | Plural items =>
      if transpose
      then plural_to_dict_of_lists (map any_to_plain items)
      else plural_to_list_of_plains (map any_to_plain items)
  | Complex (Some log) _ _ =>
      frame <- logdata_dict P log true ;;
      Ok (plain_of_frame frame)
  | Complex None attrs content =>
      singular_to_plain attrs (dict_fromkeys (named_with any_to_plain content))
  | Simple _ v => Ok (PVal v)
  | Empty _ => Raise NotSimpleContentError
  | Mixed _ => Raise (AttributeError "elementDeclaration")
  | Leaf v => Ok (PVal v)
  end.

End NestedToPlain.

(** [to_plain], its arguments in the order of the source. *)
Definition to_plain (P : prim_casts) (obj : node) (include_attr : bool)
           (prefix_attr delimiter : string) (transpose : bool) : outcome plain :=
  any_to_plain P include_attr prefix_attr delimiter transpose obj.

(* ================================================================== *)
(** ** An instance of the casts: decimal literals

    [float] and [int] restricted to the literals [[+-]digits[.digits]], which
    is what a log row carries, with at most 18 digits after the point and
    digits that make an integer below 2^53.  Within this range the results
    are those of Python: such an integer and a power of ten up to 10^18 are
    binary64 values without rounding, so their quotient, rounded once, is
    the float nearest to the literal.  Any other text is rejected with the exception
    Python raises on text that is no number; the forms Python accepts beyond
    this (exponents, [inf], [nan], blanks, digit grouping) are left out of
    the instance, and the theorems that are parametric in [prim_casts] do not
    depend on it. *)

Definition digit_of (c : ascii) : option Z :=
  let n := N.of_nat (nat_of_ascii c) in
  if (48 <=? n)%N && (n <=? 57)%N then Some (Z.of_N n - 48)%Z else None.

(** The leading digits of [s]: their value on top of [acc], their number on
    top of [n], and the rest of [s]. *)
Fixpoint read_digits (acc : Z) (n : nat) (s : string) : Z * nat * string :=
  match s with
  | EmptyString => (acc, n, s)
  | String c s' =>
      match digit_of c with
      | Some d => read_digits (10 * acc + d)%Z (S n) s'
      | None => (acc, n, s)
      end
  end.

Definition read_sign (s : string) : bool * string :=
  match s with
  | String "-"%char s' => (true, s')
  | String "+"%char s' => (false, s')
  | _ => (false, s)
  end.

(** A literal as (negative, digits read as one integer, number of digits
    after the point). *)
Definition decimal_literal (s : string) : option (bool * Z * nat) :=
  let '(neg, body) := read_sign s in
  let '(i, ni, rest) := read_digits 0 0 body in
  match rest with
  | EmptyString => if Nat.eqb ni 0 then None else Some (neg, i, 0)
  | String "."%char frac =>
      let '(m, nf, rest') := read_digits i 0 frac in
      match rest' with
      | EmptyString => if Nat.eqb (ni + nf) 0 then None else Some (neg, m, nf)
      | _ => None
      end
  | _ => None
  end.

Definition float_of_Z (z : Z) : float := PrimFloat.of_uint63 (Uint63.of_Z z).

Definition quote (s : string) : string := ("'" ++ s ++ "'")%string.

Definition decimal_float : cast :=
  fun s =>
    let bad := Raise (ValueError ("could not convert string to float: " ++ quote s)) in
    match decimal_literal s with
    | Some (neg, m, nf) =>
        if (m <? 2 ^ 53)%Z && (nf <=? 18)%nat then
          let q := PrimFloat.div (float_of_Z m) (float_of_Z (10 ^ Z.of_nat nf)) in
          Ok (VFloat (if neg then PrimFloat.opp q else q))
        else bad
    | None => bad
    end.

Definition decimal_int : cast :=
  fun s =>
    let '(neg, body) := read_sign s in
    match read_digits 0 0 body with
    | (m, S _, EmptyString) => Ok (VInt (if neg then (- m)%Z else m))
    | _ => Raise (ValueError ("invalid literal for int() with base 10: " ++ quote s))
    end.

(** A [timestamp] is kept as its text; the validation of the bindings is
    not part of the instance. *)
Definition lexical_timestamp : cast := fun s => Ok (VTime s).

Definition decimal_casts : prim_casts :=
  {| py_timestamp := lexical_timestamp;
     py_float := decimal_float;
     py_int := decimal_int |}.

(* ================================================================== *)
(** ** What the specification says of a decoded log

    The words of the specification for step 4 of the decoder, as functions
    of their own, to be compared with [logdata_dict]. *)

(** What one row gives to one column: the field cast when it is not empty;
    for an empty field the null marker under fill-missing and nothing
    otherwise; nothing when the row has no field at the position. *)
Definition cell (fill_missing : bool) (value_cast : cast) (point : option string)
  : list value :=
  match point with
  | None => []
  | Some EmptyString => if fill_missing then [VNone] else []
  | Some p => match value_cast p with Ok v => [v] | Raise _ => [] end
  end.

(** The values of the column at position [j], over the rows in turn. *)
Definition column_values (fill_missing : bool) (value_cast : cast) (j : nat)
           (rows : list (list string)) : list value :=
  flat_map (fun points => cell fill_missing value_cast (nth_error points j)) rows.

(** The columns by name, over all positions of the mnemonic list. *)
Definition decoded_columns (fill_missing : bool) (data_list : list column)
           (rows : list (list string)) : list (string * list value) :=
  map (fun jc : nat * column =>
         (fst (fst (snd jc)),
          snd (snd jc) ++ column_values fill_missing (snd (fst (snd jc))) (fst jc) rows))
      (enumerate data_list).

(** The frame the specification describes, for the columns given by name
    and cast. *)
Definition decoded_frame (fill_missing : bool) (cols : list (string * cast))
           (rows : list (list string)) : dict (list value) :=
  dict_comp
    (map (fun jc : nat * (string * cast) =>
            (fst (snd jc), column_values fill_missing (snd (snd jc)) (fst jc) rows))
         (enumerate cols)).

(** The cast declared for a mnemonic: that of the table for the
    [typeLogData] of its [logCurveInfo], the last one when several carry the
    mnemonic. *)
Definition declared_cast (P : prim_casts) (curves : list cs_logCurveInfo)
           (mnem : string) : option cast :=
  match find (fun c => String.eqb mnem (mnemonic c)) (rev curves) with
  | Some c => dict_get (typeLogData c) (LOG_PRIM_TYPES P)
  | None => None
  end.

(** Every declared type is a key of the table. *)
Definition types_known (P : prim_casts) (curves : list cs_logCurveInfo) : bool :=
  forallb (fun c => dict_mem (typeLogData c) (LOG_PRIM_TYPES P)) curves.

(** The value a key ends with after the assignments [pairs] in turn. *)
Definition last_value {V : Type} (key : string) (pairs : list (string * V)) : option V :=
  option_map snd (find (fun kv => String.eqb key (fst kv)) (rev pairs)).

(** The columns after one row: each takes its cell of the row. *)
Fixpoint fill_cols (fill_missing : bool) (points : list string) (cols : list column)
  : list column :=
  match cols with
  | [] => []
  | (mnem, value_cast, values) :: cols' =>
      (mnem, value_cast, values ++ cell fill_missing value_cast (hd_error points))
        :: fill_cols fill_missing (tl points) cols'
  end.

Definition cast_of (col : column) : cast := snd (fst col).

(** A row decodes: it has no more fields than there are columns and each
    field that is not empty is accepted by the cast of its column. *)
Fixpoint row_decodes (points : list string) (casts : list cast) : bool :=
  match points, casts with
  | [], _ => true
  | _ :: _, [] => false
  | p :: ps, c :: cs =>
      match p with
      | EmptyString => true
      | _ => match c p with Ok _ => true | Raise _ => false end
      end && row_decodes ps cs
  end.

(** The fields of a row. *)
Definition fields (delimiter data_str : string) : list string :=
  split_scan delimiter data_str 0 "".

(* ================================================================== *)
(** ** What the specification says of a flattened object

    The assignments to [flatten_witsml] that the traversal of one object
    makes, in the order it makes them: the attributes of the object, then,
    the work list being last in first out, what its children or members
    assign, the last pushed first. *)

Section FlattenerSpec.

Variables (include_attr : bool) (prefix_attr delimiter : string) (start_idx : Z).

Definition attr_entries (base_name : string) (attrs : list (string * value))
  : list (string * value) :=
  if include_attr then
    map (fun a : string * value =>
           (join_path delimiter base_name (prefix_attr ++ fst a)%string, snd a)) attrs
  else [].

Definition content_entries (entries : string -> node -> list (string * value))
           (base_name : string) (content : list (option (string * node)))
  : list (string * value) :=
  (fix go (c : list (option (string * node))) : list (string * value) :=
     match c with
     | [] => []
     | None :: c' => go c'
     | Some (id, next_obj) :: c' =>
         go c' ++ entries (join_path delimiter base_name id) next_obj
     end) content.

Definition items_entries (entries : string -> node -> list (string * value))
           (base_name : string) (items : list node) (i : nat)
  : list (string * value) :=
  (fix go (l : list node) (i : nat) : list (string * value) :=
     match l with
     | [] => []
     | item :: l' => go l' (S i) ++ entries (item_path start_idx base_name i) item
     end) items i.

Fixpoint entries (base_name : string) (obj : node) : list (string * value) :=
  match obj with
  | Leaf v => [(base_name, v)]
  | Simple attrs v => attr_entries base_name attrs ++ [(base_name, v)]
  | Complex _ attrs content =>
      attr_entries base_name attrs ++ content_entries entries base_name content
  | Plural items => items_entries entries base_name items 0
  | Empty attrs => attr_entries base_name attrs
  | Mixed attrs => attr_entries base_name attrs
  end.

Definition entries_list (obj_list : list (string * node)) : list (string * value) :=
  flat_map (fun e : string * node => entries (fst e) (snd e)) obj_list.

(** The dictionary these assignments leave for an object flattened from the
    empty base name. *)
Definition flattened (obj : node) : dict value := dict_comp (entries "" obj).

End FlattenerSpec.

(** The exception that ends the traversal of [obj_dict], if any: that of
    the first object popped that has no value to give.  The work list being
    last in first out, the items of a content and the members of a
    collection are popped last first, each with all it holds before the
    next. *)
Definition content_failure (failure : node -> option exn)
           (content : list (option (string * node))) : option exn :=
  (fix go (c : list (option (string * node))) : option exn :=
     match c with
     | [] => None
     | None :: c' => go c'
     | Some (_, next_obj) :: c' =>
         match go c' with Some e => Some e | None => failure next_obj end
     end) content.

Definition items_failure (failure : node -> option exn) (items : list node)
  : option exn :=
  (fix go (l : list node) : option exn :=
     match l with
     | [] => None
     | item :: l' => match go l' with Some e => Some e | None => failure item end
     end) items.

Fixpoint failure (obj : node) : option exn :=
  match obj with
  | Leaf _ | Simple _ _ => None
  | Empty _ => Some NotSimpleContentError
  | Mixed _ => Some (AttributeError "elementDeclaration")
  | Complex _ _ content => content_failure failure content
  | Plural items => items_failure failure items
  end.

Definition failure_list (obj_list : list (string * node)) : option exn :=
  fold_right
    (fun (e : string * node) rest =>
       match failure (snd e) with Some x => Some x | None => rest end)
    None obj_list.

(** A frame given by its keys and the column of each key. *)
Definition frame_of {V : Type} (keys : list string) (col : string -> V) : dict V :=
  map (fun key => (key, col key)) keys.

(* ================================================================== *)
(** ** Flat members

    The members on which the flat mapping of [obj_dict] and the nested
    mapping of [to_plain] can be compared: structured objects, not logs, whose
    children are leaves. *)

(** The value of a leaf. *)
Definition leaf_value (obj : node) : value :=
  match obj with
  | Leaf v => v
  | Simple _ v => v
  | _ => VNone
  end.

(** A simple value: an instance of a simple type or an element with simple
    content (not one with empty or mixed content, on which the functions
    raise). *)
Definition is_leaf (obj : node) : bool :=
  match obj with
  | Leaf _ | Simple _ _ => true
  | _ => false
  end.

Definition nonempty (s : string) : bool :=
  match s with EmptyString => false | _ => true end.

(** A structured object that is no log, whose children are leaves, with
    names of elements and of attributes of children that are not empty. *)
Definition flat_member (obj : node) : bool :=
  match obj with
  | Complex None _ content =>
      forallb (fun c : string * node =>
                 nonempty (fst c) && is_leaf (snd c)
                 && forallb (fun a : string * value => nonempty (fst a))
                            (attribute_map (snd c)))
              (children_of content)
  | _ => false
  end.

(** The assignments [to_plain] makes for attributes, under [prefix]. *)
Definition plain_attr_entries (include_attr : bool) (prefix_attr prefix : string)
           (attrs : list (string * value)) : list (string * value) :=
  if include_attr then
    map (fun a : string * value => ((prefix ++ prefix_attr ++ fst a)%string, snd a)) attrs
  else [].

(** The assignments [to_plain] makes for a leaf child. *)
Definition plain_child_entries (include_attr : bool) (prefix_attr delimiter : string)
           (c : string * node) : list (string * value) :=
  plain_attr_entries include_attr prefix_attr (fst c ++ delimiter) (attribute_map (snd c))
    ++ [(fst c, leaf_value (snd c))].

(** The assignments [to_plain] makes for a structured object with leaf
    children, in turn. *)
Definition plain_entries (include_attr : bool) (prefix_attr delimiter : string)
           (obj : node) : list (string * value) :=
  match obj with
  | Complex _ attrs content =>
      plain_attr_entries include_attr prefix_attr "" attrs
        ++ flat_map (plain_child_entries include_attr prefix_attr delimiter)
                    (children_of content)
  | _ => []
  end.

(** A flat mapping as plain data. *)
Definition plain_values (d : dict value) : dict plain :=
  map (fun kv : string * value => (fst kv, PVal (snd kv))) d.

(** [frame.get(key, None)] on a plain mapping. *)
Definition plain_or_none (key : string) (d : dict plain) : plain :=
  match dict_get key d with Some v => v | None => PVal VNone end.

(** The mapping of [to_plain] and the mapping of [obj_dict] for one member
    hold the same values. *)
Definition same_values (as_dict : dict plain) (fw : dict value) : Prop :=
  forall key, dict_get key as_dict = option_map PVal (dict_get key fw).

(** The union of key lists in first-seen order. *)
Definition first_seen (keys : list string) : list string :=
  fold_left (fun acc k => if mem_string k acc then acc else acc ++ [k]) keys [].

(** [fw.get(key, None)] on a flattened member. *)
Definition value_or_none (key : string) (fw : dict value) : value :=
  match dict_get key fw with Some v => v | None => VNone end.

(* ================================================================== *)
(** ** Sample objects *)

(** The log of the specification: mnemonics [DEPT] and [GR], both of type
    [double], two rows, the second without a value for [GR]. *)
Definition double_curve (mnem : string) : cs_logCurveInfo :=
  {| mnemonic := mnem; typeLogData := "double" |}.

Definition dept_gr_log : obj_log :=
  {| logCurveInfo := [double_curve "DEPT"; double_curve "GR"];
     dataDelimiter := Some ",";
     logData := [ {| mnemonicList := "DEPT,GR";
                     data := ["100.0,50.2"; "100.1,"] |} ] |}.

(** The same log with a type that [LOG_PRIM_TYPES] does not hold. *)
Definition text_typed_log : obj_log :=
  {| logCurveInfo := [double_curve "DEPT"; {| mnemonic := "GR"; typeLogData := "text" |}];
     dataDelimiter := Some ",";
     logData := logData dept_gr_log |}.

(** The same log with a field that is no number. *)
Definition malformed_log : obj_log :=
  {| logCurveInfo := logCurveInfo dept_gr_log;
     dataDelimiter := Some ",";
     logData := [ {| mnemonicList := "DEPT,GR";
                     data := ["100.0,50.2"; "100.1,abc"] |} ] |}.

(** The same log with a row of one field only. *)
Definition short_row_log : obj_log :=
  {| logCurveInfo := logCurveInfo dept_gr_log;
     dataDelimiter := None;
     logData := [ {| mnemonicList := "DEPT,GR";
                     data := ["100.0,50.2"; "100.1"] |} ] |}.

(** The log of the specification followed by a second [logData] section
    with other mnemonics and rows. *)
Definition two_section_log : obj_log :=
  {| logCurveInfo := logCurveInfo dept_gr_log;
     dataDelimiter := Some ",";
     logData := logData dept_gr_log
                ++ [ {| mnemonicList := "TIME,ROP"; data := ["1,2"; "3,4"; "5,6"] |} ] |}.

(** A trajectory whose [station] collection of two members stands before
    and after the element [name] in the ordered content, and the same
    object with the collection standing once, at its first place. *)
Definition stations : node := Plural [Leaf (VInt 1); Leaf (VInt 2)].

Definition interleaved : node :=
  Complex None []
    [Some ("station", stations); Some ("name", Leaf (VStr "T1")); Some ("station", stations)].

Definition collected_once : node :=
  Complex None [] [Some ("station", stations); Some ("name", Leaf (VStr "T1"))].

(** A wellbore with the child [well], which has a value and the attribute
    [uid]. *)
Definition wellbore : node :=
  Complex None [("uid", VStr "wb1")]
    [Some ("name", Leaf (VStr "B1"));
     Some ("well", Simple [("uid", VStr "w1")] (VStr "W1"))].

(** A collection with one member, which has a structured child. *)
Definition nested_collection : list node :=
  [Complex None [] [Some ("a", Complex None [] [Some ("b", Leaf (VInt 1))])]].

(** A collection of two members with leaf children: keys [a], [b] and keys
    [a], [c]. *)
Definition flat_collection : list node :=
  [Complex None [] [Some ("a", Leaf (VInt 1)); Some ("b", Leaf (VInt 2))];
   Complex None [] [Some ("a", Leaf (VInt 3)); Some ("c", Leaf (VInt 4))]].

(** An object of class [obj_log], given the fields [logdata_dict] reads,
    its attributes and its content. *)
Definition log_node (x : obj_log * list (string * value) * list (option (string * node)))
  : node :=
  Complex (Some (fst (fst x))) (snd (fst x)) (snd x).

(** The call [logdata_dict(obj)] of [to_plain], as plain data. *)
Definition log_plain (P : prim_casts) (log : obj_log) : outcome plain :=
  frame <- logdata_dict P log true ;; Ok (plain_of_frame frame).

(* ================================================================== *)
(** ** Further notions for the properties below *)

(** [v is not None] *)
Definition not_none (v : value) : bool :=
  match v with VNone => false | _ => true end.

(** A frame with the [None] entries of its lists taken out. *)
Definition drop_none (frame : dict (list value)) : dict (list value) :=
  map (fun kv : string * list value => (fst kv, filter not_none (snd kv))) frame.

(** What a flattened member gives to the list of a key when missing data
    is ignored: its value when it has the key, nothing otherwise. *)
Definition value_if_present (key : string) (fw : dict value) : list value :=
  match dict_get key fw with Some v => [v] | None => [] end.

(** No object of class [obj_log] in the tree. *)
Fixpoint log_free (obj : node) : bool :=
  match obj with
  | Leaf _ | Simple _ _ | Empty _ | Mixed _ => true
  | Complex (Some _) _ _ => false
  | Complex None _ content =>
      forallb (fun cont : option (string * node) =>
                 match cont with
                 | Some (_, next_obj) => log_free next_obj
                 | None => true
                 end) content
  | Plural items => forallb log_free items
  end.

(** The tree with every attribute map emptied. *)
Fixpoint without_attrs (obj : node) : node :=
  match obj with
  | Leaf v => Leaf v
  | Simple _ v => Simple [] v
  | Complex as_log _ content =>
      Complex as_log []
        (map (fun cont : option (string * node) =>
                match cont with
                | Some (id, next_obj) => Some (id, without_attrs next_obj)
                | None => None
                end) content)
  | Plural items => Plural (map without_attrs items)
  | Empty _ => Empty []
  | Mixed _ => Mixed []
  end.

(** The log of the specification without a [logData] section. *)
Definition header_only_log : obj_log :=
  {| logCurveInfo := logCurveInfo dept_gr_log; dataDelimiter := None; logData := [] |}.

(** The same log with an empty [dataDelimiter]. *)
Definition empty_delimiter_log : obj_log :=
  {| logCurveInfo := logCurveInfo dept_gr_log;
     dataDelimiter := Some "";
     logData := logData dept_gr_log |}.

(** The same log with the mnemonic [ROP], which no [logCurveInfo] declares. *)
Definition undeclared_log : obj_log :=
  {| logCurveInfo := logCurveInfo dept_gr_log;
     dataDelimiter := None;
     logData := [ {| mnemonicList := "DEPT,ROP"; data := ["100.0,50.2"] |} ] |}.

(** The same log with a row that ends with a delimiter, so with a third,
    empty, field. *)
Definition long_row_log : obj_log :=
  {| logCurveInfo := logCurveInfo dept_gr_log;
     dataDelimiter := None;
     logData := [ {| mnemonicList := "DEPT,GR";
                     data := ["100.0,50.2"; "100.1,50.3,"] |} ] |}.

(** The same log with a value in every field. *)
Definition full_log : obj_log :=
  {| logCurveInfo := logCurveInfo dept_gr_log;
     dataDelimiter := None;
     logData := [ {| mnemonicList := "DEPT,GR";
                     data := ["100.0,50.2"; "100.1,50.3"] |} ] |}.

(** A place in an object where [to_plain] comes to: the object itself, a
    child of a structured object that is no log, or a member of a
    collection, and a place in that child or member. *)
Inductive place : Type :=
| Here
| Child (attrs : list (string * value)) (before : list (option (string * node)))
        (id : string) (inner : place) (after : list (option (string * node)))
| Member (before : list node) (inner : place) (after : list node).

(** The object that has [obj] at the place. *)
Fixpoint plug (p : place) (obj : node) : node :=
  match p with
  | Here => obj
  | Child attrs before id inner after =>
      Complex None attrs (before ++ Some (id, plug inner obj) :: after)
  | Member before inner after => Plural (before ++ plug inner obj :: after)
  end.

(** The log of the specification as an object of class [obj_log] with a
    child, and an object that is no log and holds the decoded columns as
    collections of values. *)
Definition dept_gr_node : node :=
  Complex (Some dept_gr_log) [] [Some ("name", Leaf (VStr "run 1"))].

Definition dept_gr_columns : node :=
  Complex None []
    [Some ("DEPT", Plural [Leaf (VFloat 100.0); Leaf (VFloat 100.1)]);
     Some ("GR", Plural [Leaf (VFloat 50.2); Leaf VNone])].

(** A member with the child [a] and the child [flag], an element with empty
    content. *)
Definition flagged_member : node :=
  Complex None [] [Some ("a", Leaf (VInt 1)); Some ("flag", Empty [])].

(** A collection of two members with the same two leaf children. *)
Definition uniform_collection : list node :=
  [Complex None [] [Some ("md", Leaf (VInt 1)); Some ("incl", Leaf (VInt 2))];
   Complex None [] [Some ("md", Leaf (VInt 3)); Some ("incl", Leaf (VInt 4))]].

(* ================================================================== *)
(** * Properties *)

(** ** The Python operations on small inputs *)

Example py_split_trailing : py_split "100.1," "," = Ok ["100.1"; ""].
Proof. reflexivity. Qed.

Example py_split_empty : py_split "" "," = Ok [""].
Proof. reflexivity. Qed.

Example py_split_long_separator : py_split "a--b-c--" "--" = Ok ["a"; "b-c"; ""].
Proof. reflexivity. Qed.

Example py_split_no_separator : py_split "a,b" "" = Raise (ValueError "empty separator").
Proof. reflexivity. Qed.

Example join_path_root : join_path "." "" "well" = "well".
Proof. reflexivity. Qed.

Example join_path_child : join_path "." "well" "@uid" = "well.@uid".
Proof. reflexivity. Qed.

Example item_path_start : item_path 1 "station" 2 = "station[3]".
Proof. reflexivity. Qed.

Example decimal_float_fraction : decimal_float "50.2" = Ok (VFloat 50.2).
Proof. vm_compute. reflexivity. Qed.

Example decimal_int_rejects_point :
  decimal_int "12." = Raise (ValueError "invalid literal for int() with base 10: '12.'").
Proof. reflexivity. Qed.

Example dict_set_keeps_place :
  dict_set "a" 3 [("a", 1); ("b", 2)] = [("a", 3); ("b", 2)]
  /\ dict_set "c" 3 [("a", 1); ("b", 2)] = [("a", 1); ("b", 2); ("c", 3)].
Proof. split; reflexivity. Qed.

Example obj_dict_wellbore :
  obj_dict true "@" "." 0 wellbore
  = Ok [("@uid", VStr "wb1"); ("well.@uid", VStr "w1"); ("well", VStr "W1");
        ("name", VStr "B1")].
Proof. reflexivity. Qed.

Example to_plain_wellbore :
  to_plain decimal_casts wellbore true "@" "." false
  = Ok (PDict [("@uid", PVal (VStr "wb1")); ("name", PVal (VStr "B1"));
               ("well.@uid", PVal (VStr "w1")); ("well", PVal (VStr "W1"))]).
Proof. reflexivity. Qed.

Example plural_dict_ragged :
  plural_dict flat_collection false false "" "." 0
  = Ok [("b", [VInt 2]); ("a", [VInt 1; VInt 3]); ("c", [VInt 4])].
Proof. reflexivity. Qed.

Example obj_dict_empty_content :
  obj_dict false "" "." 0 flagged_member = Raise NotSimpleContentError
  /\ to_plain decimal_casts flagged_member false "" "." false = Raise NotSimpleContentError
  /\ plural_dict [flagged_member] false true "" "." 0 = Raise NotSimpleContentError
  /\ plural_dict [flagged_member] false false "" "." 0 = Raise NotSimpleContentError.
Proof. repeat split; reflexivity. Qed.

Example obj_dict_mixed_content :
  obj_dict false "" "." 0 (Complex None [] [Some ("note", Mixed [])])
  = Raise (AttributeError "elementDeclaration")
  /\ to_plain decimal_casts (Complex None [] [Some ("note", Mixed [])]) false "" "." false
     = Raise (AttributeError "elementDeclaration").
Proof. split; reflexivity. Qed.

Example to_plain_nested_log :
  to_plain decimal_casts (Complex None [] [Some ("log", Plural [dept_gr_node])])
           true "@" "/" true
  = Ok (PDict [("log", PDict [("DEPT", PList [PList [PVal (VFloat 100.0); PVal (VFloat 100.1)]]);
                              ("GR", PList [PList [PVal (VFloat 50.2); PVal VNone]])])]).
Proof. vm_compute. reflexivity. Qed.

Example plural_dict_filled :
  plural_dict flat_collection false true "" "." 0
  = Ok [("b", [VInt 2; VNone]); ("a", [VInt 1; VInt 3]); ("c", [VNone; VInt 4])].
Proof. reflexivity. Qed.

(** ** Loops and dictionaries *)

Lemma for_each_app {S X : Type} (body : S -> X -> outcome S) (l1 l2 : list X) (st : S) :
  for_each body (l1 ++ l2) st = (st' <- for_each body l1 st ;; for_each body l2 st').
Proof.
  revert st. induction l1 as [|x l1 IH]; intros st; simpl; [reflexivity|].
  destruct (body st x); simpl; auto.
Qed.

Lemma list_comp_acc {X Y : Type} (f : X -> outcome Y) (l : list X) (ys acc : list Y) :
  Forall2 (fun x y => f x = Ok y) l ys ->
  for_each (fun acc x => y <- f x ;; Ok (acc ++ [y])) l acc = Ok (acc ++ ys).
Proof.
  intros H. revert acc. induction H as [|x y l ys Hxy _ IH]; intros acc; simpl.
  - now rewrite app_nil_r.
  - rewrite Hxy. simpl. rewrite IH, <- app_assoc. reflexivity.
Qed.

Lemma list_comp_ok {X Y : Type} (f : X -> outcome Y) (l : list X) (ys : list Y) :
  Forall2 (fun x y => f x = Ok y) l ys -> list_comp f l = Ok ys.
Proof. intros H. unfold list_comp. now rewrite (list_comp_acc _ [] H). Qed.

Lemma enumerate_from_app {X : Type} (l1 l2 : list X) (i : nat) :
  enumerate_from i (l1 ++ l2) = enumerate_from i l1 ++ enumerate_from (i + length l1) l2.
Proof.
  revert i. induction l1 as [|x l1 IH]; intros i; simpl.
  - now rewrite Nat.add_0_r.
  - rewrite IH, Nat.add_succ_r. reflexivity.
Qed.

Section DictFacts.

Context {V : Type}.
Implicit Types (d : dict V) (k key : string) (v : V).

Lemma dict_get_set_eq k v d : dict_get k (dict_set k v d) = Some v.
Proof.
  induction d as [|[k' w] d IH]; simpl.
  - now rewrite String.eqb_refl.
  - destruct (String.eqb k k') eqn:E; simpl; rewrite E; auto.
Qed.

Lemma dict_get_set_ne k k' v d :
  k <> k' -> dict_get k' (dict_set k v d) = dict_get k' d.
Proof.
  intros Hne. induction d as [|[k0 w] d IH]; simpl.
  - destruct (String.eqb k' k) eqn:E; [apply String.eqb_eq in E; congruence | reflexivity].
  - destruct (String.eqb k k0) eqn:E; simpl.
    + apply String.eqb_eq in E. subst k0.
      destruct (String.eqb k' k) eqn:E'; [apply String.eqb_eq in E'; congruence | reflexivity].
    + now rewrite IH.
Qed.

Lemma dict_get_In k v d : dict_get k d = Some v -> In (k, v) d.
Proof.
  induction d as [|[k' w] d IH]; simpl; [discriminate|].
  destruct (String.eqb k k') eqn:E.
  - apply String.eqb_eq in E. intros [= ->]. left. now subst.
  - auto.
Qed.

Lemma dict_get_None k d : dict_get k d = None <-> ~ In k (dict_keys d).
Proof.
  induction d as [|[k' w] d IH]; simpl; [tauto|].
  destruct (String.eqb k k') eqn:E.
  - apply String.eqb_eq in E. subst. split; [discriminate | intros H; exfalso; auto].
  - apply String.eqb_neq in E. rewrite IH. split; [intros H [H'|H']; congruence | tauto].
Qed.

Lemma dict_get_Some_key k v d : dict_get k d = Some v -> In k (dict_keys d).
Proof. intros H. apply dict_get_In in H. now apply (in_map fst) in H. Qed.

Lemma dict_mem_In k d : dict_mem k d = true <-> In k (dict_keys d).
Proof.
  unfold dict_mem. destruct (dict_get k d) eqn:E.
  - split; [intros _; eauto using dict_get_Some_key | reflexivity].
  - apply dict_get_None in E. split; [discriminate | tauto].
Qed.

Lemma dict_set_fresh k v d : dict_get k d = None -> dict_set k v d = d ++ [(k, v)].
Proof.
  induction d as [|[k' w] d IH]; simpl; [reflexivity|].
  destruct (String.eqb k k'); [discriminate|]. intros H. now rewrite IH.
Qed.

Lemma dict_keys_set_mem k v d :
  dict_mem k d = true -> dict_keys (dict_set k v d) = dict_keys d.
Proof.
  unfold dict_mem. induction d as [|[k' w] d IH]; simpl; [discriminate|].
  destruct (String.eqb k k'); simpl; [reflexivity|]. intros H. now rewrite IH.
Qed.

Lemma dict_keys_set k v d :
  dict_keys (dict_set k v d) = if dict_mem k d then dict_keys d else dict_keys d ++ [k].
Proof.
  destruct (dict_mem k d) eqn:E.
  - now apply dict_keys_set_mem.
  - unfold dict_mem in E. destruct (dict_get k d) eqn:G; [discriminate|].
    rewrite dict_set_fresh by assumption. unfold dict_keys. now rewrite map_app.
Qed.

Lemma NoDup_keys_set k v d : NoDup (dict_keys d) -> NoDup (dict_keys (dict_set k v d)).
Proof.
  intros H. rewrite dict_keys_set. destruct (dict_mem k d) eqn:E; [assumption|].
  apply NoDup_app; [assumption | repeat constructor; auto | ].
  intros x Hx [<-|[]]. apply dict_mem_In in Hx. congruence.
Qed.

Lemma dict_update_snoc d pairs k v :
  dict_update d (pairs ++ [(k, v)]) = dict_set k v (dict_update d pairs).
Proof. unfold dict_update. now rewrite fold_left_app. Qed.

Lemma NoDup_keys_update d pairs :
  NoDup (dict_keys d) -> NoDup (dict_keys (dict_update d pairs)).
Proof.
  revert d. induction pairs as [|[k v] pairs IH]; intros d H; simpl; [assumption|].
  apply IH. now apply NoDup_keys_set.
Qed.

Lemma dict_get_update key d pairs :
  dict_get key (dict_update d pairs) =
  match last_value key pairs with Some v => Some v | None => dict_get key d end.
Proof.
  induction pairs as [|[k v] pairs IH] using rev_ind; [reflexivity|].
  rewrite dict_update_snoc. unfold last_value. rewrite rev_app_distr. simpl.
  destruct (String.eqb key k) eqn:E.
  - apply String.eqb_eq in E. subst. simpl. apply dict_get_set_eq.
  - apply String.eqb_neq in E. rewrite dict_get_set_ne by congruence. exact IH.
Qed.

Lemma dict_update_fresh d pairs :
  NoDup (dict_keys d ++ map fst pairs) -> dict_update d pairs = d ++ pairs.
Proof.
  revert d. induction pairs as [|[k v] pairs IH]; intros d H; simpl.
  - now rewrite app_nil_r.
  - assert (Hk : dict_get k d = None).
    { apply dict_get_None. intros Hin. apply NoDup_remove_2 in H.
      apply H. apply in_or_app. now left. }
    rewrite dict_set_fresh by assumption. rewrite IH.
    + now rewrite <- app_assoc.
    + unfold dict_keys in *. rewrite map_app. simpl. now rewrite <- app_assoc.
Qed.

Lemma dict_comp_NoDup (pairs : list (string * V)) :
  NoDup (map fst pairs) -> dict_comp pairs = pairs.
Proof. intros H. unfold dict_comp. now rewrite dict_update_fresh. Qed.

Lemma In_dict_set kv k v d : In kv (dict_set k v d) -> kv = (k, v) \/ In kv d.
Proof.
  induction d as [|[k' w] d IH]; simpl.
  - intros [<-|[]]. now left.
  - destruct (String.eqb k k') eqn:E; simpl.
    + apply String.eqb_eq in E. subst. intros [<-|H]; auto.
    + intros [<-|H]; auto. destruct (IH H); auto.
Qed.

Lemma In_dict_update kv d pairs : In kv (dict_update d pairs) -> In kv d \/ In kv pairs.
Proof.
  revert d. induction pairs as [|[k v] pairs IH]; intros d; simpl; [auto|].
  intros H. destruct (IH _ H) as [H'|H']; [|auto].
  destruct (In_dict_set _ _ _ _ H') as [->|]; auto.
Qed.

End DictFacts.

Lemma dict_mem_keys {V : Type} key (d : dict V) :
  dict_mem key d = mem_string key (dict_keys d).
Proof.
  unfold dict_mem, mem_string. induction d as [|[k v] d IH]; simpl; [reflexivity|].
  now destruct (String.eqb key k).
Qed.

Lemma dict_keys_update {V : Type} (pairs : list (string * V)) : forall d : dict V,
  dict_keys (dict_update d pairs)
  = fold_left (fun acc k => if mem_string k acc then acc else acc ++ [k])
              (dict_keys pairs) (dict_keys d).
Proof.
  induction pairs as [|[k v] pairs IH]; intros d; simpl; [reflexivity|].
  now rewrite IH, dict_keys_set, dict_mem_keys.
Qed.

(** ** The Log Tabular Decoder *)

Lemma list_index_middle {X : Type} (pre suf : list X) (x : X) :
  list_index (pre ++ x :: suf) (length pre) = Ok x.
Proof.
  unfold list_index. rewrite nth_error_app2 by lia. now rewrite Nat.sub_diag.
Qed.

Lemma list_assign_middle {X : Type} (pre suf : list X) (x y : X) :
  list_assign (pre ++ x :: suf) (length pre) y = Ok (pre ++ y :: suf).
Proof.
  induction pre as [|z pre IH]; simpl; [reflexivity|]. now rewrite IH.
Qed.

Lemma py_split_fields (s sep : string) :
  sep <> "" -> py_split s sep = Ok (fields sep s).
Proof. destruct sep; [congruence | reflexivity]. Qed.

Lemma hd_error_skipn {X : Type} (l : list X) (k : nat) :
  hd_error (skipn k l) = nth_error l k.
Proof.
  revert l. induction k as [|k IH]; intros [|x l]; simpl; auto.
Qed.

Lemma tl_skipn {X : Type} (l : list X) (k : nat) : tl (skipn k l) = skipn (S k) l.
Proof.
  revert l. induction k as [|k IH]; intros [|x l]; simpl; auto.
Qed.

Lemma append_at_middle (pre suf : list column) mnem value_cast values v :
  append_at (pre ++ (mnem, value_cast, values) :: suf) (length pre) v
  = Ok (pre ++ (mnem, value_cast, values ++ [v]) :: suf).
Proof.
  unfold append_at. rewrite list_index_middle. simpl. apply list_assign_middle.
Qed.

Lemma fill_cols_nil fm cols : fill_cols fm [] cols = cols.
Proof.
  induction cols as [|[[m c] vs] cols IH]; simpl; [reflexivity|].
  now rewrite app_nil_r, IH.
Qed.

Lemma cast_of_fill_cols fm points cols :
  map cast_of (fill_cols fm points cols) = map cast_of cols.
Proof.
  revert points. induction cols as [|[[m c] vs] cols IH]; intros points; simpl;
    [reflexivity|]. now rewrite IH.
Qed.

(** One field, in a row that decodes. *)
Lemma decode_point_ok fm pre suf mnem value_cast values p :
  match p with
  | EmptyString => true
  | _ => match value_cast p with Ok _ => true | Raise _ => false end
  end = true ->
  decode_point fm (pre ++ (mnem, value_cast, values) :: suf) (length pre, p)
  = Ok (pre ++ (mnem, value_cast, values ++ cell fm value_cast (Some p)) :: suf).
Proof.
  intros Hp. unfold decode_point. destruct p as [|a p].
  - simpl. destruct fm; [apply append_at_middle | now rewrite app_nil_r].
  - rewrite list_index_middle. simpl.
    destruct (value_cast (String a p)) as [v|e]; [|discriminate].
    simpl. apply append_at_middle.
Qed.

(** The inner loop, on a row that decodes. *)
Lemma decode_points_ok fm points : forall pre suf,
  row_decodes points (map cast_of suf) = true ->
  for_each (decode_point fm) (enumerate_from (length pre) points) (pre ++ suf)
  = Ok (pre ++ fill_cols fm points suf).
Proof.
  induction points as [|p ps IH]; intros pre suf H.
  - simpl. now rewrite fill_cols_nil.
  - destruct suf as [|[[m c] vs] suf]; [discriminate|].
    simpl in H. apply andb_true_iff in H. destruct H as [Hp Hps].
    cbn [enumerate_from for_each]. rewrite decode_point_ok by exact Hp. cbn [bind].
    pose proof (IH (pre ++ [(m, c, vs ++ cell fm c (Some p))]) suf Hps) as IH'.
    rewrite length_app, <- !app_assoc in IH'. cbn [app length] in IH'.
    rewrite Nat.add_1_r in IH'. exact IH'.
Qed.

(** The outer loop, on rows that decode. *)
Lemma decode_rows_ok (delimiter : string) fm rows : forall data_list,
  delimiter <> "" ->
  forallb (fun row => row_decodes (fields delimiter row) (map cast_of data_list)) rows = true ->
  for_each (decode_row delimiter fm) rows data_list
  = Ok (fold_left (fun dl row => fill_cols fm (fields delimiter row) dl) rows data_list).
Proof.
  induction rows as [|row rows IH]; intros data_list Hd H; [reflexivity|].
  cbn [forallb] in H. apply andb_true_iff in H. destruct H as [Hrow Hrows].
  cbn [for_each fold_left].
  assert (Hstep : decode_row delimiter fm data_list row
                  = Ok (fill_cols fm (fields delimiter row) data_list)).
  { unfold decode_row. rewrite py_split_fields by exact Hd. cbn [bind].
    exact (decode_points_ok fm (fields delimiter row) [] data_list Hrow). }
  rewrite Hstep. cbn [bind].
  apply IH; [exact Hd|]. now rewrite cast_of_fill_cols.
Qed.

Lemma decoded_columns_step fm points rows cols : forall k,
  map (fun jc : nat * column =>
         (fst (fst (snd jc)),
          snd (snd jc) ++ column_values fm (snd (fst (snd jc))) (fst jc) rows))
      (enumerate_from k (fill_cols fm (skipn k points) cols))
  = map (fun jc : nat * column =>
           (fst (fst (snd jc)),
            snd (snd jc) ++ column_values fm (snd (fst (snd jc))) (fst jc) (points :: rows)))
        (enumerate_from k cols).
Proof.
  induction cols as [|[[m c] vs] cols IH]; intros k; simpl; [reflexivity|].
  rewrite hd_error_skipn, tl_skipn, IH, <- app_assoc. reflexivity.
Qed.

Lemma decoded_columns_fold fm (delimiter : string) rows : forall cols,
  map (fun col : column => (fst (fst col), snd col))
      (fold_left (fun dl row => fill_cols fm (fields delimiter row) dl) rows cols)
  = decoded_columns fm cols (map (fields delimiter) rows).
Proof.
  induction rows as [|row rows IH]; intros cols; simpl.
  - unfold decoded_columns, enumerate. generalize 0.
    induction cols as [|[[m c] vs] cols IHc]; intros k; simpl; [reflexivity|].
    rewrite app_nil_r. f_equal. exact (IHc (S k)).
  - rewrite IH. unfold decoded_columns, enumerate.
    exact (decoded_columns_step fm (fields delimiter row) _ cols 0).
Qed.

Section DecoderFacts.

Variable P : prim_casts.

(** The cast map holds, for each mnemonic, the cast declared for it. *)
Lemma build_cast_map_ok curves :
  types_known P curves = true ->
  exists cm, build_cast_map P curves = Ok cm /\
             forall mnem, dict_get mnem cm = declared_cast P curves mnem.
Proof.
  induction curves as [|c curves IH] using rev_ind; intros H.
  - exists []. split; reflexivity.
  - unfold types_known in *. rewrite forallb_app in H.
    apply andb_true_iff in H. destruct H as [H1 H2]. simpl in H2.
    rewrite andb_true_r in H2. destruct (IH H1) as (cm & Hcm & Hget).
    unfold dict_mem in H2.
    destruct (dict_get (typeLogData c) (LOG_PRIM_TYPES P)) as [f|] eqn:Ef; [|discriminate].
    exists (dict_set (mnemonic c) f cm). split.
    + unfold build_cast_map in *. rewrite for_each_app, Hcm. simpl.
      unfold dict_index. now rewrite Ef.
    + intros mnem. unfold declared_cast. rewrite rev_app_distr. simpl.
      destruct (String.eqb mnem (mnemonic c)) eqn:E.
      * apply String.eqb_eq in E. subst. now rewrite dict_get_set_eq.
      * apply String.eqb_neq in E. rewrite dict_get_set_ne by congruence. apply Hget.
Qed.

(** A type that the table does not hold stops the cast map with a
    [KeyError] for it. *)
Lemma build_cast_map_raise known c rest :
  types_known P known = true ->
  dict_get (typeLogData c) (LOG_PRIM_TYPES P) = None ->
  build_cast_map P (known ++ c :: rest) = Raise (KeyError (typeLogData c)).
Proof.
  intros Hk Hc. destruct (build_cast_map_ok known Hk) as (cm & Hcm & _).
  unfold build_cast_map in *. rewrite for_each_app, Hcm. simpl.
  unfold dict_index. now rewrite Hc.
Qed.

Lemma build_data_list_ok cm mnems casts :
  Forall2 (fun mnem value_cast => dict_get mnem cm = Some value_cast) mnems casts ->
  build_data_list cm mnems
  = Ok (map (fun mc : string * cast => (fst mc, snd mc, @nil value)) (combine mnems casts)).
Proof.
  intros H. apply list_comp_ok.
  induction H as [|m c mnems casts Hmc _ IH]; simpl; constructor; [|exact IH].
  unfold dict_index. now rewrite Hmc.
Qed.

(** The frame of a log that decodes: over the positions of the mnemonic
    list, the cells of the rows in turn. *)
Lemma logdata_dict_decoded log fm logData0 rest casts :
  types_known P (logCurveInfo log) = true ->
  logData log = logData0 :: rest ->
  delimiter_of log <> "" ->
  Forall2 (fun mnem value_cast =>
             declared_cast P (logCurveInfo log) mnem = Some value_cast)
          (fields (delimiter_of log) (mnemonicList logData0)) casts ->
  forallb (fun row => row_decodes (fields (delimiter_of log) row) casts)
          (data logData0) = true ->
  logdata_dict P log fm
  = Ok (decoded_frame fm
          (combine (fields (delimiter_of log) (mnemonicList logData0)) casts)
          (map (fields (delimiter_of log)) (data logData0))).
Proof.
  intros Ht Hld Hd Hc Hrows.
  destruct (build_cast_map_ok _ Ht) as (cm & Hcm & Hget).
  unfold logdata_dict. rewrite Hcm, Hld. simpl.
  rewrite py_split_fields by exact Hd. simpl.
  set (mnems := fields (delimiter_of log) (mnemonicList logData0)) in *.
  rewrite (build_data_list_ok cm (mnems := mnems) (casts := casts)).
  2:{ eapply Forall2_impl; [|exact Hc]. intros m c Hm. simpl in Hm. now rewrite Hget. }
  simpl.
  assert (Hlen : length mnems = length casts) by (eapply Forall2_length; exact Hc).
  assert (Hcasts :
            map cast_of (map (fun mc : string * cast => (fst mc, snd mc, @nil value))
                             (combine mnems casts)) = casts).
  { clear -Hlen. revert casts Hlen.
    induction mnems as [|m mnems IH]; intros [|c casts] Hlen; simpl in *;
      try discriminate; [reflexivity|].
    f_equal. apply IH. lia. }
  rewrite decode_rows_ok; [|exact Hd|now rewrite Hcasts]. simpl.
  rewrite decoded_columns_fold. f_equal. unfold decoded_frame. f_equal.
  unfold decoded_columns, enumerate. generalize 0. generalize (combine mnems casts).
  induction l as [|[m c] l IH]; intros k; simpl; [reflexivity|]. now rewrite IH.
Qed.

End DecoderFacts.

Lemma In_enumerate_from {X : Type} (l : list X) (k j : nat) (x : X) :
  In (j, x) (enumerate_from k l) -> k <= j /\ nth_error l (j - k) = Some x.
Proof.
  revert k. induction l as [|y l IH]; intros k; simpl; [tauto|].
  intros [[= <- <-]|H].
  - split; [lia|]. now rewrite Nat.sub_diag.
  - apply IH in H. destruct H as [Hle Hn]. split; [lia|].
    replace (j - k) with (S (j - S k)) by lia. exact Hn.
Qed.

Lemma In_enumerate_combine {X Y : Type} (l : list X) (l' : list Y) j k x y :
  nth_error l j = Some x -> nth_error l' j = Some y ->
  In (k + j, (x, y)) (enumerate_from k (combine l l')).
Proof.
  revert j k l'. induction l as [|x' l IH]; intros [|j] k [|y' l']; simpl; try discriminate.
  - intros [= ->] [= ->]. left. f_equal. lia.
  - intros Hx Hy. right. replace (k + S j) with (S k + j) by lia. now apply IH.
Qed.

Lemma nth_error_combine_fst {X Y : Type} (l : list X) (l' : list Y) j x y :
  nth_error (combine l l') j = Some (x, y) -> nth_error l j = Some x.
Proof.
  revert j l'. induction l as [|x' l IH]; intros [|j] [|y' l']; simpl; try discriminate.
  - now intros [= -> _].
  - apply IH.
Qed.

Lemma enumerate_combine_names {X Y : Type} (l : list X) :
  forall (l' : list Y) k,
    length l = length l' ->
    map (fun jc : nat * (X * Y) => fst (snd jc)) (enumerate_from k (combine l l')) = l.
Proof.
  induction l as [|x l IH]; intros [|y l'] k H; simpl in *; try discriminate;
    [reflexivity|]. f_equal. apply IH. lia.
Qed.

Lemma cell_length fm value_cast point : length (cell fm value_cast point) <= 1.
Proof.
  destruct point as [[|a p]|]; simpl; [destruct fm | destruct (value_cast _) | ]; simpl; lia.
Qed.

Lemma column_values_length fm value_cast j rows :
  length (column_values fm value_cast j rows) <= length rows.
Proof.
  induction rows as [|points rows IH]; simpl; [lia|].
  unfold column_values in *. simpl. rewrite length_app.
  pose proof (cell_length fm value_cast (nth_error points j)). lia.
Qed.

(** A column is shorter than the row count once a row has no field for it. *)
Lemma column_values_short fm value_cast j rows points :
  In points rows -> length points <= j ->
  length (column_values fm value_cast j rows) < length rows.
Proof.
  induction rows as [|points' rows IH]; simpl; [tauto|].
  intros [->|Hin] Hj; unfold column_values in *; simpl; rewrite length_app.
  - replace (nth_error points j) with (@None string) by (symmetry; now apply nth_error_None).
    simpl. pose proof (column_values_length fm value_cast j rows).
    unfold column_values in *. lia.
  - pose proof (cell_length fm value_cast (nth_error points' j)).
    specialize (IH Hin Hj). lia.
Qed.

Lemma types_known_split P curves :
  types_known P curves = false ->
  exists known c rest,
    curves = known ++ c :: rest /\ types_known P known = true /\
    dict_get (typeLogData c) (LOG_PRIM_TYPES P) = None.
Proof.
  unfold types_known. induction curves as [|c curves IH]; [discriminate|].
  cbn [forallb]. destruct (dict_mem (typeLogData c) (LOG_PRIM_TYPES P)) eqn:E; cbn [andb].
  - intros H. destruct (IH H) as (known & c' & rest & -> & Hk & Hc).
    exists (c :: known), c', rest. repeat split; [|exact Hc].
    cbn [forallb]. now rewrite E.
  - intros _. exists [], c, curves. repeat split.
    unfold dict_mem in E. now destruct (dict_get _ _).
Qed.

(** A failing field makes its row fail the check. *)
Lemma row_decodes_failing points casts j point value_cast e :
  nth_error points j = Some point -> point <> "" ->
  nth_error casts j = Some value_cast -> value_cast point = Raise e ->
  row_decodes points casts = false.
Proof.
  revert points casts. induction j as [|j IH]; intros [|p ps] [|c cs]; simpl;
    try discriminate.
  - intros [= ->] Hne [= ->] He. rewrite He. now destruct point.
  - intros Hp Hne Hc He. rewrite (IH _ _ Hp Hne Hc He). apply andb_false_r.
Qed.

(** The inner loop on a row that does not decode: the exception is the one
    of the cast, on the first field it rejects. *)
Lemma decode_points_raise fm points : forall pre suf,
  length points <= length suf ->
  row_decodes points (map cast_of suf) = false ->
  exists j point col e,
    nth_error points j = Some point /\ point <> "" /\
    nth_error suf j = Some col /\ cast_of col point = Raise e /\
    for_each (decode_point fm) (enumerate_from (length pre) points) (pre ++ suf) = Raise e.
Proof.
  induction points as [|p ps IH]; intros pre suf Hlen H; [discriminate|].
  destruct suf as [|[[m c] vs] suf]; [simpl in Hlen; lia|].
  simpl in H, Hlen. apply andb_false_iff in H. cbn [enumerate_from for_each].
  destruct (match p with
            | EmptyString => true
            | _ => match cast_of (m, c, vs) p with Ok _ => true | Raise _ => false end
            end) eqn:Hp.
  - destruct H as [H|H]; [discriminate|].
    rewrite decode_point_ok by exact Hp. cbn [bind].
    destruct (IH (pre ++ [(m, c, vs ++ cell fm c (Some p))]) suf ltac:(lia) H)
      as (j & point & col & e & Hj & Hne & Hcol & He & Hrun).
    exists (S j), point, col, e. repeat split; try assumption.
    rewrite length_app, <- !app_assoc in Hrun. cbn [app length] in Hrun.
    now rewrite Nat.add_1_r in Hrun.
  - clear H. destruct p as [|a p]; [discriminate|].
    unfold cast_of in Hp. simpl in Hp.
    destruct (c (String a p)) as [v|e] eqn:Ec; [discriminate|].
    exists 0, (String a p), (m, c, vs), e. repeat split; try assumption; [discriminate|].
    unfold decode_point. rewrite list_index_middle. simpl. now rewrite Ec.
Qed.

(** The outer loop when some row does not decode. *)
Lemma decode_rows_raise (delimiter : string) fm rows : forall data_list,
  delimiter <> "" ->
  (forall row, In row rows -> length (fields delimiter row) <= length data_list) ->
  forallb (fun row => row_decodes (fields delimiter row) (map cast_of data_list)) rows = false ->
  exists row j point value_cast e,
    In row rows /\ nth_error (fields delimiter row) j = Some point /\ point <> "" /\
    nth_error (map cast_of data_list) j = Some value_cast /\ value_cast point = Raise e /\
    for_each (decode_row delimiter fm) rows data_list = Raise e.
Proof.
  induction rows as [|row rows IH]; intros data_list Hd Hlen H; [discriminate|].
  cbn [forallb] in H. cbn [for_each].
  destruct (row_decodes (fields delimiter row) (map cast_of data_list)) eqn:Hrow.
  - simpl in H.
    assert (Hstep : decode_row delimiter fm data_list row
                    = Ok (fill_cols fm (fields delimiter row) data_list)).
    { unfold decode_row. rewrite py_split_fields by exact Hd. cbn [bind].
      exact (decode_points_ok fm (fields delimiter row) [] data_list Hrow). }
    rewrite Hstep. cbn [bind].
    destruct (IH (fill_cols fm (fields delimiter row) data_list) Hd)
      as (row' & j & point & c & e & Hin & Hj & Hne & Hc & He & Hrun).
    + intros r Hr. rewrite <- (length_map cast_of), cast_of_fill_cols, length_map.
      apply Hlen. now right.
    + now rewrite cast_of_fill_cols.
    + rewrite cast_of_fill_cols in Hc.
      exists row', j, point, c, e. repeat split; try assumption. now right.
  - destruct (decode_points_raise fm (fields delimiter row) [] data_list)
      as (j & point & col & e & Hj & Hne & Hcol & He & Hrun).
    + apply Hlen. now left.
    + exact Hrow.
    + exists row, j, point, (cast_of col), e. repeat split; try assumption.
      * now left.
      * now rewrite nth_error_map, Hcol.
      * unfold decode_row at 1. rewrite py_split_fields by exact Hd. cbn [bind].
        unfold enumerate. simpl in Hrun. now rewrite Hrun.
Qed.

(** *** What the decoder returns *)

(** C4: for each row and each positional field of it, [logdata_dict] appends
    to the column at that position the field cast by the cast declared for
    the column when the field is not empty, [None] when it is empty and
    [fill_missing] holds, and nothing when it is empty and [fill_missing]
    does not hold ([decoded_frame], by [cell]).  In particular the log with
    mnemonics [DEPT,GR], both [double], and rows [100.0,50.2] and [100.1,]
    gives [{DEPT: [100.0, 100.1], GR: [50.2, None]}] with [fill_missing] and
    [{DEPT: [100.0, 100.1], GR: [50.2]}] without. *)
Theorem logdata_dict_fields :
  (forall (P : prim_casts) (log : obj_log) (fill_missing : bool)
          (logData0 : cs_logData) (rest : list cs_logData) (casts : list cast),
      types_known P (logCurveInfo log) = true ->
      logData log = logData0 :: rest ->
      delimiter_of log <> "" ->
      Forall2 (fun mnem value_cast =>
                 declared_cast P (logCurveInfo log) mnem = Some value_cast)
              (fields (delimiter_of log) (mnemonicList logData0)) casts ->
      forallb (fun row => row_decodes (fields (delimiter_of log) row) casts)
              (data logData0) = true ->
      logdata_dict P log fill_missing
      = Ok (decoded_frame fill_missing
              (combine (fields (delimiter_of log) (mnemonicList logData0)) casts)
              (map (fields (delimiter_of log)) (data logData0))))
  /\ logdata_dict decimal_casts dept_gr_log true
     = Ok [("DEPT", [VFloat 100.0; VFloat 100.1]); ("GR", [VFloat 50.2; VNone])]
  /\ logdata_dict decimal_casts dept_gr_log false
     = Ok [("DEPT", [VFloat 100.0; VFloat 100.1]); ("GR", [VFloat 50.2])].
Proof.
  split; [|split].
  - intros. now apply logdata_dict_decoded with (rest := rest).
  - vm_compute. reflexivity.
  - vm_compute. reflexivity.
Qed.

Lemma logdata_dict_fields_witness :
  logdata_dict decimal_casts dept_gr_log true
  = Ok (decoded_frame true [("DEPT", decimal_float); ("GR", decimal_float)]
          [["100.0"; "50.2"]; ["100.1"; ""]]).
Proof.
  apply (proj1 logdata_dict_fields decimal_casts dept_gr_log true
           {| mnemonicList := "DEPT,GR"; data := ["100.0,50.2"; "100.1,"] |} []
           [decimal_float; decimal_float]).
  - reflexivity.
  - reflexivity.
  - discriminate.
  - repeat constructor.
  - reflexivity.
Defined.

(** C8: [logdata_dict] reads the first [logData] section only.  Its
    outcome on a log with further sections is its outcome on the log with
    the first section alone; and when the first section decodes, the keys
    of the frame are the mnemonics of [logData[0].mnemonicList] (in order of
    first occurrence) and its lists are the columns of the rows of
    [logData[0].data], whatever the further sections hold. *)
Theorem logdata_dict_first_section :
  forall (P : prim_casts) (log : obj_log) (fill_missing : bool)
         (logData0 : cs_logData) (rest : list cs_logData),
    logData log = logData0 :: rest ->
    logdata_dict P log fill_missing
    = logdata_dict P
        {| logCurveInfo := logCurveInfo log;
           dataDelimiter := dataDelimiter log;
           logData := [logData0] |}
        fill_missing
    /\ forall casts : list cast,
         types_known P (logCurveInfo log) = true ->
         delimiter_of log <> "" ->
         Forall2 (fun mnem value_cast =>
                    declared_cast P (logCurveInfo log) mnem = Some value_cast)
                 (fields (delimiter_of log) (mnemonicList logData0)) casts ->
         forallb (fun row => row_decodes (fields (delimiter_of log) row) casts)
                 (data logData0) = true ->
         exists frame,
           logdata_dict P log fill_missing = Ok frame /\
           dict_keys frame
           = first_seen (fields (delimiter_of log) (mnemonicList logData0)) /\
           frame
           = decoded_frame fill_missing
               (combine (fields (delimiter_of log) (mnemonicList logData0)) casts)
               (map (fields (delimiter_of log)) (data logData0)).
Proof.
  intros P log fm ld rest Hld. split.
  - unfold logdata_dict. rewrite Hld. reflexivity.
  - intros casts Ht Hd Hc Hrows. eexists.
    split; [exact (@logdata_dict_decoded P log fm ld rest casts Ht Hld Hd Hc Hrows)|].
    split; [|reflexivity].
    unfold decoded_frame, dict_comp. rewrite dict_keys_update. unfold first_seen.
    f_equal. unfold dict_keys. rewrite map_map. cbn [fst].
    apply enumerate_combine_names. eapply Forall2_length. exact Hc.
Qed.

Lemma logdata_dict_first_section_witness :
  logdata_dict decimal_casts two_section_log true
  = logdata_dict decimal_casts dept_gr_log true
  /\ exists frame,
       logdata_dict decimal_casts two_section_log true = Ok frame /\
       dict_keys frame = first_seen ["DEPT"; "GR"] /\
       frame = decoded_frame true [("DEPT", decimal_float); ("GR", decimal_float)]
                             [["100.0"; "50.2"]; ["100.1"; ""]].
Proof.
  destruct (@logdata_dict_first_section decimal_casts two_section_log true
              {| mnemonicList := "DEPT,GR"; data := ["100.0,50.2"; "100.1,"] |}
              [ {| mnemonicList := "TIME,ROP"; data := ["1,2"; "3,4"; "5,6"] |} ]
              eq_refl) as [Hfirst Hframe].
  split; [exact Hfirst|].
  apply (Hframe [decimal_float; decimal_float]).
  - reflexivity.
  - discriminate.
  - repeat constructor.
  - reflexivity.
Defined.

(** C10: a row with fewer fields than the mnemonic list does not make
    [logdata_dict] fail, and each column all of whose positions lie past the
    fields of the row gets no entry for it: whatever [fill_missing] is, the
    column is shorter than the row count. *)
Theorem logdata_dict_short_row :
  forall (P : prim_casts) (log : obj_log) (fill_missing : bool)
         (logData0 : cs_logData) (rest : list cs_logData) (casts : list cast)
         (row : string),
    types_known P (logCurveInfo log) = true ->
    logData log = logData0 :: rest ->
    delimiter_of log <> "" ->
    Forall2 (fun mnem value_cast =>
               declared_cast P (logCurveInfo log) mnem = Some value_cast)
            (fields (delimiter_of log) (mnemonicList logData0)) casts ->
    forallb (fun row => row_decodes (fields (delimiter_of log) row) casts)
            (data logData0) = true ->
    In row (data logData0) ->
    length (fields (delimiter_of log) row)
    < length (fields (delimiter_of log) (mnemonicList logData0)) ->
    exists frame,
      logdata_dict P log fill_missing = Ok frame /\
      forall j mnem,
        nth_error (fields (delimiter_of log) (mnemonicList logData0)) j = Some mnem ->
        (forall j', nth_error (fields (delimiter_of log) (mnemonicList logData0)) j'
                    = Some mnem ->
                    length (fields (delimiter_of log) row) <= j') ->
        exists values,
          dict_get mnem frame = Some values /\
          length values < length (data logData0).
Proof.
  intros P log fm ld rest casts row Ht Hld Hd Hc Hrows Hrow Hshort.
  eexists. split; [exact (@logdata_dict_decoded P log fm ld rest casts Ht Hld Hd Hc Hrows)|].
  set (d := delimiter_of log) in *. set (mnems := fields d (mnemonicList ld)) in *.
  intros j mnem Hj Hall.
  assert (Hlen : length mnems = length casts) by (eapply Forall2_length; exact Hc).
  unfold decoded_frame, dict_comp. rewrite dict_get_update. simpl.
  set (pairs := map _ (enumerate (combine mnems casts))).
  assert (Hin : forall kv, In kv pairs ->
                exists j' c, nth_error mnems j' = Some (fst kv) /\
                             snd kv = column_values fm c j' (map (fields d) (data ld))).
  { intros kv Hkv. unfold pairs in Hkv. apply in_map_iff in Hkv.
    destruct Hkv as ([j' [m c]] & <- & Hjc). apply In_enumerate_from in Hjc.
    destruct Hjc as [_ Hn]. rewrite Nat.sub_0_r in Hn. exists j', c. split; [|reflexivity].
    simpl. exact (nth_error_combine_fst _ _ _ Hn). }
  unfold last_value.
  destruct (find (fun kv => String.eqb mnem (fst kv)) (rev pairs)) as [[m vs]|] eqn:Ef.
  - apply find_some in Ef. destruct Ef as [Hinr Heq]. simpl in Heq.
    apply String.eqb_eq in Heq. subst m. apply in_rev in Hinr.
    destruct (Hin _ Hinr) as (j' & c & Hj' & Hvs). simpl in Hj', Hvs.
    exists vs. split; [reflexivity|]. subst vs.
    rewrite <- (length_map (fields d) (data ld)).
    apply column_values_short with (points := fields d row).
    + now apply in_map.
    + now apply Hall.
  - exfalso.
    destruct (nth_error casts j) as [c|] eqn:Ec.
    2:{ apply nth_error_None in Ec.
        assert (j < length mnems) by (apply nth_error_Some; congruence). lia. }
    assert (Hp : In (mnem, column_values fm c j (map (fields d) (data ld))) pairs).
    { unfold pairs. apply in_map_iff. exists (j, (mnem, c)). split; [reflexivity|].
      exact (In_enumerate_combine mnems casts j 0 Hj Ec). }
    apply in_rev in Hp.
    eapply find_none in Ef; [|exact Hp]. simpl in Ef. now rewrite String.eqb_refl in Ef.
Qed.

Lemma logdata_dict_short_row_witness :
  exists frame,
    logdata_dict decimal_casts short_row_log true = Ok frame /\
    forall j mnem,
      nth_error ["DEPT"; "GR"] j = Some mnem ->
      (forall j', nth_error ["DEPT"; "GR"] j' = Some mnem -> 1 <= j') ->
      exists values, dict_get mnem frame = Some values /\ length values < 2.
Proof.
  apply (@logdata_dict_short_row decimal_casts short_row_log true
           {| mnemonicList := "DEPT,GR"; data := ["100.0,50.2"; "100.1"] |} []
           [decimal_float; decimal_float] "100.1").
  - reflexivity.
  - reflexivity.
  - discriminate.
  - repeat constructor.
  - reflexivity.
  - simpl. auto.
  - simpl. lia.
Defined.

(** *** When the decoder raises *)

(** The claim that a type outside [LOG_PRIM_TYPES] is read as text fails:
    with [typeLogData] set to [text] for [GR] the call ends with
    [KeyError: 'text']. *)
Lemma logdata_dict_unrecognized_type_raises :
  logdata_dict decimal_casts text_typed_log true = Raise (KeyError "text")
  /\ dict_get "text" (LOG_PRIM_TYPES decimal_casts) = None.
Proof. split; reflexivity. Qed.

Lemma py_bytes_not_str : py_bytes <> py_str.
Proof. intros H. apply (f_equal (fun f : cast => f "")) in H. discriminate. Qed.

(** C2, amended: when a [logCurveInfo] declares a [typeLogData] that is not
    a key of [LOG_PRIM_TYPES], [logdata_dict] raises [KeyError] for the
    first such type in the order of [logCurveInfo], whatever the sections
    and rows are; there is no fallback.  The names read as text are keys of
    the table: with casts for [timestamp], [float] and [int] that are not
    [str], the table holds [str] for [string], [string40], [string16] and
    [unknown] and for no other name. *)
Theorem logdata_dict_unrecognized_type :
  (forall (P : prim_casts) (log : obj_log) (fill_missing : bool)
          (known : list cs_logCurveInfo) (c : cs_logCurveInfo)
          (rest : list cs_logCurveInfo),
      logCurveInfo log = known ++ c :: rest ->
      types_known P known = true ->
      dict_get (typeLogData c) (LOG_PRIM_TYPES P) = None ->
      logdata_dict P log fill_missing = Raise (KeyError (typeLogData c)))
  /\ (forall (P : prim_casts),
         py_timestamp P <> py_str -> py_float P <> py_str -> py_int P <> py_str ->
         forall t,
           dict_get t (LOG_PRIM_TYPES P) = Some py_str
           <-> In t ["string"; "string40"; "string16"; "unknown"]).
Proof.
  split.
  - intros P log fm known c rest Hlog Hk Hc.
    unfold logdata_dict.
    rewrite Hlog, (@build_cast_map_raise P known c rest Hk Hc). reflexivity.
  - intros P Ht Hf Hi t. split.
    + unfold LOG_PRIM_TYPES. cbn [dict_get].
      pose proof py_bytes_not_str as Hb.
      repeat match goal with
             | |- context [String.eqb t ?k] =>
                 destruct (String.eqb_spec t k) as [->|_];
                 [cbn [In]; first [intros [= H]; congruence | intros _; tauto]|]
             end.
      discriminate.
    + intros [<-|[<-|[<-|[<-|[]]]]]; reflexivity.
Qed.

Lemma decimal_casts_not_str :
  py_timestamp decimal_casts <> py_str /\ py_float decimal_casts <> py_str
  /\ py_int decimal_casts <> py_str.
Proof.
  repeat split; intros H; apply (f_equal (fun f : cast => f "")) in H;
    vm_compute in H; discriminate.
Qed.

Lemma logdata_dict_unrecognized_type_witness :
  logdata_dict decimal_casts text_typed_log false = Raise (KeyError "text")
  /\ (forall t,
         dict_get t (LOG_PRIM_TYPES decimal_casts) = Some py_str
         <-> In t ["string"; "string40"; "string16"; "unknown"]).
Proof.
  split.
  - apply (proj1 logdata_dict_unrecognized_type decimal_casts text_typed_log false
             [double_curve "DEPT"] {| mnemonic := "GR"; typeLogData := "text" |} []).
    + reflexivity.
    + reflexivity.
    + reflexivity.
  - apply (proj2 logdata_dict_unrecognized_type decimal_casts).
    + exact (proj1 decimal_casts_not_str).
    + exact (proj1 (proj2 decimal_casts_not_str)).
    + exact (proj2 (proj2 decimal_casts_not_str)).
Defined.

(** The claim that a decode failure carries the mnemonic fails: for the
    field [abc] of the column [GR] the call ends with the [ValueError] of
    [float], whose message quotes the field and does not name the column. *)
Lemma logdata_dict_failure_without_mnemonic :
  logdata_dict decimal_casts malformed_log true
  = Raise (ValueError "could not convert string to float: 'abc'")
  /\ contains "abc" "could not convert string to float: 'abc'" = true
  /\ contains "GR" "could not convert string to float: 'abc'" = false.
Proof. repeat split; vm_compute; reflexivity. Qed.

(** C5, amended: when a field of a row fails the cast of its column (the
    table holding every declared type, the mnemonics being declared, and no
    row having more fields than there are mnemonics), [logdata_dict] raises,
    and what it raises is the exception the cast raised on the text of a
    failing field, as it is: the cast is given the field alone, and nothing
    is added, so the mnemonic is not part of it. *)
Theorem logdata_dict_cast_failure :
  forall (P : prim_casts) (log : obj_log) (fill_missing : bool)
         (logData0 : cs_logData) (rest : list cs_logData) (casts : list cast),
    types_known P (logCurveInfo log) = true ->
    logData log = logData0 :: rest ->
    delimiter_of log <> "" ->
    Forall2 (fun mnem value_cast =>
               declared_cast P (logCurveInfo log) mnem = Some value_cast)
            (fields (delimiter_of log) (mnemonicList logData0)) casts ->
    (forall row, In row (data logData0) ->
                 length (fields (delimiter_of log) row) <= length casts) ->
    (exists row j point value_cast e,
        In row (data logData0) /\
        nth_error (fields (delimiter_of log) row) j = Some point /\ point <> "" /\
        nth_error casts j = Some value_cast /\ value_cast point = Raise e) ->
    exists row j point value_cast e,
      In row (data logData0) /\
      nth_error (fields (delimiter_of log) row) j = Some point /\ point <> "" /\
      nth_error casts j = Some value_cast /\ value_cast point = Raise e /\
      logdata_dict P log fill_missing = Raise e.
Proof.
  intros P log fm ld rest casts Ht Hld Hd Hc Hlen
         (row0 & j0 & point0 & c0 & e0 & Hin0 & Hj0 & Hne0 & Hc0 & He0).
  destruct (build_cast_map_ok P _ Ht) as (cm & Hcm & Hget).
  set (d := delimiter_of log) in *. set (mnems := fields d (mnemonicList ld)) in *.
  set (data_list := map (fun mc : string * cast => (fst mc, snd mc, @nil value))
                        (combine mnems casts)).
  assert (Hl : length mnems = length casts) by (eapply Forall2_length; exact Hc).
  assert (Hcasts : map cast_of data_list = casts).
  { unfold data_list. clear -Hl. revert casts Hl.
    induction mnems as [|m mnems IH]; intros [|c casts] Hl; simpl in *;
      try discriminate; [reflexivity|]. f_equal. apply IH. lia. }
  assert (Hfalse : forallb (fun row => row_decodes (fields d row) (map cast_of data_list))
                           (data ld) = false).
  { rewrite Hcasts. apply not_true_is_false. intros Hall.
    rewrite forallb_forall in Hall. specialize (Hall _ Hin0).
    now rewrite (row_decodes_failing _ _ _ Hj0 Hne0 Hc0 He0) in Hall. }
  destruct (decode_rows_raise fm (data ld) data_list Hd) as
      (row & j & point & c & e & Hin & Hj & Hne & Hcj & He & Hrun).
  - intros r Hr. rewrite <- (length_map cast_of), Hcasts. now apply Hlen.
  - exact Hfalse.
  - rewrite Hcasts in Hcj. exists row, j, point, c, e. repeat split; try assumption.
    unfold logdata_dict. rewrite Hcm, Hld. simpl.
    rewrite py_split_fields by exact Hd. simpl. fold d mnems.
    rewrite (build_data_list_ok cm (mnems := mnems) (casts := casts)).
    2:{ eapply Forall2_impl; [|exact Hc]. intros m c' Hm. simpl in Hm. now rewrite Hget. }
    simpl. fold data_list. now rewrite Hrun.
Qed.

Lemma logdata_dict_cast_failure_witness :
  exists row j point value_cast e,
    In row ["100.0,50.2"; "100.1,abc"] /\
    nth_error (fields "," row) j = Some point /\ point <> "" /\
    nth_error [decimal_float; decimal_float] j = Some value_cast /\
    value_cast point = Raise e /\
    logdata_dict decimal_casts malformed_log true = Raise e.
Proof.
  apply (@logdata_dict_cast_failure decimal_casts malformed_log true
           {| mnemonicList := "DEPT,GR"; data := ["100.0,50.2"; "100.1,abc"] |} []
           [decimal_float; decimal_float]).
  - reflexivity.
  - reflexivity.
  - discriminate.
  - repeat constructor.
  - intros row [<-|[<-|[]]]; simpl; lia.
  - exists "100.1,abc", 1, "abc", decimal_float,
      (ValueError "could not convert string to float: 'abc'").
    repeat split; simpl; auto. discriminate.
Defined.

(** ** The Tree Flattener *)

Lemma dict_update_app {V : Type} (d : dict V) (xs ys : list (string * V)) :
  dict_update d (xs ++ ys) = dict_update (dict_update d xs) ys.
Proof. unfold dict_update. apply fold_left_app. Qed.

Lemma weight_pos (obj : node) : 1 <= weight obj.
Proof. destruct obj; simpl; lia. Qed.

Lemma attr_entries_nil include_attr prefix_attr delimiter base_name :
  attr_entries include_attr prefix_attr delimiter base_name [] = [].
Proof. unfold attr_entries. now destruct include_attr. Qed.

Section FlattenerFacts.

Variables (include_attr : bool) (prefix_attr delimiter : string) (start_idx : Z).

Local Abbreviation entries' := (entries include_attr prefix_attr delimiter start_idx).
Local Abbreviation entries_list' := (entries_list include_attr prefix_attr delimiter start_idx).

Lemma emit_attrs_entries base_name attrs (d : dict value) :
  (if include_attr then emit_attrs prefix_attr delimiter base_name attrs d else d)
  = dict_update d (attr_entries include_attr prefix_attr delimiter base_name attrs).
Proof.
  unfold attr_entries, emit_attrs. destruct include_attr; [|reflexivity].
  revert d. induction attrs as [|a attrs IH]; intros d; simpl; [reflexivity|].
  apply IH.
Qed.

Lemma push_items_spec base_name items : forall k obj_list,
  let pushed :=
    fold_left
      (fun acc (ix : nat * node) => (item_path start_idx base_name (fst ix), snd ix) :: acc)
      (enumerate_from k items) obj_list in
  weight_list pushed = list_sum (map weight items) + weight_list obj_list /\
  entries_list' pushed
  = items_entries start_idx entries' base_name items k ++ entries_list' obj_list /\
  failure_list pushed
  = match items_failure failure items with
    | Some e => Some e
    | None => failure_list obj_list
    end.
Proof.
  induction items as [|item items IH]; intros k obj_list; simpl;
    [repeat split; reflexivity|].
  destruct (IH (S k) ((item_path start_idx base_name k, item) :: obj_list))
    as (Hw & He & Hf).
  repeat split.
  - rewrite Hw. unfold weight_list. simpl. lia.
  - rewrite He. unfold entries_list', entries_list. simpl. now rewrite app_assoc.
  - rewrite Hf. unfold items_failure. cbn [failure_list fold_right snd].
    now destruct ((fix go (l : list node) : option exn :=
                     match l with
                     | [] => None
                     | item0 :: l' =>
                         match go l' with Some e => Some e | None => failure item0 end
                     end) items).
Qed.

Lemma push_content_spec base_name content : forall obj_list,
  weight_list (push_content delimiter base_name content obj_list)
  = list_sum (map (fun cont : option (string * node) =>
                     match cont with
                     | Some (_, next_obj) => weight next_obj
                     | None => 0
                     end) content) + weight_list obj_list /\
  entries_list' (push_content delimiter base_name content obj_list)
  = content_entries delimiter entries' base_name content ++ entries_list' obj_list /\
  failure_list (push_content delimiter base_name content obj_list)
  = match content_failure failure content with
    | Some e => Some e
    | None => failure_list obj_list
    end.
Proof.
  unfold push_content.
  induction content as [|[[id next_obj]|] content IH]; intros obj_list; simpl;
    [repeat split; reflexivity | | apply IH].
  destruct (IH ((join_path delimiter base_name id, next_obj) :: obj_list))
    as (Hw & He & Hf).
  repeat split.
  - rewrite Hw. unfold weight_list. simpl. lia.
  - rewrite He. unfold entries_list', entries_list. simpl. now rewrite app_assoc.
  - rewrite Hf. unfold content_failure. cbn [failure_list fold_right snd].
    now destruct ((fix go (c : list (option (string * node))) : option exn :=
                     match c with
                     | [] => None
                     | None :: c' => go c'
                     | Some (_, next_obj0) :: c' =>
                         match go c' with Some e => Some e | None => failure next_obj0 end
                     end) content).
Qed.

(** The loop, given the iterations its work list stands for, ends: with the
    exception of the first object without a value when there is one, and
    otherwise with the assignments of [entries] made in turn. *)
Lemma obj_dict_loop_outcome : forall fuel obj_list (flatten_witsml : dict value),
  weight_list obj_list <= fuel ->
  obj_dict_loop include_attr prefix_attr delimiter start_idx fuel obj_list flatten_witsml
  = match failure_list obj_list with
    | Some e => Raise e
    | None => Ok (dict_update flatten_witsml (entries_list' obj_list))
    end.
Proof.
  induction fuel as [|fuel IH]; intros [|[base_name obj] obj_list] d Hw;
    try reflexivity.
  - unfold weight_list in Hw. simpl in Hw. pose proof (weight_pos obj). lia.
  - cbn [obj_dict_loop].
    assert (Hrest : forall obj_list' d',
               weight_list obj_list' <= fuel ->
               failure_list obj_list' = failure_list ((base_name, obj) :: obj_list) ->
               dict_update d' (entries_list' obj_list')
               = dict_update d (entries_list' ((base_name, obj) :: obj_list)) ->
               obj_dict_loop include_attr prefix_attr delimiter start_idx fuel obj_list' d'
               = match failure_list ((base_name, obj) :: obj_list) with
                 | Some e => Raise e
                 | None => Ok (dict_update d (entries_list' ((base_name, obj) :: obj_list)))
                 end).
    { intros l' d' Hl Hf Hd. rewrite IH by exact Hl. now rewrite Hf, Hd. }
    assert (Hw' : weight obj + weight_list obj_list <= S fuel) by exact Hw.
    clear Hw. rename Hw' into Hw.
    unfold entries_list', entries_list in *. cbn [flat_map fst snd] in *.
    destruct obj as [v|attrs v|as_log attrs content|items|attrs|attrs];
      cbn [obj_step attribute_map bind fst snd].
    + rewrite emit_attrs_entries, attr_entries_nil.
      apply Hrest; [simpl in Hw; lia | reflexivity | reflexivity].
    + rewrite emit_attrs_entries. apply Hrest; [simpl in Hw; lia | reflexivity |].
      cbn [entries]. now rewrite <- !app_assoc, !dict_update_app.
    + rewrite emit_attrs_entries.
      destruct (push_content_spec base_name content obj_list) as (Hpw & Hpe & Hpf).
      apply Hrest; [rewrite Hpw; simpl in Hw; lia | exact Hpf |].
      unfold entries_list', entries_list in Hpe. rewrite Hpe.
      cbn [entries]. now rewrite <- !app_assoc, !dict_update_app.
    + destruct (push_items_spec base_name items 0 obj_list) as (Hpw & Hpe & Hpf).
      unfold push_items, enumerate.
      apply Hrest; [rewrite Hpw; simpl in Hw; lia | exact Hpf |].
      unfold entries_list', entries_list in Hpe. rewrite Hpe. reflexivity.
    + reflexivity.
    + reflexivity.
Qed.

(** [obj_dict] ends: it raises when it meets an object without a value, and
    otherwise returns the dictionary of the assignments of [entries]. *)
Lemma obj_dict_outcome (obj : node) :
  obj_dict include_attr prefix_attr delimiter start_idx obj
  = match failure obj with
    | Some e => Raise e
    | None => Ok (dict_comp (entries' "" obj))
    end.
Proof.
  unfold obj_dict. rewrite obj_dict_loop_outcome.
  - unfold entries_list', entries_list. cbn [failure_list fold_right snd flat_map fst].
    rewrite app_nil_r. now destruct (failure obj).
  - unfold weight_list. simpl. lia.
Qed.

Lemma obj_dict_returns (obj : node) :
  failure obj = None ->
  obj_dict include_attr prefix_attr delimiter start_idx obj
  = Ok (dict_comp (entries' "" obj)).
Proof. intros H. now rewrite obj_dict_outcome, H. Qed.

Lemma obj_dict_Ok (obj : node) (flatten_witsml : dict value) :
  obj_dict include_attr prefix_attr delimiter start_idx obj = Ok flatten_witsml ->
  failure obj = None /\ flatten_witsml = dict_comp (entries' "" obj).
Proof.
  rewrite obj_dict_outcome. destruct (failure obj); [discriminate|].
  intros [= <-]. now split.
Qed.

Lemma obj_dict_NoDup (obj : node) (flatten_witsml : dict value) :
  obj_dict include_attr prefix_attr delimiter start_idx obj = Ok flatten_witsml ->
  NoDup (dict_keys flatten_witsml).
Proof.
  intros H. apply obj_dict_Ok in H. destruct H as [_ ->].
  apply NoDup_keys_update. constructor.
Qed.

End FlattenerFacts.

(** ** The Frame Builder *)

Lemma mem_string_In key keys : mem_string key keys = true <-> In key keys.
Proof.
  unfold mem_string. rewrite existsb_exists. split.
  - intros (k & Hk & E). apply String.eqb_eq in E. now subst.
  - intros H. exists key. split; [exact H | apply String.eqb_refl].
Qed.

Lemma mem_string_false key keys : mem_string key keys = false <-> ~ In key keys.
Proof.
  rewrite <- mem_string_In. destruct (mem_string key keys); split; congruence.
Qed.

Section FrameOf.

Context {V : Type}.

Lemma dict_keys_frame_of keys (col : string -> V) : dict_keys (frame_of keys col) = keys.
Proof. unfold dict_keys, frame_of. rewrite map_map. simpl. apply map_id. Qed.

Lemma dict_get_frame_of keys (col : string -> V) key :
  In key keys -> dict_get key (frame_of keys col) = Some (col key).
Proof.
  induction keys as [|k keys IH]; simpl; [tauto|].
  destruct (String.eqb key k) eqn:E.
  - apply String.eqb_eq in E. now subst.
  - apply String.eqb_neq in E. intros [H|H]; [congruence | auto].
Qed.

Lemma frame_of_ext keys (col col' : string -> V) :
  (forall key, In key keys -> col key = col' key) -> frame_of keys col = frame_of keys col'.
Proof. intros H. apply map_ext_in. intros k Hk. now rewrite H. Qed.

Lemma dict_set_frame_of keys (col : string -> V) key c :
  NoDup keys -> In key keys ->
  dict_set key c (frame_of keys col)
  = frame_of keys (fun k => if String.eqb k key then c else col k).
Proof.
  induction keys as [|k keys IH]; simpl; [tauto|].
  intros Hnd Hin. inversion Hnd as [|? ? Hk Hnd']; subst.
  destruct (String.eqb key k) eqn:E.
  - apply String.eqb_eq in E. subst k. rewrite String.eqb_refl. f_equal.
    apply frame_of_ext. intros k' Hk'.
    destruct (String.eqb k' key) eqn:E'; [|reflexivity].
    apply String.eqb_eq in E'. congruence.
  - apply String.eqb_neq in E. rewrite (String.eqb_sym k key).
    replace (String.eqb key k) with false by (symmetry; now apply String.eqb_neq).
    f_equal. destruct Hin as [H|H]; [congruence|]. now apply IH.
Qed.

End FrameOf.

Lemma first_seen_acc keys : forall acc,
  NoDup acc ->
  let r := fold_left (fun acc k => if mem_string k acc then acc else acc ++ [k]) keys acc in
  NoDup r /\ forall k, In k r <-> In k acc \/ In k keys.
Proof.
  induction keys as [|k keys IH]; intros acc Hacc; simpl; [split; [assumption | tauto]|].
  destruct (mem_string k acc) eqn:E.
  - destruct (IH acc Hacc) as [Hnd Hin]. split; [exact Hnd|].
    intros k'. rewrite Hin. apply mem_string_In in E. split; [tauto|].
    intros [H|[<-|H]]; auto.
  - apply mem_string_false in E.
    assert (Hacc' : NoDup (acc ++ [k])).
    { apply NoDup_app; [assumption | repeat constructor; auto |].
      intros x Hx [<-|[]]. auto. }
    destruct (IH _ Hacc') as [Hnd Hin]. split; [exact Hnd|].
    intros k'. rewrite Hin, in_app_iff. simpl. tauto.
Qed.

Lemma first_seen_NoDup keys : NoDup (first_seen keys).
Proof. apply (@first_seen_acc keys []). constructor. Qed.

Lemma first_seen_In keys k : In k (first_seen keys) <-> In k keys.
Proof.
  destruct (@first_seen_acc keys [] ltac:(constructor)) as [_ H].
  unfold first_seen. rewrite H. simpl. tauto.
Qed.

(** Extending the keys by those of a dictionary is seeing its keys in turn. *)
Lemma extend_keys_first_seen (fw : dict value) : forall existing_keys,
  NoDup (dict_keys fw) ->
  extend_keys existing_keys fw
  = fold_left (fun acc k => if mem_string k acc then acc else acc ++ [k])
              (dict_keys fw) existing_keys.
Proof.
  unfold extend_keys. induction (dict_keys fw) as [|k keys IH]; intros ek Hnd; simpl.
  - apply app_nil_r.
  - inversion Hnd as [|? ? Hk Hnd']; subst.
    destruct (mem_string k ek) eqn:E; simpl; [now apply IH|].
    rewrite <- IH by assumption. rewrite <- app_assoc. simpl. do 2 f_equal.
    apply filter_ext_in. intros k' Hk'. f_equal.
    unfold mem_string. rewrite existsb_app. simpl.
    destruct (String.eqb k' k) eqn:E'; [|now rewrite orb_false_r].
    apply String.eqb_eq in E'. congruence.
Qed.

Lemma extend_keys_fold (flats : list (dict value)) : forall existing_keys,
  Forall (fun fw => NoDup (dict_keys fw)) flats ->
  fold_left extend_keys flats existing_keys
  = fold_left (fun acc k => if mem_string k acc then acc else acc ++ [k])
              (concat (map (@dict_keys value) flats)) existing_keys.
Proof.
  induction flats as [|fw flats IH]; intros ek H; simpl; [reflexivity|].
  inversion H; subst. rewrite fold_left_app, <- extend_keys_first_seen by assumption.
  now apply IH.
Qed.

Lemma dict_get_app {V : Type} key (d1 d2 : dict V) :
  dict_get key (d1 ++ d2)
  = match dict_get key d1 with Some v => Some v | None => dict_get key d2 end.
Proof.
  induction d1 as [|[k v] d1 IH]; simpl; [reflexivity|].
  now destruct (String.eqb key k).
Qed.

(** The inner loop of the fill-missing branch: the entries of one member go
    to position [idx] of their columns. *)
Lemma fill_cells keys idx (post : list value) (pre : string -> list value) :
  NoDup keys ->
  (forall k, In k keys -> length (pre k) = idx) ->
  forall (todo done : dict value),
    NoDup (dict_keys (done ++ todo)) ->
    (forall k, In k (dict_keys todo) -> In k keys) ->
    for_each (fill_cell idx) todo
             (frame_of keys (fun k => pre k ++ value_or_none k done :: post))
    = Ok (frame_of keys (fun k => pre k ++ value_or_none k (done ++ todo) :: post)).
Proof.
  intros Hkeys Hpre. induction todo as [|[k0 v0] todo IH]; intros done Hnd Hin.
  - now rewrite app_nil_r.
  - cbn [for_each]. unfold fill_cell at 1. cbn [fst snd].
    assert (Hk0 : In k0 keys) by (apply Hin; now left).
    rewrite dict_get_frame_of by exact Hk0.
    rewrite <- (Hpre k0 Hk0) at 1. rewrite list_assign_middle. cbn [bind].
    rewrite dict_set_frame_of by assumption.
    assert (Hfresh : dict_get k0 done = None).
    { apply dict_get_None. unfold dict_keys in *. rewrite map_app in Hnd. simpl in Hnd.
      apply NoDup_remove_2 in Hnd. intros H. apply Hnd. apply in_or_app. now left. }
    rewrite (@frame_of_ext _ keys _
               (fun k => pre k ++ value_or_none k (done ++ [(k0, v0)]) :: post)).
    + replace (done ++ (k0, v0) :: todo) with ((done ++ [(k0, v0)]) ++ todo)
        by (now rewrite <- app_assoc).
      apply IH.
      * now rewrite <- app_assoc.
      * intros k Hk. apply Hin. now right.
    + intros k Hk. unfold value_or_none. rewrite dict_get_app. simpl.
      destruct (String.eqb k k0) eqn:E.
      * apply String.eqb_eq in E. subst k. now rewrite Hfresh.
      * now destruct (dict_get k done).
Qed.

(** The outer loop of the fill-missing branch. *)
Lemma fill_frames keys :
  NoDup keys ->
  forall (todo done : list (dict value)),
    Forall (fun fw => NoDup (dict_keys fw) /\ forall k, In k (dict_keys fw) -> In k keys)
           todo ->
    for_each
      (fun frame_dict (ifw : nat * dict value) =>
         for_each (fill_cell (fst ifw)) (snd ifw) frame_dict)
      (enumerate_from (length done) todo)
      (frame_of keys (fun k => map (value_or_none k) done ++ repeat VNone (length todo)))
    = Ok (frame_of keys (fun k => map (value_or_none k) (done ++ todo))).
Proof.
  intros Hkeys. induction todo as [|fw todo IH]; intros done Hall.
  - simpl. f_equal. apply frame_of_ext. intros k _. now rewrite !app_nil_r.
  - inversion Hall as [|? ? [Hnd Hin] Hall']; subst.
    cbn [enumerate_from for_each fst snd length repeat].
    change (frame_of keys
              (fun k => map (value_or_none k) done ++ VNone :: repeat VNone (length todo)))
      with (frame_of keys
              (fun k => map (value_or_none k) done
                          ++ value_or_none k [] :: repeat VNone (length todo))).
    rewrite (@fill_cells keys (length done) (repeat VNone (length todo))
               (fun k => map (value_or_none k) done) Hkeys
               ltac:(intros; apply length_map) fw [] Hnd Hin).
    cbn [bind app].
    rewrite (@frame_of_ext _ keys _
               (fun k => map (value_or_none k) (done ++ [fw])
                           ++ repeat VNone (length todo))).
    + replace (S (length done)) with (length (done ++ [fw]))
        by (rewrite length_app; simpl; lia).
      rewrite IH by assumption. now rewrite <- app_assoc.
    + intros k _. now rewrite map_app, <- app_assoc.
Qed.

Lemma all_or_first_failure {X Y : Type} (f : X -> outcome Y) (l : list X) :
  (exists ys, Forall2 (fun x y => f x = Ok y) l ys) \/
  (exists pre x post ys e,
      l = pre ++ x :: post /\ Forall2 (fun x y => f x = Ok y) pre ys /\ f x = Raise e).
Proof.
  induction l as [|x l IH].
  - left. exists []. constructor.
  - destruct (f x) as [y|e] eqn:E.
    + destruct IH as [(ys & H)|(pre & x' & post & ys & e & -> & H & He)].
      * left. exists (y :: ys). now constructor.
      * right. exists (x :: pre), x', post, (y :: ys), e.
        repeat split; [now constructor | exact He].
    + right. exists [], x, l, [], e. repeat split; [constructor | exact E].
Qed.

Section FrameBuilderFacts.

Variables (include_attr : bool) (prefix_attr delimiter : string) (start_idx : Z).

Local Abbreviation flat := (flattened include_attr prefix_attr delimiter start_idx).
Local Abbreviation flattens :=
  (Forall2 (fun obj fw =>
              obj_dict include_attr prefix_attr delimiter start_idx obj = Ok fw)).

Lemma flatten_all_acc plural_obj flats :
  flattens plural_obj flats ->
  forall frame_list existing_keys,
    for_each
      (fun (st : list (dict value) * list string) obj =>
         flatten_witsml <- obj_dict include_attr prefix_attr delimiter start_idx obj ;;
         Ok (fst st ++ [flatten_witsml], extend_keys (snd st) flatten_witsml))
      plural_obj (frame_list, existing_keys)
    = Ok (frame_list ++ flats, fold_left extend_keys flats existing_keys).
Proof.
  induction 1 as [|obj fw plural_obj flats Hfw _ IH]; intros fl ek; simpl.
  - now rewrite app_nil_r.
  - rewrite Hfw. simpl. rewrite IH, <- app_assoc. reflexivity.
Qed.

(** The first loop stops at the first member that [obj_dict] fails on. *)
Lemma flatten_all_raises pre obj post flats e :
  flattens pre flats ->
  obj_dict include_attr prefix_attr delimiter start_idx obj = Raise e ->
  flatten_all include_attr prefix_attr delimiter start_idx (pre ++ obj :: post) = Raise e.
Proof.
  intros Hpre He. unfold flatten_all. rewrite for_each_app.
  rewrite (flatten_all_acc Hpre). cbn [bind for_each]. now rewrite He.
Qed.

Lemma flattens_NoDup plural_obj flats :
  flattens plural_obj flats -> Forall (fun fw => NoDup (dict_keys fw)) flats.
Proof.
  induction 1 as [|obj fw plural_obj flats Hfw _ IH]; constructor; [|exact IH].
  exact (obj_dict_NoDup _ _ _ _ _ Hfw).
Qed.

Lemma flattens_flat plural_obj :
  (forall obj, In obj plural_obj -> failure obj = None) ->
  flattens plural_obj (map flat plural_obj).
Proof.
  induction plural_obj as [|obj l IH]; intros H; simpl; constructor.
  - apply obj_dict_returns. apply H. now left.
  - apply IH. intros o Ho. apply H. now right.
Qed.

(** The frame of the fill-missing branch, for members that flatten. *)
Lemma plural_dict_fill plural_obj flats :
  flattens plural_obj flats ->
  plural_dict plural_obj include_attr true prefix_attr delimiter start_idx
  = Ok (frame_of (first_seen (concat (map (@dict_keys value) flats)))
                 (fun k => map (value_or_none k) flats)).
Proof.
  intros Hfl. set (keys := first_seen (concat (map (@dict_keys value) flats))).
  unfold plural_dict, plural_dict_with, flatten_all.
  rewrite (flatten_all_acc Hfl). cbn [bind app].
  pose proof (flattens_NoDup Hfl) as Hflats.
  rewrite extend_keys_fold by exact Hflats. fold (first_seen (concat (map (@dict_keys value) flats))).
  fold keys.
  assert (Hkeys : NoDup keys) by apply first_seen_NoDup.
  rewrite dict_comp_NoDup.
  2:{ rewrite map_map. simpl. now rewrite map_id. }
  rewrite (Forall2_length Hfl).
  apply (@fill_frames keys Hkeys flats []).
  apply Forall_forall. intros fw Hfw. split.
  - rewrite Forall_forall in Hflats. now apply Hflats.
  - intros k Hk. apply first_seen_In. apply in_concat.
    exists (dict_keys fw). split; [now apply in_map | exact Hk].
Qed.

(** A member that [obj_dict] fails on: [plural_dict] raises what
    [obj_dict] raised on the first such member, whatever [fill_missing]. *)
Lemma plural_dict_member_raises pre obj post flats e fill_missing :
  flattens pre flats ->
  obj_dict include_attr prefix_attr delimiter start_idx obj = Raise e ->
  plural_dict (pre ++ obj :: post) include_attr fill_missing prefix_attr delimiter start_idx
  = Raise e.
Proof.
  intros Hpre He. unfold plural_dict, plural_dict_with.
  now rewrite (@flatten_all_raises pre obj post flats e Hpre He).
Qed.

End FrameBuilderFacts.

(** C1: for a collection of N members that [obj_dict] flattens,
    [plural_dict] with [fill_missing] returns a frame whose keys are the
    union, in first-seen order, of the keys of the flattened members, and
    the list of each key has length N, with the value of member i at
    position i and [None] there when member i has no such key. *)
Theorem plural_dict_fill_missing :
  forall (plural_obj : list node) (include_attr : bool)
         (prefix_attr delimiter : string) (start_idx : Z)
         (flats : list (dict value)),
    Forall2 (fun obj fw =>
               obj_dict include_attr prefix_attr delimiter start_idx obj = Ok fw)
            plural_obj flats ->
    exists frame_dict : dict (list value),
      plural_dict plural_obj include_attr true prefix_attr delimiter start_idx
      = Ok frame_dict /\
      dict_keys frame_dict = first_seen (concat (map (@dict_keys value) flats)) /\
      forall key, In key (dict_keys frame_dict) ->
        exists col,
          dict_get key frame_dict = Some col /\
          length col = length plural_obj /\
          forall i fw, nth_error flats i = Some fw ->
                       nth_error col i = Some (value_or_none key fw).
Proof.
  intros plural_obj ia pa d s flats Hfl.
  exists (frame_of (first_seen (concat (map (@dict_keys value) flats)))
                   (fun k => map (value_or_none k) flats)).
  split; [now apply plural_dict_fill|split].
  - apply dict_keys_frame_of.
  - intros key Hkey. rewrite dict_keys_frame_of in Hkey.
    eexists. split; [now apply dict_get_frame_of|]. split.
    + rewrite length_map. symmetry. exact (Forall2_length Hfl).
    + intros i fw Hi. now rewrite nth_error_map, Hi.
Qed.

Lemma plural_dict_fill_missing_witness :
  exists frame_dict : dict (list value),
    plural_dict flat_collection false true "" "." 0 = Ok frame_dict /\
    dict_keys frame_dict = ["b"; "a"; "c"] /\
    forall key, In key (dict_keys frame_dict) ->
      exists col,
        dict_get key frame_dict = Some col /\
        length col = 2 /\
        forall i fw,
          nth_error [[("b", VInt 2); ("a", VInt 1)]; [("c", VInt 4); ("a", VInt 3)]] i
          = Some fw ->
          nth_error col i = Some (value_or_none key fw).
Proof.
  apply (@plural_dict_fill_missing flat_collection false "" "." 0
           [[("b", VInt 2); ("a", VInt 1)]; [("c", VInt 4); ("a", VInt 3)]]).
  repeat constructor.
Defined.


(** ** The Nested-to-Plain Converter *)

Lemma list_comp_map {X Y Z : Type} (f : X -> outcome Y) (g : Z -> X) (l : list Z) :
  list_comp f (map g l) = list_comp (fun z => f (g z)) l.
Proof.
  unfold list_comp.
  assert (H : forall acc,
             for_each (fun acc x => y <- f x ;; Ok (acc ++ [y])) (map g l) acc
             = for_each (fun acc z => y <- f (g z) ;; Ok (acc ++ [y])) l acc).
  { induction l as [|z l IH]; intros acc; simpl; [reflexivity|].
    destruct (f (g z)); simpl; [apply IH | reflexivity]. }
  apply H.
Qed.

Lemma dict_fromkeys_map {X Y : Type} (h : X -> Y) (named : list (string * X)) :
  dict_fromkeys (map (fun kv : string * X => (fst kv, h (snd kv))) named)
  = map (fun kv : string * X => (fst kv, h (snd kv))) (dict_fromkeys named).
Proof.
  unfold dict_fromkeys.
  assert (H : forall acc,
             fold_left (fun acc (kv : string * Y) =>
                          if dict_mem (fst kv) acc then acc else acc ++ [kv])
                       (map (fun kv : string * X => (fst kv, h (snd kv))) named)
                       (map (fun kv : string * X => (fst kv, h (snd kv))) acc)
             = map (fun kv : string * X => (fst kv, h (snd kv)))
                   (fold_left (fun acc (kv : string * X) =>
                                 if dict_mem (fst kv) acc then acc else acc ++ [kv])
                              named acc)).
  { induction named as [|[k x] named IH]; intros acc; [reflexivity|].
    cbn [map fold_left fst snd].
    replace (dict_mem k (map (fun kv : string * X => (fst kv, h (snd kv))) acc))
      with (dict_mem k acc).
    - destruct (dict_mem k acc); [apply IH|].
      rewrite <- IH, map_app. reflexivity.
    - rewrite !dict_mem_keys. unfold dict_keys. now rewrite map_map. }
  exact (H []).
Qed.

Lemma for_each_map {S X Y : Type} (body : S -> Y -> outcome S) (h : X -> Y) (l : list X) :
  forall st, for_each body (map h l) st = for_each (fun st x => body st (h x)) l st.
Proof.
  induction l as [|x l IH]; intros st; [reflexivity|].
  cbn [map for_each]. destruct (body st (h x)); [apply IH | reflexivity].
Qed.

Lemma named_with_app {X : Type} (convert : node -> X)
      (c1 c2 : list (option (string * node))) :
  named_with convert (c1 ++ c2) = named_with convert c1 ++ named_with convert c2.
Proof.
  unfold named_with. induction c1 as [|[[id n]|] c1 IH]; simpl;
    [reflexivity | now rewrite IH | exact IH].
Qed.

(** The structured branch of [singular_to_plain] uses a child through its
    name, its attributes and its conversion. *)
Lemma singular_to_plain_view include_attr prefix_attr delimiter attrs
      (l l' : dict (node * outcome plain)) :
  map (fun kv : string * (node * outcome plain) =>
         (fst kv, (attribute_map (fst (snd kv)), snd (snd kv)))) l
  = map (fun kv : string * (node * outcome plain) =>
           (fst kv, (attribute_map (fst (snd kv)), snd (snd kv)))) l' ->
  singular_to_plain include_attr prefix_attr delimiter attrs l
  = singular_to_plain include_attr prefix_attr delimiter attrs l'.
Proof.
  intros H. unfold singular_to_plain.
  match goal with
  | |- bind (for_each ?body _ _) _ = _ =>
      assert (Hloop : forall st, for_each body l st = for_each body l' st)
  end; [|now rewrite Hloop].
  revert l' H. induction l as [|[k [n x]] l IH]; intros [|[k' [n' x']] l'] H st;
    try discriminate; [reflexivity|].
  cbn [map fst snd] in H. injection H as -> Hattrs -> H.
  cbn [for_each]. rewrite Hattrs. destruct x' as [y|e]; cbn [bind]; [|reflexivity].
  now apply IH.
Qed.

(** What [to_plain] returns for an object depends on what stands at a
    place of it through the attributes and the conversion of that object
    only. *)
Lemma plug_congruence P include_attr prefix_attr delimiter transpose (p : place) :
  forall obj obj',
    attribute_map obj = attribute_map obj' ->
    any_to_plain P include_attr prefix_attr delimiter transpose obj
    = any_to_plain P include_attr prefix_attr delimiter transpose obj' ->
    attribute_map (plug p obj) = attribute_map (plug p obj') /\
    any_to_plain P include_attr prefix_attr delimiter transpose (plug p obj)
    = any_to_plain P include_attr prefix_attr delimiter transpose (plug p obj').
Proof.
  induction p as [|attrs before id inner IH after|before inner IH after];
    intros obj obj' Hattrs Hconv; cbn [plug].
  - now split.
  - destruct (IH obj obj' Hattrs Hconv) as [Ha Hc].
    split; [reflexivity|]. cbn [any_to_plain]. apply singular_to_plain_view.
    rewrite <- !(dict_fromkeys_map
                   (fun nx : node * outcome plain => (attribute_map (fst nx), snd nx))).
    f_equal. rewrite !named_with_app, !map_app. f_equal.
    cbn [named_with map fst snd]. now rewrite Ha, Hc.
  - destruct (IH obj obj' Hattrs Hconv) as [_ Hc].
    split; [reflexivity|]. cbn [any_to_plain]. rewrite !map_app. cbn [map].
    now rewrite Hc.
Qed.

(** C9: an object of class [obj_log] met by [to_plain] is converted by
    [logdata_dict(obj)], that is with [fill_missing=True], whatever
    [include_attr], [prefix_attr], [delimiter] and [transpose] are: at the
    top the result is that frame ([log_plain]), and at any place below
    (child of a structured object or member of a collection, at any depth)
    the result is the one [to_plain] gives with any object of the same
    attributes in its stead whose own conversion is that frame.  So the
    content of the log object and the options have no part in its decoded
    data, in which missing values are [None]. *)
Theorem to_plain_log :
  forall (P : prim_casts) (include_attr : bool) (prefix_attr delimiter : string)
         (transpose : bool),
    (forall log attrs content,
        to_plain P (Complex (Some log) attrs content)
                 include_attr prefix_attr delimiter transpose
        = log_plain P log)
    /\ (forall (p : place) log attrs content (obj' : node),
           attribute_map obj' = attrs ->
           to_plain P obj' include_attr prefix_attr delimiter transpose = log_plain P log ->
           to_plain P (plug p (Complex (Some log) attrs content))
                    include_attr prefix_attr delimiter transpose
           = to_plain P (plug p obj') include_attr prefix_attr delimiter transpose).
Proof.
  intros P ia pa d tr. split; [reflexivity|].
  intros p log attrs content obj' Hattrs Hconv. unfold to_plain in *.
  apply plug_congruence.
  - now rewrite Hattrs.
  - now rewrite Hconv.
Qed.

Lemma to_plain_log_witness :
  to_plain decimal_casts
           (plug (Member [] (Child [] [Some ("name", Leaf (VStr "W"))] "log" Here []) [])
                 dept_gr_node)
           true "@" "." false
  = to_plain decimal_casts
             (plug (Member [] (Child [] [Some ("name", Leaf (VStr "W"))] "log" Here []) [])
                   dept_gr_columns)
             true "@" "." false.
Proof.
  apply (proj2 (@to_plain_log decimal_casts true "@" "." false)
               (Member [] (Child [] [Some ("name", Leaf (VStr "W"))] "log" Here []) [])
               dept_gr_log [] [Some ("name", Leaf (VStr "run 1"))]
               dept_gr_columns).
  - reflexivity.
  - vm_compute. reflexivity.
Defined.

(** ** A collection that stands at several items of the content *)

Lemma dict_ext {V : Type} (a : dict V) : forall b : dict V,
  dict_keys a = dict_keys b -> NoDup (dict_keys a) ->
  (forall key, dict_get key a = dict_get key b) -> a = b.
Proof.
  induction a as [|[k v] a IH]; intros [|[k' v'] b]; simpl; try discriminate; [reflexivity|].
  intros [= <- Hk] Hnd Hget. inversion Hnd as [|? ? Hfresh Hnd']; subst.
  pose proof (Hget k) as Hv. rewrite String.eqb_refl in Hv. injection Hv as <-.
  f_equal. apply IH; [exact Hk | exact Hnd' |].
  intros key. specialize (Hget key).
  destruct (String.eqb key k) eqn:E; [|exact Hget].
  apply String.eqb_eq in E. subst key.
  assert (Ha : dict_get k a = None) by now apply dict_get_None.
  assert (Hb : dict_get k b = None).
  { apply dict_get_None. unfold dict_keys in *. now rewrite <- Hk. }
  congruence.
Qed.

Lemma seen_again (keys : list string) : forall acc,
  (forall k, In k keys -> In k acc) ->
  fold_left (fun acc k => if mem_string k acc then acc else acc ++ [k]) keys acc = acc.
Proof.
  induction keys as [|k keys IH]; intros acc H; simpl; [reflexivity|].
  replace (mem_string k acc) with true
    by (symmetry; apply mem_string_In; apply H; now left).
  apply IH. intros k' Hk'. apply H. now right.
Qed.

Lemma last_value_In {V : Type} key (pairs : list (string * V)) :
  In key (dict_keys pairs) -> exists v, last_value key pairs = Some v.
Proof.
  intros H. apply in_map_iff in H. destruct H as ([k v] & <- & Hin).
  unfold last_value. cbn [fst].
  destruct (find (fun kv => String.eqb k (fst kv)) (rev pairs)) as [[k' v']|] eqn:Ef.
  - eexists. reflexivity.
  - apply in_rev in Hin. eapply find_none in Ef; [|exact Hin].
    simpl in Ef. now rewrite String.eqb_refl in Ef.
Qed.

(** Making the assignments of a list once more changes nothing. *)
Lemma dict_update_again {V : Type} (d : dict V) (pairs : list (string * V)) :
  NoDup (dict_keys d) ->
  dict_update (dict_update d pairs) pairs = dict_update d pairs.
Proof.
  intros Hnd. apply dict_ext.
  - rewrite dict_keys_update. apply seen_again. intros k Hk.
    destruct (last_value_In _ _ Hk) as [v Hv].
    apply dict_get_Some_key with (v := v). now rewrite dict_get_update, Hv.
  - now apply NoDup_keys_update, NoDup_keys_update.
  - intros key. rewrite !dict_get_update. now destruct (last_value key pairs).
Qed.

Lemma content_entries_app delimiter rec base_name (c1 c2 : list (option (string * node))) :
  content_entries delimiter rec base_name (c1 ++ c2)
  = content_entries delimiter rec base_name c2 ++ content_entries delimiter rec base_name c1.
Proof.
  unfold content_entries.
  induction c1 as [|[[id n]|] c1 IH]; simpl; [now rewrite app_nil_r | | exact IH].
  now rewrite IH, app_assoc.
Qed.

Lemma content_failure_app rec (c1 c2 : list (option (string * node))) :
  content_failure rec (c1 ++ c2)
  = match content_failure rec c2 with
    | Some e => Some e
    | None => content_failure rec c1
    end.
Proof.
  unfold content_failure.
  induction c1 as [|[[id n]|] c1 IH]; simpl.
  - now destruct ((fix go (c : list (option (string * node))) : option exn :=
                     match c with
                     | [] => None
                     | None :: c' => go c'
                     | Some (_, next_obj) :: c' =>
                         match go c' with Some e => Some e | None => rec next_obj end
                     end) c2).
  - rewrite IH.
    now destruct ((fix go (c : list (option (string * node))) : option exn :=
                     match c with
                     | [] => None
                     | None :: c' => go c'
                     | Some (_, next_obj) :: c' =>
                         match go c' with Some e => Some e | None => rec next_obj end
                     end) c2).
  - exact IH.
Qed.

(** A collection that stands at two items in a row is expanded twice, and
    the result is that of the object in which it stands once. *)
Lemma obj_dict_adjacent_repeat include_attr prefix_attr delimiter start_idx
      as_log attrs before c after :
  obj_dict include_attr prefix_attr delimiter start_idx
           (Complex as_log attrs (before ++ Some c :: Some c :: after))
  = obj_dict include_attr prefix_attr delimiter start_idx
             (Complex as_log attrs (before ++ Some c :: after)).
Proof.
  rewrite !obj_dict_outcome. cbn [failure]. destruct c as [id n].
  replace (content_failure failure (before ++ Some (id, n) :: Some (id, n) :: after))
    with (content_failure failure (before ++ Some (id, n) :: after)).
  2:{ rewrite !content_failure_app.
      change (content_failure failure (Some (id, n) :: Some (id, n) :: after))
        with (match content_failure failure (Some (id, n) :: after) with
              | Some e => Some e
              | None => failure n
              end).
      change (content_failure failure (Some (id, n) :: after))
        with (match content_failure failure after with
              | Some e => Some e
              | None => failure n
              end).
      destruct (content_failure failure after); [reflexivity|].
      now destruct (failure n). }
  destruct (content_failure failure (before ++ Some (id, n) :: after)); [reflexivity|].
  f_equal. unfold dict_comp. cbn [entries].
  rewrite !content_entries_app.
  change (content_entries delimiter (entries include_attr prefix_attr delimiter start_idx) ""
            (Some (id, n) :: Some (id, n) :: after))
    with ((content_entries delimiter (entries include_attr prefix_attr delimiter start_idx) ""
             after
           ++ entries include_attr prefix_attr delimiter start_idx
                (join_path delimiter "" id) n)
          ++ entries include_attr prefix_attr delimiter start_idx
               (join_path delimiter "" id) n).
  change (content_entries delimiter (entries include_attr prefix_attr delimiter start_idx) ""
            (Some (id, n) :: after))
    with (content_entries delimiter (entries include_attr prefix_attr delimiter start_idx) ""
            after
          ++ entries include_attr prefix_attr delimiter start_idx
               (join_path delimiter "" id) n).
  rewrite !app_assoc, !dict_update_app.
  rewrite dict_update_again; [reflexivity|].
  repeat apply NoDup_keys_update. constructor.
Qed.

(** C6: [obj_dict] does not process a repeated collection once.  With the
    collection [station] before and after [name] in the ordered content, it
    is expanded at each of its places ([weight] counts 8 iterations of the
    loop, against 5 when it stands once, and 7 do not suffice), and the keys
    come in the order of its last place, not in that of the object where
    the collection stands once at its first place.  [to_plain] on the same
    object takes the collection once, at its first place. *)
Theorem obj_dict_repeated_collection :
  obj_dict false "" "." 0 interleaved
  = Ok [("station[1]", VInt 2); ("station[0]", VInt 1); ("name", VStr "T1")]
  /\ obj_dict false "" "." 0 collected_once
     = Ok [("name", VStr "T1"); ("station[1]", VInt 2); ("station[0]", VInt 1)]
  /\ obj_dict false "" "." 0 interleaved <> obj_dict false "" "." 0 collected_once
  /\ weight interleaved = 8 /\ weight collected_once = 5
  /\ obj_dict_loop false "" "." 0 7 [("", interleaved)] [] = Raise out_of_fuel
  /\ to_plain decimal_casts interleaved false "" "." false
     = Ok (PDict [("station", PList [PVal (VInt 1); PVal (VInt 2)]); ("name", PVal (VStr "T1"))])
  /\ to_plain decimal_casts interleaved false "" "." false
     = to_plain decimal_casts collected_once false "" "." false.
Proof. repeat split; try reflexivity. discriminate. Qed.


(** ** Keys of a flattened object *)

Lemma string_app_assoc (a b c : string) : ((a ++ b) ++ c = a ++ (b ++ c))%string.
Proof. induction a as [|x a IH]; simpl; [reflexivity | now rewrite IH]. Qed.

Lemma string_app_nil_r (a : string) : (a ++ "")%string = a.
Proof. induction a as [|x a IH]; simpl; [reflexivity | now rewrite IH]. Qed.

Lemma string_app_not_empty (a b : string) : a <> "" -> (a ++ b)%string <> "".
Proof. destruct a; simpl; [congruence | discriminate]. Qed.

Lemma has_char_app ch (a b : string) :
  has_char ch (a ++ b)%string = has_char ch a || has_char ch b.
Proof.
  induction a as [|x a IH]; simpl; [reflexivity|]. now rewrite IH, orb_assoc.
Qed.

(** A string splits in one way at the first place of a character. *)
Lemma first_char_split ch (a a' r r' : string) :
  has_char ch a = false -> has_char ch a' = false ->
  (a ++ String ch r = a' ++ String ch r')%string -> a = a' /\ r = r'.
Proof.
  revert a'. induction a as [|x a IH]; intros [|x' a']; simpl.
  - intros _ _ [= ->]. auto.
  - intros _ H [= <- _]. now rewrite Ascii.eqb_refl in H.
  - intros H _ [= -> _]. now rewrite Ascii.eqb_refl in H.
  - intros H H' [= <- E]. apply orb_false_iff in H, H'.
    destruct (IH a' (proj2 H) (proj2 H') E) as [-> ->]. auto.
Qed.

Lemma in_list_sum {X : Type} (f : X -> nat) (x : X) (l : list X) :
  In x l -> f x <= list_sum (map f l).
Proof.
  induction l as [|y l IH]; simpl; [tauto|]. intros [->|H]; [lia|].
  specialize (IH H). lia.
Qed.

(** Induction on an object, with the property at hand for what it holds. *)
Lemma node_induction (Q : node -> Prop) :
  (forall v, Q (Leaf v)) ->
  (forall attrs v, Q (Simple attrs v)) ->
  (forall as_log attrs content,
      (forall id next_obj, In (Some (id, next_obj)) content -> Q next_obj) ->
      Q (Complex as_log attrs content)) ->
  (forall items, (forall item, In item items -> Q item) -> Q (Plural items)) ->
  (forall attrs, Q (Empty attrs)) ->
  (forall attrs, Q (Mixed attrs)) ->
  forall obj, Q obj.
Proof.
  intros HL HS HC HP HE HM.
  assert (H : forall w obj, weight obj <= w -> Q obj).
  { induction w as [|w IH]; intros obj Hw; [pose proof (weight_pos obj); lia|].
    destruct obj as [v|attrs v|as_log attrs content|items|attrs|attrs]; auto.
    - apply HC. intros id n Hin. apply IH. simpl in Hw.
      pose proof (in_list_sum
                    (fun cont : option (string * node) =>
                       match cont with Some (_, next_obj) => weight next_obj | None => 0 end)
                    _ _ Hin) as Hle.
      simpl in Hle. lia.
    - apply HP. intros n Hin. apply IH. simpl in Hw.
      pose proof (in_list_sum weight _ _ Hin). lia. }
  intros obj. now apply (H (weight obj)).
Qed.

Lemma In_content_entries delimiter rec base_name content e :
  In e (content_entries delimiter rec base_name content) <->
  exists id next_obj,
    In (Some (id, next_obj)) content /\ In e (rec (join_path delimiter base_name id) next_obj).
Proof.
  unfold content_entries.
  induction content as [|[[id n]|] content IH]; simpl.
  - split; [tauto | intros (? & ? & [] & _)].
  - rewrite in_app_iff, IH. split.
    + intros [(id' & n' & Hin & He)|He]; [exists id', n' | exists id, n]; auto.
    + intros (id' & n' & [[= <- <-]|Hin] & He); [now right | left; eauto].
  - rewrite IH. split.
    + intros (id' & n' & Hin & He). eauto.
    + intros (id' & n' & [Hd|Hin] & He); [discriminate | eauto].
Qed.

Lemma In_items_entries start_idx rec base_name items e : forall k,
  In e (items_entries start_idx rec base_name items k) ->
  exists i item, In item items /\ In e (rec (item_path start_idx base_name i) item).
Proof.
  unfold items_entries.
  induction items as [|item items IH]; intros k; simpl; [tauto|].
  rewrite in_app_iff. intros [H|H].
  - destruct (IH _ H) as (i & n & Hin & He). eauto.
  - eauto.
Qed.

Lemma In_attr_entries include_attr prefix_attr delimiter base_name attrs e :
  In e (attr_entries include_attr prefix_attr delimiter base_name attrs) <->
  include_attr = true /\
  exists a, In a attrs /\
            e = (join_path delimiter base_name (prefix_attr ++ fst a)%string, snd a).
Proof.
  unfold attr_entries. destruct include_attr; simpl.
  - rewrite in_map_iff. split.
    + intros (a & <- & Ha). eauto.
    + intros (_ & a & Ha & ->). eauto.
  - split; [tauto | intros [? _]; discriminate].
Qed.

Lemma join_path_cases delimiter base_name name :
  base_name <> "" ->
  join_path delimiter base_name name = base_name \/
  join_path delimiter base_name name = (base_name ++ delimiter ++ name)%string.
Proof.
  destruct base_name as [|c b]; [congruence|]. destruct name; simpl; auto.
Qed.

(** Below a base name that is not empty, every key is the base name, or the
    base name followed by the delimiter or by an index. *)
Lemma entries_prefix include_attr prefix_attr start_idx obj :
  forall base_name key v,
    base_name <> "" ->
    In (key, v) (entries include_attr prefix_attr "." start_idx base_name obj) ->
    exists rest,
      key = (base_name ++ rest)%string /\
      (rest = "" \/ exists r, rest = String "."%char r \/ rest = String "["%char r).
Proof.
  assert (Hattr : forall b attrs key v,
             b <> "" ->
             In (key, v) (attr_entries include_attr prefix_attr "." b attrs) ->
             exists rest,
               key = (b ++ rest)%string /\
               (rest = "" \/ exists r, rest = String "."%char r \/ rest = String "["%char r)).
  { intros b attrs key v Hb H.
    apply In_attr_entries in H. destruct H as (_ & a & _ & [= -> _]).
    destruct (join_path_cases "." (prefix_attr ++ fst a) Hb) as [->| ->].
    - exists "". split; [now rewrite string_app_nil_r | now left].
    - eexists. split; [reflexivity|]. right. simpl. eauto. }
  induction obj as [v0|attrs v0|as_log attrs content IH|items IH|attrs|attrs]
    using node_induction;
    intros b key v Hb Hin; cbn [entries] in Hin;
    [| | | |exact (Hattr b attrs key v Hb Hin)|exact (Hattr b attrs key v Hb Hin)].
  - destruct Hin as [[= <- _]|[]]. exists "". split; [|now left].
    clear. induction b; simpl; congruence.
  - apply in_app_iff in Hin. destruct Hin as [H|[[= <- _]|[]]].
    + apply In_attr_entries in H. destruct H as (_ & a & _ & [= -> _]).
      destruct (join_path_cases "." (prefix_attr ++ fst a) Hb) as [->| ->].
      * exists "". split; [now rewrite string_app_nil_r | now left].
      * eexists. split; [reflexivity|]. right. simpl. eauto.
    + exists "". split; [now rewrite string_app_nil_r | now left].
  - apply in_app_iff in Hin. destruct Hin as [H|H].
    + apply In_attr_entries in H. destruct H as (_ & a & _ & [= -> _]).
      destruct (join_path_cases "." (prefix_attr ++ fst a) Hb) as [->| ->].
      * exists "". split; [now rewrite string_app_nil_r | now left].
      * eexists. split; [reflexivity|]. right. simpl. eauto.
    + apply In_content_entries in H. destruct H as (id & n & Hc & He).
      destruct (join_path_cases "." id Hb) as [E|E]; rewrite E in He.
      * exact (IH id n Hc b key v Hb He).
      * destruct (IH id n Hc _ key v (string_app_not_empty _ Hb) He)
          as (rest & -> & _).
        exists ("." ++ id ++ rest)%string. split.
        -- now rewrite !string_app_assoc.
        -- right. simpl. eauto.
  - apply In_items_entries in Hin. destruct Hin as (i & n & Hn & He).
    unfold item_path in He.
    destruct (IH n Hn _ key v (string_app_not_empty _ Hb) He) as (rest & -> & _).
    eexists. split; [rewrite !string_app_assoc; reflexivity|]. right. simpl. eauto.
Qed.

Lemma last_value_unique {V : Type} key (u : V) (pairs : list (string * V)) :
  In (key, u) pairs ->
  (forall v, In (key, v) pairs -> v = u) ->
  last_value key pairs = Some u.
Proof.
  intros Hin Huniq. unfold last_value.
  destruct (find (fun kv => String.eqb key (fst kv)) (rev pairs)) as [[k v]|] eqn:Ef.
  - apply find_some in Ef. destruct Ef as [Hr E]. simpl in E.
    apply String.eqb_eq in E. subst k. apply in_rev in Hr. simpl.
    now rewrite (Huniq v Hr).
  - apply in_rev in Hin. eapply find_none in Ef; [|exact Hin].
    simpl in Ef. now rewrite String.eqb_refl in Ef.
Qed.

(** Where the keys of a structured object with a leaf child [well] come
    from, attributes included, with prefix [@] and delimiter [.]. *)
Lemma entries_of_parent start_idx as_log attrs content wattrs v key val :
  (forall next_obj, In (Some ("well", next_obj)) content -> next_obj = Simple wattrs v) ->
  (forall id next_obj, In (Some (id, next_obj)) content ->
                       id <> "" /\ has_char "." id = false) ->
  In (key, val) (entries true "@" "." start_idx "" (Complex as_log attrs content)) ->
  (exists a, key = String "@" a)
  \/ (key = "well" /\ val = v)
  \/ (exists a, In a wattrs /\ key = ("well.@" ++ fst a)%string /\ val = snd a)
  \/ (exists id rest,
         id <> "well" /\ has_char "." id = false /\ key = (id ++ rest)%string /\
         (rest = "" \/ exists r, rest = String "."%char r \/ rest = String "["%char r)).
Proof.
  intros Hsame Hids Hin. cbn [entries] in Hin. apply in_app_iff in Hin.
  destruct Hin as [H|H].
  - apply In_attr_entries in H. destruct H as (_ & a & _ & [= -> _]).
    left. simpl. eauto.
  - apply In_content_entries in H. destruct H as (id & n & Hc & He).
    destruct (Hids id n Hc) as [Hne Hdot].
    replace (join_path "." "" id) with id in He by (now destruct id).
    destruct (string_dec id "well") as [->|Hid].
    + rewrite (Hsame n Hc) in He. cbn [entries] in He. apply in_app_iff in He.
      destruct He as [H|[[= <- <-]|[]]]; [|now right; left].
      apply In_attr_entries in H. destruct H as (_ & a & Ha & [= -> ->]).
      right; right; left. exists a. repeat split; auto.
    + apply entries_prefix in He; [|exact Hne]. destruct He as (rest & -> & Hrest).
      right; right; right. exists id, rest. auto.
Qed.

(** C7: with attributes included, prefix [@] (and the delimiter [.]), in
    every result of [obj_dict] on an object with a child element [well]
    that has simple content, the attribute [uid] of the child is under the
    key [well.@uid], the value of the child is under the key [well], and
    the two keys differ; and [obj_dict] does return a result when the
    object holds no object without a value ([failure]).  The names of the
    elements are identifiers, so without [.], and the items of one element
    in the ordered content hold the one object of that element. *)
Theorem obj_dict_attribute_key :
  forall (as_log : option obj_log) (attrs : list (string * value))
         (content : list (option (string * node)))
         (wattrs : list (string * value)) (v u : value) (start_idx : Z),
    In (Some ("well", Simple wattrs v)) content ->
    (forall next_obj, In (Some ("well", next_obj)) content -> next_obj = Simple wattrs v) ->
    (forall id next_obj, In (Some (id, next_obj)) content ->
                         id <> "" /\ has_char "." id = false) ->
    In ("uid", u) wattrs ->
    (forall u', In ("uid", u') wattrs -> u' = u) ->
    (forall flatten_witsml,
        obj_dict true "@" "." start_idx (Complex as_log attrs content) = Ok flatten_witsml ->
        dict_get "well.@uid" flatten_witsml = Some u /\
        dict_get "well" flatten_witsml = Some v /\
        "well.@uid" <> "well") /\
    (failure (Complex as_log attrs content) = None ->
     exists flatten_witsml,
       obj_dict true "@" "." start_idx (Complex as_log attrs content) = Ok flatten_witsml).
Proof.
  intros as_log attrs content wattrs v u s Hwell Hsame Hids Huid Huniq.
  split; [|intros Hnone; eexists; now apply obj_dict_returns].
  intros flatten_witsml Hfw. apply obj_dict_Ok in Hfw. destruct Hfw as [_ ->].
  unfold dict_comp. rewrite !dict_get_update.
  assert (Hchild : forall e, In e (entries true "@" "." s "well" (Simple wattrs v)) ->
                             In e (entries true "@" "." s "" (Complex as_log attrs content))).
  { intros e He. cbn [entries]. apply in_app_iff. right. apply In_content_entries.
    exists "well", (Simple wattrs v). split; [exact Hwell | exact He]. }
  split; [|split; [|discriminate]].
  - rewrite (@last_value_unique _ "well.@uid" u); [reflexivity| |].
    + apply Hchild. cbn [entries]. apply in_app_iff. left. apply In_attr_entries.
      split; [reflexivity|]. exists ("uid", u). split; [exact Huid | reflexivity].
    + intros val Hin.
      destruct (@entries_of_parent s as_log attrs content wattrs v _ _ Hsame Hids Hin)
        as [(a & E)|[[E _]|[(a & Ha & E & ->)|(id & rest & Hid & Hdot & E & Hrest)]]];
        try discriminate.
      * destruct a as [id val]. simpl in *. injection E as <-. now apply Huniq.
      * destruct Hrest as [->|(r & [->| ->])].
        -- rewrite string_app_nil_r in E. subst id. discriminate.
        -- destruct (@first_char_split "."%char "well" id "@uid" r) as [E' _];
             [reflexivity | exact Hdot | exact E | congruence].
        -- apply (f_equal (has_char "["%char)) in E. rewrite has_char_app in E.
           simpl in E. rewrite orb_true_r in E. discriminate.
  - rewrite (@last_value_unique _ "well" v); [reflexivity| |].
    + apply Hchild. cbn [entries]. apply in_app_iff. right. now left.
    + intros val Hin.
      destruct (@entries_of_parent s as_log attrs content wattrs v _ _ Hsame Hids Hin)
        as [(a & E)|[[_ E]|[(a & Ha & E & ->)|(id & rest & Hid & Hdot & E & Hrest)]]];
        try discriminate; [exact E|].
      destruct Hrest as [->|(r & [->| ->])].
      * rewrite string_app_nil_r in E. congruence.
      * apply (f_equal (has_char "."%char)) in E. rewrite has_char_app in E.
        simpl in E. rewrite orb_true_r in E. discriminate.
      * apply (f_equal (has_char "["%char)) in E. rewrite has_char_app in E.
        simpl in E. rewrite orb_true_r in E. discriminate.
Qed.

Lemma obj_dict_attribute_key_witness :
  exists flatten_witsml,
    obj_dict true "@" "." 0 wellbore = Ok flatten_witsml /\
    dict_get "well.@uid" flatten_witsml = Some (VStr "w1") /\
    dict_get "well" flatten_witsml = Some (VStr "W1") /\
    "well.@uid" <> "well".
Proof.
  destruct (@obj_dict_attribute_key None [("uid", VStr "wb1")]
              [Some ("name", Leaf (VStr "B1"));
               Some ("well", Simple [("uid", VStr "w1")] (VStr "W1"))]
              [("uid", VStr "w1")] (VStr "W1") (VStr "w1") 0) as [Hkeys Hreturns];
    [| | | | |destruct (Hreturns eq_refl) as (flatten_witsml & Hfw);
              exists flatten_witsml; split; [exact Hfw | exact (Hkeys _ Hfw)]].
  - simpl. auto.
  - intros n [H|[H|[]]]; [discriminate | now injection H as <-].
  - intros id n [H|[H|[]]]; injection H as <- _; split; [discriminate | reflexivity
                                                         | discriminate | reflexivity].
  - simpl. auto.
  - intros u' [H|[]]. now injection H as <-.
Defined.


(** ** The column pivot *)

Lemma pivot_loop (ds : list (dict plain)) : forall frames keys,
  for_each pivot_add (map PDict ds)
           {| frame_list := frames; all_keys := keys; foreign_key := false |}
  = Ok {| frame_list := frames ++ map PDict ds;
          all_keys := fold_left (@dict_update plain) ds keys;
          foreign_key := false |}.
Proof.
  induction ds as [|d ds IH]; intros frames keys; simpl.
  - now rewrite app_nil_r.
  - rewrite IH, <- app_assoc. reflexivity.
Qed.

Lemma all_keys_first_seen (ds : list (dict plain)) : forall keys : dict plain,
  dict_keys (fold_left (@dict_update plain) ds keys)
  = fold_left (fun acc k => if mem_string k acc then acc else acc ++ [k])
              (concat (map (@dict_keys plain) ds)) (dict_keys keys).
Proof.
  induction ds as [|d ds IH]; intros keys; simpl; [reflexivity|].
  now rewrite IH, fold_left_app, dict_keys_update.
Qed.

(** The pivot of mappings: the union of their keys in first-seen order,
    and for each key what each mapping holds for it, [None] when it holds
    nothing. *)
Lemma pivot_dicts (ds : list (dict plain)) :
  pivot (map PDict ds)
  = Ok (PDict (frame_of (first_seen (concat (map (@dict_keys plain) ds)))
                        (fun key => PList (map (plain_or_none key) ds)))).
Proof.
  unfold pivot. rewrite pivot_loop. cbn [bind app]. unfold pivot_finish.
  cbn [foreign_key frame_list all_keys]. rewrite all_keys_first_seen.
  fold (first_seen (concat (map (@dict_keys plain) ds))).
  set (keys := first_seen _).
  rewrite (@list_comp_ok _ _ _ keys
             (map (fun key => (key, PList (map (plain_or_none key) ds))) keys)).
  - cbn [bind]. rewrite dict_comp_NoDup; [reflexivity|].
    rewrite map_map. simpl. rewrite map_id. apply first_seen_NoDup.
  - clear. induction keys as [|k keys IH]; constructor; [|exact IH].
    rewrite (@list_comp_ok _ _ _ (map PDict ds) (map (plain_or_none k) ds)); [reflexivity|].
    clear. induction ds as [|d ds IH]; simpl; constructor; [reflexivity | exact IH].
Qed.

(** ** Flat members under [to_plain] and under [obj_dict] *)

Lemma named_with_children {X : Type} (convert : node -> X) content :
  named_with convert content
  = map (fun c : string * node => (fst c, (snd c, convert (snd c)))) (children_of content).
Proof.
  unfold named_with, children_of.
  induction content as [|[[id n]|] content IH]; simpl; [reflexivity | | exact IH].
  now rewrite IH.
Qed.

Lemma dict_fromkeys_acc {X : Type} (named : list (string * X)) : forall acc,
  NoDup (map fst (acc ++ named)) ->
  fold_left (fun acc (kv : string * X) => if dict_mem (fst kv) acc then acc else acc ++ [kv])
            named acc
  = acc ++ named.
Proof.
  induction named as [|[k x] named IH]; intros acc H; simpl.
  - now rewrite app_nil_r.
  - assert (Hk : dict_mem k acc = false).
    { rewrite dict_mem_keys. apply mem_string_false. rewrite map_app in H. simpl in H.
      apply NoDup_remove_2 in H. intros Hin. apply H. apply in_or_app. now left. }
    rewrite Hk, IH; rewrite <- app_assoc; [reflexivity | exact H].
Qed.

Lemma dict_fromkeys_NoDup {X : Type} (named : list (string * X)) :
  NoDup (map fst named) -> dict_fromkeys named = named.
Proof. intros H. unfold dict_fromkeys. now rewrite dict_fromkeys_acc. Qed.

Lemma plain_attrs_update include_attr prefix_attr prefix attrs (as_dict : dict plain) :
  plain_attrs include_attr prefix_attr prefix attrs as_dict
  = dict_update as_dict
      (plain_values (plain_attr_entries include_attr prefix_attr prefix attrs)).
Proof.
  unfold plain_attrs, plain_attr_entries, plain_values. destruct include_attr; [|reflexivity].
  revert as_dict. induction attrs as [|a attrs IH]; intros as_dict; simpl; [reflexivity|].
  apply IH.
Qed.

Lemma plain_values_app (d1 d2 : dict value) :
  plain_values (d1 ++ d2) = plain_values d1 ++ plain_values d2.
Proof. apply map_app. Qed.

(** The loop of [singular_to_plain] over leaf children. *)
Lemma singular_children include_attr prefix_attr delimiter (children : list (string * node)) :
  forall as_dict : dict plain,
    for_each
      (fun as_dict (child : string * (node * outcome plain)) =>
         let '(next_path, (next_obj, converted)) := child in
         let as_dict :=
           plain_attrs include_attr prefix_attr (next_path ++ delimiter)
                       (attribute_map next_obj) as_dict in
         x <- converted ;;
         Ok (dict_set next_path x as_dict))
      (map (fun c : string * node => (fst c, (snd c, Ok (PVal (leaf_value (snd c))))))
           children)
      as_dict
    = Ok (dict_update as_dict
            (plain_values
               (flat_map (plain_child_entries include_attr prefix_attr delimiter) children))).
Proof.
  induction children as [|[id n] children IH]; intros as_dict; [reflexivity|].
  cbn [map for_each fst snd bind flat_map]. rewrite IH, plain_attrs_update.
  unfold plain_child_entries at 2. cbn [fst snd].
  now rewrite !plain_values_app, !dict_update_app.
Qed.

Lemma any_to_plain_leaf P include_attr prefix_attr delimiter transpose obj :
  is_leaf obj = true ->
  any_to_plain P include_attr prefix_attr delimiter transpose obj
  = Ok (PVal (leaf_value obj)).
Proof. destruct obj; try discriminate; reflexivity. Qed.

(** [to_plain] on a flat member whose children have distinct names. *)
Lemma any_to_plain_flat P include_attr prefix_attr delimiter transpose obj :
  flat_member obj = true ->
  (forall as_log attrs content,
      obj = Complex as_log attrs content -> NoDup (map fst (children_of content))) ->
  any_to_plain P include_attr prefix_attr delimiter transpose obj
  = Ok (PDict (dict_comp (plain_values (plain_entries include_attr prefix_attr delimiter obj)))).
Proof.
  destruct obj as [v|attrs v|[log|] attrs content|items|attrs|attrs]; try discriminate.
  intros Hflat Hnames. specialize (Hnames None attrs content eq_refl).
  cbn [any_to_plain flat_member] in *. rewrite named_with_children.
  rewrite dict_fromkeys_NoDup by (now rewrite map_map).
  rewrite (map_ext_in _
             (fun c : string * node => (fst c, (snd c, Ok (PVal (leaf_value (snd c))))))).
  2:{ intros c Hc. rewrite forallb_forall in Hflat. specialize (Hflat c Hc).
      apply andb_true_iff in Hflat. destruct Hflat as [Hflat _].
      apply andb_true_iff in Hflat. destruct Hflat as [_ Hleaf].
      now rewrite any_to_plain_leaf. }
  unfold singular_to_plain. rewrite singular_children, plain_attrs_update. cbn [bind].
  unfold plain_entries, dict_comp. now rewrite plain_values_app, dict_update_app.
Qed.

Lemma content_entries_perm delimiter rec base_name content :
  Permutation
    (content_entries delimiter rec base_name content)
    (flat_map (fun c : string * node => rec (join_path delimiter base_name (fst c)) (snd c))
              (children_of content)).
Proof.
  unfold content_entries, children_of.
  induction content as [|[[id n]|] content IH]; simpl; [constructor | | exact IH].
  eapply Permutation_trans; [apply Permutation_app_comm|].
  now apply Permutation_app_head.
Qed.

Lemma plain_attr_entries_nil include_attr prefix_attr prefix :
  plain_attr_entries include_attr prefix_attr prefix [] = [].
Proof. unfold plain_attr_entries. now destruct include_attr. Qed.

Lemma nonempty_spec s : nonempty s = true <-> s <> "".
Proof. destruct s; simpl; split; congruence. Qed.

(** For a leaf child with names that are not empty, [obj_dict] and
    [to_plain] make the same assignments. *)
Lemma entries_leaf_child include_attr prefix_attr delimiter start_idx (c : string * node) :
  nonempty (fst c) = true -> is_leaf (snd c) = true ->
  forallb (fun a : string * value => nonempty (fst a)) (attribute_map (snd c)) = true ->
  entries include_attr prefix_attr delimiter start_idx (join_path delimiter "" (fst c)) (snd c)
  = plain_child_entries include_attr prefix_attr delimiter c.
Proof.
  destruct c as [id n]. cbn [fst snd]. intros Hid Hleaf Hattrs.
  replace (join_path delimiter "" id) with id by (now destruct id).
  unfold plain_child_entries. cbn [fst snd].
  destruct n as [v|attrs v| | | |]; try discriminate; cbn [entries attribute_map leaf_value].
  - now rewrite plain_attr_entries_nil.
  - f_equal. unfold attr_entries, plain_attr_entries. destruct include_attr; [|reflexivity].
    apply map_ext_in. intros a Ha. f_equal.
    cbn [attribute_map] in Hattrs. rewrite forallb_forall in Hattrs.
    specialize (Hattrs a Ha). apply nonempty_spec in Hid, Hattrs.
    destruct id as [|x id]; [congruence|].
    destruct (prefix_attr ++ fst a)%string eqn:E.
    + destruct prefix_attr; simpl in E; [congruence | discriminate].
    + simpl. now rewrite string_app_assoc.
Qed.

(** The assignments of [obj_dict] for a flat member are those of
    [to_plain], in another order. *)
Lemma entries_flat_perm include_attr prefix_attr delimiter start_idx obj :
  flat_member obj = true ->
  Permutation (entries include_attr prefix_attr delimiter start_idx "" obj)
              (plain_entries include_attr prefix_attr delimiter obj).
Proof.
  destruct obj as [v|attrs v|[log|] attrs content|items|attrs|attrs]; try discriminate.
  cbn [flat_member entries plain_entries]. intros Hflat.
  replace (attr_entries include_attr prefix_attr delimiter "" attrs)
    with (plain_attr_entries include_attr prefix_attr "" attrs).
  2:{ unfold attr_entries, plain_attr_entries. destruct include_attr; reflexivity. }
  apply Permutation_app_head.
  eapply Permutation_trans; [apply content_entries_perm|].
  rewrite forallb_forall in Hflat.
  induction (children_of content) as [|c children IH]; cbn [flat_map]; [constructor|].
  destruct (proj1 (andb_true_iff _ _) (Hflat c (or_introl eq_refl))) as [H Hattrs].
  apply andb_true_iff in H. destruct H as [Hid Hleaf].
  rewrite entries_leaf_child by assumption.
  apply Permutation_app_head. apply IH. intros c' Hc'. apply Hflat. now right.
Qed.

Lemma dict_get_NoDup_In {V : Type} key (v : V) (d : dict V) :
  NoDup (dict_keys d) -> (dict_get key d = Some v <-> In (key, v) d).
Proof.
  intros Hnd. split; [apply dict_get_In|].
  induction d as [|[k w] d IH]; simpl; [tauto|].
  inversion Hnd as [|? ? Hk Hnd']; subst.
  destruct (String.eqb key k) eqn:E.
  - apply String.eqb_eq in E. subst k. intros [[= ->]|H]; [reflexivity|].
    exfalso. apply Hk. now apply (in_map fst) in H.
  - apply String.eqb_neq in E. intros [[= -> _]|H]; [congruence | now apply IH].
Qed.

(** Two lists of entries with the same entries and distinct keys hold the
    same value for each key. *)
Lemma dict_get_perm {V : Type} key (d d' : dict V) :
  NoDup (dict_keys d) -> Permutation d d' -> dict_get key d = dict_get key d'.
Proof.
  intros Hnd Hp.
  assert (Hnd' : NoDup (dict_keys d')).
  { eapply Permutation_NoDup; [|exact Hnd]. now apply Permutation_map. }
  destruct (dict_get key d) as [v|] eqn:E.
  - apply dict_get_NoDup_In in E; [|exact Hnd]. symmetry.
    apply dict_get_NoDup_In; [exact Hnd'|]. eapply Permutation_in; eauto.
  - destruct (dict_get key d') as [v|] eqn:E'; [|reflexivity].
    apply dict_get_NoDup_In in E'; [|exact Hnd'].
    apply Permutation_sym in Hp. pose proof (Permutation_in _ Hp E') as Hin.
    apply dict_get_NoDup_In in Hin; [|exact Hnd]. congruence.
Qed.

Lemma dict_get_plain_values key (d : dict value) :
  dict_get key (plain_values d) = option_map PVal (dict_get key d).
Proof.
  induction d as [|[k v] d IH]; simpl; [reflexivity|].
  now destruct (String.eqb key k).
Qed.

Lemma dict_keys_plain_values (d : dict value) : dict_keys (plain_values d) = dict_keys d.
Proof. unfold dict_keys, plain_values. now rewrite map_map. Qed.

(** The names of the children of a flat member are distinct when the keys
    of its assignments are. *)
Lemma children_NoDup include_attr prefix_attr delimiter (children : list (string * node)) :
  NoDup (map fst (flat_map (plain_child_entries include_attr prefix_attr delimiter) children)) ->
  NoDup (map fst children).
Proof.
  induction children as [|c children IH]; simpl; [constructor|].
  rewrite map_app. intros H. constructor.
  - intros Hin. apply in_map_iff in Hin. destruct Hin as (c' & E & Hc').
    apply NoDup_app_remove_l in H as Hr.
    assert (H1 : In (fst c) (map fst (plain_child_entries include_attr prefix_attr delimiter c))).
    { unfold plain_child_entries. rewrite map_app. apply in_or_app. right. now left. }
    assert (H2 : In (fst c)
                    (map fst (flat_map (plain_child_entries include_attr prefix_attr delimiter)
                                       children))).
    { apply in_map_iff. exists (fst c', leaf_value (snd c')). split; [exact E|].
      apply in_flat_map. exists c'. split; [exact Hc'|].
      unfold plain_child_entries. apply in_or_app. right. now left. }
    clear -H H1 H2. revert H H1.
    generalize (map fst (plain_child_entries include_attr prefix_attr delimiter c)).
    intros l. induction l as [|x l IHl]; simpl; [tauto|].
    intros Hnd [->|Hx]; inversion Hnd; subst.
    + rewrite in_app_iff in *. tauto.
    + now apply IHl.
  - apply IH. now apply NoDup_app_remove_l in H.
Qed.

Lemma content_failure_None rec content :
  (forall c, In c (children_of content) -> rec (snd c) = None) ->
  content_failure rec content = None.
Proof.
  unfold content_failure, children_of.
  induction content as [|[[id n]|] content IH]; intros H; cbn [flat_map app] in *;
    [reflexivity | |].
  - rewrite IH by (intros c Hc; apply H; now right).
    exact (H (id, n) (or_introl eq_refl)).
  - apply IH. exact H.
Qed.

(** [obj_dict] meets no object without a value in a flat member. *)
Lemma flat_member_failure obj : flat_member obj = true -> failure obj = None.
Proof.
  destruct obj as [v|attrs v|[log|] attrs content|items|attrs|attrs]; try discriminate.
  cbn [flat_member failure]. intros Hflat. apply content_failure_None.
  intros c Hc. rewrite forallb_forall in Hflat. specialize (Hflat c Hc).
  apply andb_true_iff in Hflat. destruct Hflat as [Hflat _].
  apply andb_true_iff in Hflat. destruct Hflat as [_ Hleaf].
  destruct (snd c); try discriminate; reflexivity.
Qed.

Section FlatMemberFacts.

Variable P : prim_casts.
Variables (include_attr : bool) (prefix_attr delimiter : string) (start_idx : Z).

(** The two conversions of a flat member hold the same value under each key. *)
Lemma flat_member_lookup obj :
  flat_member obj = true ->
  NoDup (map fst (entries include_attr prefix_attr delimiter start_idx "" obj)) ->
  exists as_dict,
    any_to_plain P include_attr prefix_attr delimiter false obj = Ok (PDict as_dict) /\
    forall key,
      dict_get key as_dict
      = option_map PVal
          (dict_get key (dict_comp (entries include_attr prefix_attr delimiter start_idx "" obj))).
Proof.
  intros Hflat Hnd.
  pose proof (entries_flat_perm include_attr prefix_attr delimiter start_idx obj Hflat) as Hp.
  assert (Hnd' : NoDup (map fst (plain_entries include_attr prefix_attr delimiter obj))).
  { eapply Permutation_NoDup; [|exact Hnd]. now apply Permutation_map. }
  eexists. split.
  - apply any_to_plain_flat; [exact Hflat|].
    intros as_log attrs content ->. cbn [plain_entries] in Hnd'. rewrite map_app in Hnd'.
    apply NoDup_app_remove_l in Hnd'. eapply children_NoDup. exact Hnd'.
  - intros key. rewrite (dict_comp_NoDup (plain_values _)).
    2:{ pose proof (dict_keys_plain_values
                      (plain_entries include_attr prefix_attr delimiter obj)) as E.
        unfold dict_keys in E. rewrite E. exact Hnd'. }
    rewrite dict_comp_NoDup by exact Hnd.
    rewrite dict_get_plain_values. f_equal. symmetry. now apply dict_get_perm.
Qed.

End FlatMemberFacts.

(** ** The pivot of [to_plain] against the frame of [plural_dict] *)

Lemma same_values_key as_dict fw key :
  same_values as_dict fw -> (In key (dict_keys as_dict) <-> In key (dict_keys fw)).
Proof.
  intros H. specialize (H key).
  destruct (dict_get key fw) as [v|] eqn:E; simpl in H.
  - split; intros _; eauto using dict_get_Some_key.
  - apply dict_get_None in E, H. tauto.
Qed.

Lemma same_values_keys as_dicts flats key :
  Forall2 same_values as_dicts flats ->
  (In key (concat (map (@dict_keys plain) as_dicts))
   <-> In key (concat (map (@dict_keys value) flats))).
Proof.
  induction 1 as [|T O Ts Os HR _ IH]; simpl; [tauto|].
  rewrite !in_app_iff, IH, (same_values_key key HR). tauto.
Qed.

Lemma same_values_column as_dicts flats key :
  Forall2 same_values as_dicts flats ->
  map (plain_or_none key) as_dicts = map PVal (map (value_or_none key) flats).
Proof.
  induction 1 as [|T O Ts Os HR _ IH]; simpl; [reflexivity|].
  rewrite IH. f_equal. unfold plain_or_none, value_or_none. rewrite (HR key).
  now destruct (dict_get key O).
Qed.

(** The claim that the pivot of the plain conversion is the frame of
    [plural_dict] fails for a member with a structured child: the pivot has
    the key [a] with the nested mapping, the frame has the key [a.b]. *)
Lemma pivot_of_plain_nested :
  to_plain decimal_casts (Plural nested_collection) false "" "." false
  = Ok (PList [PDict [("a", PDict [("b", PVal (VInt 1))])]])
  /\ pivot [PDict [("a", PDict [("b", PVal (VInt 1))])]]
     = Ok (PDict [("a", PList [PDict [("b", PVal (VInt 1))]])])
  /\ plural_dict nested_collection false true "" "." 0 = Ok [("a.b", [VInt 1])].
Proof. repeat split; reflexivity. Qed.

(** C3, amended: for a collection whose members are structured objects, not
    logs, with leaf children only (names not empty, the keys of a member
    distinct), the plain conversion without [transpose] is a list of
    mappings, its pivot is a frame, and this frame and the frame of
    [plural_dict] with [fill_missing] and the same [include_attr],
    [prefix_attr] and [delimiter] have the same keys up to order and the same
    list under each key. *)
Theorem pivot_of_plain_flat :
  forall (P : prim_casts) (plural_obj : list node) (include_attr : bool)
         (prefix_attr delimiter : string) (start_idx : Z),
    Forall (fun obj =>
              flat_member obj = true /\
              NoDup (map fst (entries include_attr prefix_attr delimiter start_idx "" obj)))
           plural_obj ->
    exists (as_dicts : list plain) (pivoted : dict plain) (frame_dict : dict (list value)),
      to_plain P (Plural plural_obj) include_attr prefix_attr delimiter false
      = Ok (PList as_dicts) /\
      pivot as_dicts = Ok (PDict pivoted) /\
      plural_dict plural_obj include_attr true prefix_attr delimiter start_idx
      = Ok frame_dict /\
      Permutation (dict_keys pivoted) (dict_keys frame_dict) /\
      forall key,
        dict_get key pivoted
        = option_map (fun col => PList (map PVal col)) (dict_get key frame_dict).
Proof.
  intros P plural_obj ia pa d s Hall.
  set (flat := flattened ia pa d s).
  assert (Hex : exists Ts,
             Forall2 (fun obj T => any_to_plain P ia pa d false obj = Ok (PDict T))
                     plural_obj Ts /\
             Forall2 same_values Ts (map flat plural_obj)).
  { induction Hall as [|obj l [Hflat Hnd] _ IH].
    - exists []. split; constructor.
    - destruct IH as (Ts & H1 & H2).
      destruct (flat_member_lookup P ia pa d s obj Hflat Hnd) as (T & HT & Hsame).
      exists (T :: Ts). split; constructor; assumption. }
  destruct Hex as (Ts & Hconv & Hsame).
  assert (Hfl : Forall2 (fun obj fw => obj_dict ia pa d s obj = Ok fw)
                        plural_obj (map flat plural_obj)).
  { apply flattens_flat. intros obj Hobj. apply flat_member_failure.
    rewrite Forall_forall in Hall. exact (proj1 (Hall obj Hobj)). }
  exists (map PDict Ts). eexists. eexists.
  split; [|split; [apply pivot_dicts|split;
    [exact (@plural_dict_fill ia pa d s plural_obj (map flat plural_obj) Hfl)|]]].
  - unfold to_plain. cbn [any_to_plain]. unfold plural_to_list_of_plains.
    rewrite list_comp_map.
    rewrite (@list_comp_ok _ _ _ plural_obj (map PDict Ts)); [reflexivity|].
    clear -Hconv. induction Hconv; simpl; constructor; assumption.
  - fold flat. rewrite !dict_keys_frame_of. split.
    + apply NoDup_Permutation; try apply first_seen_NoDup.
      intros key. rewrite !first_seen_In. exact (@same_values_keys _ _ key Hsame).
    + intros key.
      destruct (in_dec string_dec key (first_seen (concat (map (@dict_keys plain) Ts))))
        as [Hin|Hout].
      * rewrite dict_get_frame_of by exact Hin.
        rewrite dict_get_frame_of.
        2:{ rewrite first_seen_In in *.
            exact (proj1 (@same_values_keys _ _ key Hsame) Hin). }
        simpl. now rewrite (@same_values_column _ _ key Hsame).
      * replace (dict_get key (frame_of _ (fun key0 => PList (map (plain_or_none key0) Ts))))
          with (@None plain).
        2:{ symmetry. apply dict_get_None. now rewrite dict_keys_frame_of. }
        replace (dict_get key (frame_of _ (fun k => map (value_or_none k) (map flat plural_obj))))
          with (@None (list value)); [reflexivity|].
        symmetry. apply dict_get_None. rewrite dict_keys_frame_of.
        rewrite first_seen_In in *. now rewrite <- (@same_values_keys _ _ key Hsame).
Qed.

Lemma pivot_of_plain_flat_witness :
  exists (as_dicts : list plain) (pivoted : dict plain) (frame_dict : dict (list value)),
    to_plain decimal_casts (Plural flat_collection) false "" "." false = Ok (PList as_dicts) /\
    pivot as_dicts = Ok (PDict pivoted) /\
    plural_dict flat_collection false true "" "." 0 = Ok frame_dict /\
    Permutation (dict_keys pivoted) (dict_keys frame_dict) /\
    forall key,
      dict_get key pivoted
      = option_map (fun col => PList (map PVal col)) (dict_get key frame_dict).
Proof.
  apply (@pivot_of_plain_flat decimal_casts flat_collection false "" "." 0).
  repeat constructor; simpl; intuition discriminate.
Defined.


(* ================================================================== *)
(** * Further properties of the decoder *)

Lemma for_each_ext_in {S X : Type} (f g : S -> X -> outcome S) (l : list X) :
  (forall x, In x l -> forall st, f st x = g st x) ->
  forall st, for_each f l st = for_each g l st.
Proof.
  induction l as [|x l IH]; intros H st; simpl; [reflexivity|].
  rewrite (H x (or_introl eq_refl)). destruct (g st x); simpl; [|reflexivity].
  apply IH. intros y Hy. apply H. now right.
Qed.

Lemma In_enumerate_snd {X : Type} (l : list X) (k i : nat) (x : X) :
  In (i, x) (enumerate_from k l) -> In x l.
Proof.
  intros H. apply In_enumerate_from in H. destruct H as [_ H].
  eapply nth_error_In. exact H.
Qed.

(** X1: a log whose declared types are all in the table but which has no
    [logData] section makes [logdata_dict] raise [IndexError], for
    [logData[0]]. *)
Theorem logdata_dict_no_section :
  forall (P : prim_casts) (log : obj_log) (fill_missing : bool),
    types_known P (logCurveInfo log) = true ->
    logData log = [] ->
    logdata_dict P log fill_missing = Raise IndexError.
Proof.
  intros P log fm Ht Hld. destruct (build_cast_map_ok P _ Ht) as (cm & Hcm & _).
  unfold logdata_dict. now rewrite Hcm, Hld.
Qed.

Lemma logdata_dict_no_section_witness :
  logdata_dict decimal_casts header_only_log true = Raise IndexError.
Proof.
  apply (@logdata_dict_no_section decimal_casts header_only_log true); reflexivity.
Defined.

(** X2: with an empty [dataDelimiter] (the log having declared types of the
    table and a [logData] section), [logdata_dict] raises the [ValueError]
    of [split] for an empty separator. *)
Theorem logdata_dict_empty_delimiter :
  forall (P : prim_casts) (log : obj_log) (fill_missing : bool)
         (logData0 : cs_logData) (rest : list cs_logData),
    types_known P (logCurveInfo log) = true ->
    logData log = logData0 :: rest ->
    dataDelimiter log = Some "" ->
    logdata_dict P log fill_missing = Raise (ValueError "empty separator").
Proof.
  intros P log fm ld rest Ht Hld Hd. destruct (build_cast_map_ok P _ Ht) as (cm & Hcm & _).
  unfold logdata_dict, delimiter_of. now rewrite Hcm, Hld, Hd.
Qed.

Lemma logdata_dict_empty_delimiter_witness :
  logdata_dict decimal_casts empty_delimiter_log false = Raise (ValueError "empty separator").
Proof.
  apply (@logdata_dict_empty_delimiter decimal_casts empty_delimiter_log false
           {| mnemonicList := "DEPT,GR"; data := ["100.0,50.2"; "100.1,"] |} []);
    reflexivity.
Defined.

Lemma build_data_list_undeclared (cm : dict cast) (mnems : list string) :
  (exists mnem, In mnem mnems /\ dict_get mnem cm = None) ->
  exists mnem, In mnem mnems /\ dict_get mnem cm = None /\
               build_data_list cm mnems = Raise (KeyError mnem).
Proof.
  unfold build_data_list, list_comp.
  assert (H : forall acc : list column,
             (exists mnem, In mnem mnems /\ dict_get mnem cm = None) ->
             exists mnem,
               In mnem mnems /\ dict_get mnem cm = None /\
               for_each
                 (fun (acc : list column) mnem =>
                    y <- (value_cast <- dict_index cm mnem ;;
                          Ok (mnem, value_cast, @nil value)) ;;
                    Ok (acc ++ [y]))
                 mnems acc
               = Raise (KeyError mnem)).
  { induction mnems as [|m mnems IH]; intros acc (m0 & Hin & Hm0); [destruct Hin|].
    cbn [for_each]. unfold dict_index at 1.
    destruct (dict_get m cm) as [c|] eqn:Em.
    - cbn [bind]. destruct Hin as [->|Hin]; [congruence|].
      destruct (IH (acc ++ [(m, c, [])]) (ex_intro _ m0 (conj Hin Hm0)))
        as (m1 & H1 & H2 & H3).
      exists m1. repeat split; auto. now right.
    - exists m. repeat split; auto. now left. }
  apply H.
Qed.

(** X3: when the mnemonic list names a mnemonic that no [logCurveInfo]
    declares, [logdata_dict] raises [KeyError] for the first such mnemonic,
    before any row is read. *)
Theorem logdata_dict_undeclared_mnemonic :
  forall (P : prim_casts) (log : obj_log) (fill_missing : bool)
         (logData0 : cs_logData) (rest : list cs_logData),
    types_known P (logCurveInfo log) = true ->
    logData log = logData0 :: rest ->
    delimiter_of log <> "" ->
    (exists mnem,
        In mnem (fields (delimiter_of log) (mnemonicList logData0)) /\
        declared_cast P (logCurveInfo log) mnem = None) ->
    exists mnem,
      In mnem (fields (delimiter_of log) (mnemonicList logData0)) /\
      declared_cast P (logCurveInfo log) mnem = None /\
      logdata_dict P log fill_missing = Raise (KeyError mnem).
Proof.
  intros P log fm ld rest Ht Hld Hd (m0 & Hin & Hm0).
  destruct (build_cast_map_ok P _ Ht) as (cm & Hcm & Hget).
  destruct (@build_data_list_undeclared cm (fields (delimiter_of log) (mnemonicList ld)))
    as (m & Hm & Hnone & Hraise).
  { exists m0. split; [exact Hin | now rewrite Hget]. }
  exists m. repeat split; [exact Hm | now rewrite <- Hget |].
  unfold logdata_dict. rewrite Hcm, Hld. cbn [bind list_index nth_error].
  rewrite py_split_fields by exact Hd. cbn [bind]. now rewrite Hraise.
Qed.

Lemma logdata_dict_undeclared_mnemonic_witness :
  exists mnem,
    In mnem ["DEPT"; "ROP"] /\
    declared_cast decimal_casts (logCurveInfo undeclared_log) mnem = None /\
    logdata_dict decimal_casts undeclared_log true = Raise (KeyError mnem).
Proof.
  apply (@logdata_dict_undeclared_mnemonic decimal_casts undeclared_log true
           {| mnemonicList := "DEPT,ROP"; data := ["100.0,50.2"] |} []).
  - reflexivity.
  - reflexivity.
  - discriminate.
  - exists "ROP". split; [simpl; auto | reflexivity].
Defined.

Lemma list_index_overflow {X : Type} (l : list X) (i : nat) :
  length l <= i -> list_index l i = Raise IndexError.
Proof.
  intros H. unfold list_index. now rewrite (proj2 (nth_error_None l i) H).
Qed.

Lemma length_fill_cols fm points cols : length (fill_cols fm points cols) = length cols.
Proof.
  rewrite <- (length_map cast_of), cast_of_fill_cols. apply length_map.
Qed.

Lemma cast_of_initial (mnems : list string) : forall casts : list cast,
  length mnems = length casts ->
  map cast_of (map (fun mc : string * cast => (fst mc, snd mc, @nil value))
                   (combine mnems casts)) = casts.
Proof.
  induction mnems as [|m mnems IH]; intros [|c casts] H; simpl in *; try discriminate;
    [reflexivity|]. f_equal. apply IH. lia.
Qed.

(** The header of a log that is in order: what is left of [logdata_dict] is
    the loop over the rows. *)
Lemma logdata_dict_rows P log fm logData0 rest casts :
  types_known P (logCurveInfo log) = true ->
  logData log = logData0 :: rest ->
  delimiter_of log <> "" ->
  Forall2 (fun mnem value_cast =>
             declared_cast P (logCurveInfo log) mnem = Some value_cast)
          (fields (delimiter_of log) (mnemonicList logData0)) casts ->
  logdata_dict P log fm
  = (data_list <- for_each (decode_row (delimiter_of log) fm) (data logData0)
                    (map (fun mc : string * cast => (fst mc, snd mc, @nil value))
                         (combine (fields (delimiter_of log) (mnemonicList logData0)) casts)) ;;
     Ok (dict_comp (map (fun col : column => (fst (fst col), snd col)) data_list))).
Proof.
  intros Ht Hld Hd Hc. destruct (build_cast_map_ok P _ Ht) as (cm & Hcm & Hget).
  unfold logdata_dict. rewrite Hcm, Hld. cbn [bind list_index nth_error].
  rewrite py_split_fields by exact Hd. cbn [bind].
  rewrite (build_data_list_ok cm (casts := casts)); [reflexivity|].
  eapply Forall2_impl; [|exact Hc]. intros m c Hm. simpl in Hm. now rewrite Hget.
Qed.

Lemma decode_point_overflow fm (data_list : list column) i point :
  length data_list <= i -> fm = true \/ point <> "" ->
  decode_point fm data_list (i, point) = Raise IndexError.
Proof.
  intros Hi H. unfold decode_point. destruct point as [|a p].
  - destruct H as [->|H]; [|congruence]. unfold append_at.
    now rewrite list_index_overflow.
  - now rewrite list_index_overflow.
Qed.

Lemma decode_row_overflow (delimiter : string) fm (data_list : list column)
      row pts extra more :
  delimiter <> "" ->
  fields delimiter row = pts ++ extra :: more ->
  length pts = length data_list ->
  row_decodes pts (map cast_of data_list) = true ->
  fm = true \/ extra <> "" ->
  decode_row delimiter fm data_list row = Raise IndexError.
Proof.
  intros Hd Hf Hlen Hdec Hextra. unfold decode_row.
  rewrite py_split_fields by exact Hd. cbn [bind]. rewrite Hf. unfold enumerate.
  rewrite enumerate_from_app, for_each_app.
  pose proof (decode_points_ok fm pts [] data_list Hdec) as Hpts.
  cbn [length app] in Hpts. rewrite Hpts. cbn [bind enumerate_from for_each].
  rewrite decode_point_overflow; [reflexivity | | exact Hextra].
  rewrite length_fill_cols. simpl. lia.
Qed.

(** X4: a row with more fields than the mnemonic list makes [logdata_dict]
    raise [IndexError] at the first field past the columns, when
    [fill_missing] holds or that field is not empty (the rows before it and
    the fields before it decoding). *)
Theorem logdata_dict_row_overflow :
  forall (P : prim_casts) (log : obj_log) (fill_missing : bool)
         (logData0 : cs_logData) (rest : list cs_logData) (casts : list cast)
         (before after : list string) (row : string)
         (pts more : list string) (extra : string),
    types_known P (logCurveInfo log) = true ->
    logData log = logData0 :: rest ->
    delimiter_of log <> "" ->
    Forall2 (fun mnem value_cast =>
               declared_cast P (logCurveInfo log) mnem = Some value_cast)
            (fields (delimiter_of log) (mnemonicList logData0)) casts ->
    data logData0 = before ++ row :: after ->
    forallb (fun r => row_decodes (fields (delimiter_of log) r) casts) before = true ->
    fields (delimiter_of log) row = pts ++ extra :: more ->
    length pts = length casts ->
    row_decodes pts casts = true ->
    fill_missing = true \/ extra <> "" ->
    logdata_dict P log fill_missing = Raise IndexError.
Proof.
  intros P log fm ld rest casts before after row pts more extra
         Ht Hld Hd Hc Hdata Hbefore Hf Hlen Hdec Hextra.
  rewrite (@logdata_dict_rows P log fm ld rest casts Ht Hld Hd Hc), Hdata, for_each_app.
  assert (Hl : length (fields (delimiter_of log) (mnemonicList ld)) = length casts)
    by (eapply Forall2_length; exact Hc).
  pose proof (cast_of_initial _ _ Hl) as Hcasts.
  rewrite decode_rows_ok; [|exact Hd|now rewrite Hcasts]. cbn [bind for_each].
  set (dl := fold_left _ before _).
  assert (Hdl : map cast_of dl = casts).
  { unfold dl. clear -Hcasts. revert Hcasts.
    generalize (map (fun mc : string * cast => (fst mc, snd mc, @nil value))
                    (combine (fields (delimiter_of log) (mnemonicList ld)) casts)).
    induction before as [|r before IH]; intros l Hl; simpl; [exact Hl|].
    apply IH. now rewrite cast_of_fill_cols. }
  rewrite (@decode_row_overflow (delimiter_of log) fm dl row pts extra more);
    try assumption; [reflexivity | | now rewrite Hdl].
  now rewrite <- (length_map cast_of dl), Hdl.
Qed.

Lemma logdata_dict_row_overflow_witness :
  logdata_dict decimal_casts long_row_log true = Raise IndexError.
Proof.
  apply (@logdata_dict_row_overflow decimal_casts long_row_log true
           {| mnemonicList := "DEPT,GR"; data := ["100.0,50.2"; "100.1,50.3,"] |} []
           [decimal_float; decimal_float] ["100.0,50.2"] [] "100.1,50.3,"
           ["100.1"; "50.3"] [] "").
  - reflexivity.
  - reflexivity.
  - discriminate.
  - repeat constructor.
  - reflexivity.
  - reflexivity.
  - reflexivity.
  - reflexivity.
  - vm_compute. reflexivity.
  - now left.
Defined.

(** X5: [fill_missing] is looked at for empty fields only: when no field of
    any row of the first section is empty, [logdata_dict] has the same
    outcome, frame or exception, for both values of [fill_missing]. *)
Theorem logdata_dict_fill_missing_unused :
  forall (P : prim_casts) (log : obj_log),
    (forall logData0 rest row point,
        logData log = logData0 :: rest ->
        In row (data logData0) ->
        In point (fields (delimiter_of log) row) -> point <> "") ->
    logdata_dict P log true = logdata_dict P log false.
Proof.
  intros P log H. unfold logdata_dict.
  destruct (build_cast_map P (logCurveInfo log)) as [cm|e]; [|reflexivity]. cbn [bind].
  destruct (logData log) as [|ld rest] eqn:Hld; [reflexivity|].
  cbn [list_index nth_error bind].
  destruct (py_split (mnemonicList ld) (delimiter_of log)) as [mnems|e]; [|reflexivity].
  cbn [bind]. destruct (build_data_list cm mnems) as [dl|e]; [|reflexivity]. cbn [bind].
  rewrite (@for_each_ext_in _ _ (decode_row (delimiter_of log) true)
             (decode_row (delimiter_of log) false)); [reflexivity|].
  intros row Hrow st. unfold decode_row.
  destruct (delimiter_of log) as [|a d] eqn:Hd; [reflexivity|].
  rewrite !py_split_fields by discriminate. cbn [bind].
  apply for_each_ext_in. intros [i p] Hp st'.
  apply In_enumerate_snd in Hp.
  assert (Hne : p <> "") by (eapply H; eauto).
  destruct p; [congruence | reflexivity].
Qed.

Lemma logdata_dict_fill_missing_unused_witness :
  logdata_dict decimal_casts full_log true = logdata_dict decimal_casts full_log false.
Proof.
  apply (@logdata_dict_fill_missing_unused decimal_casts full_log).
  intros ld rest row p [= <- _] Hrow Hp. simpl in Hrow.
  destruct Hrow as [<-|[<-|[]]]; simpl in Hp; intuition (subst; discriminate).
Defined.

Lemma dict_set_map_values {V W : Type} (g : V -> W) k v (d : dict V) :
  map (fun kv : string * V => (fst kv, g (snd kv))) (dict_set k v d)
  = dict_set k (g v) (map (fun kv : string * V => (fst kv, g (snd kv))) d).
Proof.
  induction d as [|[k' w] d IH]; simpl; [reflexivity|].
  destruct (String.eqb k k'); simpl; [reflexivity | now rewrite IH].
Qed.

Lemma dict_update_map_values {V W : Type} (g : V -> W) (pairs : list (string * V)) :
  forall d : dict V,
    map (fun kv : string * V => (fst kv, g (snd kv))) (dict_update d pairs)
    = dict_update (map (fun kv : string * V => (fst kv, g (snd kv))) d)
                  (map (fun kv : string * V => (fst kv, g (snd kv))) pairs).
Proof.
  induction pairs as [|[k v] pairs IH]; intros d; simpl; [reflexivity|].
  now rewrite IH, dict_set_map_values.
Qed.

Lemma filter_flat_map {X Y : Type} (f : Y -> bool) (g : X -> list Y) (l : list X) :
  filter f (flat_map g l) = flat_map (fun x => filter f (g x)) l.
Proof.
  induction l as [|x l IH]; simpl; [reflexivity|]. now rewrite filter_app, IH.
Qed.

Lemma cell_drop_none (value_cast : cast) point :
  (forall s v, value_cast s = Ok v -> not_none v = true) ->
  cell false value_cast point = filter not_none (cell true value_cast point).
Proof.
  intros H. destruct point as [[|a p]|]; simpl; try reflexivity.
  destruct (value_cast (String a p)) as [v|e] eqn:E; [|reflexivity].
  simpl. now rewrite (H _ _ E).
Qed.

Lemma nth_error_combine_snd {X Y : Type} (l : list X) (l' : list Y) j x y :
  nth_error (combine l l') j = Some (x, y) -> nth_error l' j = Some y.
Proof.
  revert j l'. induction l as [|x' l IH]; intros [|j] [|y' l']; simpl; try discriminate.
  - now intros [= _ ->].
  - apply IH.
Qed.

Lemma row_decodes_nth points : forall casts j point (value_cast : cast),
  row_decodes points casts = true ->
  nth_error points j = Some point -> nth_error casts j = Some value_cast ->
  length (cell true value_cast (Some point)) = 1.
Proof.
  induction points as [|p ps IH]; intros [|c cs] [|j] point vc H Hp Hc;
    simpl in *; try discriminate.
  - injection Hp as ->. injection Hc as ->.
    apply andb_true_iff in H. destruct H as [H _].
    destruct point as [|a s]; [reflexivity|].
    now destruct (vc (String a s)).
  - apply andb_true_iff in H. destruct H as [_ H]. exact (IH cs j point vc H Hp Hc).
Qed.

Lemma column_values_full (value_cast : cast) (casts : list cast) j rows :
  nth_error casts j = Some value_cast ->
  (forall points, In points rows ->
                  row_decodes points casts = true /\ j < length points) ->
  length (column_values true value_cast j rows) = length rows.
Proof.
  intros Hc. induction rows as [|points rows IH]; intros H; [reflexivity|].
  unfold column_values in *. simpl. rewrite length_app.
  rewrite IH by (intros pts Hin; apply H; now right). f_equal.
  destruct (H points (or_introl eq_refl)) as [Hdec Hj].
  destruct (nth_error points j) as [p|] eqn:Ep.
  - rewrite (row_decodes_nth _ _ _ Hdec Ep Hc). reflexivity.
  - apply nth_error_None in Ep. lia.
Qed.

Lemma decimal_float_not_none s v : decimal_float s = Ok v -> not_none v = true.
Proof.
  unfold decimal_float. destruct (decimal_literal s) as [[[neg m] nf]|]; [|discriminate].
  destruct ((m <? 2 ^ 53)%Z && (nf <=? 18)%nat); [|discriminate].
  now intros [= <-].
Qed.

(** X6: when the casts of the columns never return [None] (as [float],
    [int], [str], [bytes] and [timestamp] never do), the frame of a log that
    decodes without [fill_missing] is the frame with [fill_missing] with the
    [None] entries taken out of its lists: same keys, same order. *)
Theorem logdata_dict_ragged_drops_none :
  forall (P : prim_casts) (log : obj_log)
         (logData0 : cs_logData) (rest : list cs_logData) (casts : list cast),
    types_known P (logCurveInfo log) = true ->
    logData log = logData0 :: rest ->
    delimiter_of log <> "" ->
    Forall2 (fun mnem value_cast =>
               declared_cast P (logCurveInfo log) mnem = Some value_cast)
            (fields (delimiter_of log) (mnemonicList logData0)) casts ->
    forallb (fun row => row_decodes (fields (delimiter_of log) row) casts)
            (data logData0) = true ->
    (forall value_cast : cast, In value_cast casts ->
        forall s v, value_cast s = Ok v -> not_none v = true) ->
    exists filled,
      logdata_dict P log true = Ok filled /\
      logdata_dict P log false = Ok (drop_none filled).
Proof.
  intros P log ld rest casts Ht Hld Hd Hc Hrows Hnone.
  eexists. split; [exact (@logdata_dict_decoded P log true ld rest casts Ht Hld Hd Hc Hrows)|].
  rewrite (@logdata_dict_decoded P log false ld rest casts Ht Hld Hd Hc Hrows). f_equal.
  unfold decoded_frame, dict_comp, drop_none.
  rewrite dict_update_map_values. cbn [map]. f_equal.
  rewrite map_map. apply map_ext_in. intros [j [m c]] Hin. cbn [fst snd]. f_equal.
  unfold column_values. rewrite filter_flat_map. apply flat_map_ext. intros points.
  apply cell_drop_none. apply Hnone.
  apply In_enumerate_snd in Hin. now apply in_combine_r in Hin.
Qed.

Lemma logdata_dict_ragged_drops_none_witness :
  exists filled,
    logdata_dict decimal_casts dept_gr_log true = Ok filled /\
    logdata_dict decimal_casts dept_gr_log false = Ok (drop_none filled).
Proof.
  apply (@logdata_dict_ragged_drops_none decimal_casts dept_gr_log
           {| mnemonicList := "DEPT,GR"; data := ["100.0,50.2"; "100.1,"] |} []
           [decimal_float; decimal_float]).
  - reflexivity.
  - reflexivity.
  - discriminate.
  - repeat constructor.
  - reflexivity.
  - intros c [<-|[<-|[]]]; exact decimal_float_not_none.
Defined.

(** X7: with [fill_missing], a log that decodes and whose rows all have as
    many fields as the mnemonic list gives a rectangular frame: its keys are
    the mnemonics in the order of their first occurrence and each of its
    lists has one entry per row. *)
Theorem logdata_dict_rectangular :
  forall (P : prim_casts) (log : obj_log)
         (logData0 : cs_logData) (rest : list cs_logData) (casts : list cast),
    types_known P (logCurveInfo log) = true ->
    logData log = logData0 :: rest ->
    delimiter_of log <> "" ->
    Forall2 (fun mnem value_cast =>
               declared_cast P (logCurveInfo log) mnem = Some value_cast)
            (fields (delimiter_of log) (mnemonicList logData0)) casts ->
    forallb (fun row => row_decodes (fields (delimiter_of log) row) casts)
            (data logData0) = true ->
    (forall row, In row (data logData0) ->
                 length (fields (delimiter_of log) row)
                 = length (fields (delimiter_of log) (mnemonicList logData0))) ->
    exists frame,
      logdata_dict P log true = Ok frame /\
      dict_keys frame = first_seen (fields (delimiter_of log) (mnemonicList logData0)) /\
      forall mnem values,
        dict_get mnem frame = Some values -> length values = length (data logData0).
Proof.
  intros P log ld rest casts Ht Hld Hd Hc Hrows Hfull.
  eexists. split; [exact (@logdata_dict_decoded P log true ld rest casts Ht Hld Hd Hc Hrows)|].
  set (d := delimiter_of log) in *. set (mnems := fields d (mnemonicList ld)) in *.
  assert (Hlen : length mnems = length casts) by (eapply Forall2_length; exact Hc).
  split.
  - unfold decoded_frame, dict_comp. rewrite dict_keys_update. unfold first_seen.
    f_equal. unfold dict_keys. rewrite map_map. cbn [fst].
    exact (@enumerate_combine_names string cast mnems casts 0 Hlen).
  - intros mnem values Hget. apply dict_get_In in Hget.
    unfold decoded_frame, dict_comp in Hget.
    apply In_dict_update in Hget. destruct Hget as [[]|Hin].
    apply in_map_iff in Hin. destruct Hin as ([j [m c]] & Heq & Hin).
    cbn [fst snd] in Heq. injection Heq as _ <-.
    apply In_enumerate_from in Hin. destruct Hin as [_ Hn]. rewrite Nat.sub_0_r in Hn.
    assert (Hj : j < length mnems).
    { apply nth_error_combine_fst in Hn. apply nth_error_Some. congruence. }
    apply nth_error_combine_snd in Hn.
    rewrite (@column_values_full c casts j (map (fields d) (data ld)) Hn).
    + apply length_map.
    + intros points Hp. apply in_map_iff in Hp. destruct Hp as (row & <- & Hrow).
      split.
      * rewrite forallb_forall in Hrows. exact (Hrows row Hrow).
      * rewrite (Hfull row Hrow). exact Hj.
Qed.

Lemma logdata_dict_rectangular_witness :
  exists frame,
    logdata_dict decimal_casts dept_gr_log true = Ok frame /\
    dict_keys frame = first_seen ["DEPT"; "GR"] /\
    forall mnem values, dict_get mnem frame = Some values -> length values = 2.
Proof.
  apply (@logdata_dict_rectangular decimal_casts dept_gr_log
           {| mnemonicList := "DEPT,GR"; data := ["100.0,50.2"; "100.1,"] |} []
           [decimal_float; decimal_float]).
  - reflexivity.
  - reflexivity.
  - discriminate.
  - repeat constructor.
  - reflexivity.
  - intros row [<-|[<-|[]]]; reflexivity.
Defined.


(* ================================================================== *)
(** * Further properties of the frame builder *)

(** The inner loop of the branch without [fill_missing]: the entries of one
    member go to the end of their columns. *)
Lemma append_cells keys (pre : string -> list value) :
  NoDup keys ->
  forall (todo done : dict value),
    NoDup (dict_keys (done ++ todo)) ->
    (forall k, In k (dict_keys todo) -> In k keys) ->
    for_each append_cell todo
             (frame_of keys (fun k => pre k ++ value_if_present k done))
    = Ok (frame_of keys (fun k => pre k ++ value_if_present k (done ++ todo))).
Proof.
  intros Hkeys. induction todo as [|[k0 v0] todo IH]; intros done Hnd Hin.
  - now rewrite app_nil_r.
  - cbn [for_each]. unfold append_cell at 1, dict_index. cbn [fst snd].
    assert (Hk0 : In k0 keys) by (apply Hin; now left).
    rewrite dict_get_frame_of by exact Hk0. cbn [bind].
    rewrite dict_set_frame_of by assumption.
    assert (Hfresh : dict_get k0 done = None).
    { apply dict_get_None. unfold dict_keys in *. rewrite map_app in Hnd. simpl in Hnd.
      apply NoDup_remove_2 in Hnd. intros H. apply Hnd. apply in_or_app. now left. }
    rewrite (@frame_of_ext _ keys _
               (fun k => pre k ++ value_if_present k (done ++ [(k0, v0)]))).
    + replace (done ++ (k0, v0) :: todo) with ((done ++ [(k0, v0)]) ++ todo)
        by (now rewrite <- app_assoc).
      apply IH.
      * now rewrite <- app_assoc.
      * intros k Hk. apply Hin. now right.
    + intros k Hk. unfold value_if_present. rewrite dict_get_app. simpl.
      destruct (String.eqb k k0) eqn:E.
      * apply String.eqb_eq in E. subst k. rewrite Hfresh. now rewrite app_nil_r.
      * destruct (dict_get k done); [reflexivity | now rewrite app_nil_r].
Qed.

(** The outer loop of the branch without [fill_missing]. *)
Lemma append_frames keys :
  NoDup keys ->
  forall (todo done : list (dict value)),
    Forall (fun fw => NoDup (dict_keys fw) /\ forall k, In k (dict_keys fw) -> In k keys)
           todo ->
    for_each (fun frame_dict (fw : dict value) => for_each append_cell fw frame_dict)
             todo (frame_of keys (fun k => flat_map (value_if_present k) done))
    = Ok (frame_of keys (fun k => flat_map (value_if_present k) (done ++ todo))).
Proof.
  intros Hkeys. induction todo as [|fw todo IH]; intros done Hall.
  - now rewrite app_nil_r.
  - inversion Hall as [|? ? [Hnd Hin] Hall']; subst. cbn [for_each].
    rewrite (@frame_of_ext _ keys _
               (fun k => flat_map (value_if_present k) done ++ value_if_present k [])).
    2:{ intros k _. unfold value_if_present at 2. simpl. now rewrite app_nil_r. }
    rewrite (@append_cells keys (fun k => flat_map (value_if_present k) done) Hkeys
               fw [] Hnd Hin).
    cbn [bind app].
    rewrite (@frame_of_ext _ keys _
               (fun k => flat_map (value_if_present k) (done ++ [fw]))).
    + rewrite IH by assumption. now rewrite <- app_assoc.
    + intros k _. rewrite flat_map_app. simpl. now rewrite app_nil_r.
Qed.

(** The frame of the branch without [fill_missing], for members that
    flatten. *)
Lemma plural_dict_append include_attr prefix_attr delimiter start_idx plural_obj flats :
  Forall2 (fun obj fw =>
             obj_dict include_attr prefix_attr delimiter start_idx obj = Ok fw)
          plural_obj flats ->
  plural_dict plural_obj include_attr false prefix_attr delimiter start_idx
  = Ok (frame_of (first_seen (concat (map (@dict_keys value) flats)))
                 (fun k => flat_map (value_if_present k) flats)).
Proof.
  intros Hfl. set (keys := first_seen (concat (map (@dict_keys value) flats))).
  unfold plural_dict, plural_dict_with, flatten_all.
  rewrite (@flatten_all_acc include_attr prefix_attr delimiter start_idx plural_obj flats Hfl).
  cbn [bind app].
  pose proof (@flattens_NoDup include_attr prefix_attr delimiter start_idx plural_obj flats Hfl)
    as Hflats.
  rewrite extend_keys_fold by exact Hflats.
  fold (first_seen (concat (map (@dict_keys value) flats))). fold keys.
  assert (Hkeys : NoDup keys) by apply first_seen_NoDup.
  rewrite dict_comp_NoDup.
  2:{ rewrite map_map. simpl. now rewrite map_id. }
  apply (@append_frames keys Hkeys flats []).
  apply Forall_forall. intros fw Hfw. split.
  - rewrite Forall_forall in Hflats. now apply Hflats.
  - intros k Hk. apply first_seen_In. apply in_concat.
    exists (dict_keys fw). split; [now apply in_map | exact Hk].
Qed.

(** X8: without [fill_missing], for a collection whose members [obj_dict]
    flattens, [plural_dict] returns (every key it appends under is a key of
    the frame) a frame whose keys are the union, in first-seen order, of
    the keys of the flattened members; the list of a key holds the values
    of the members that have the key, in the order of the members, and
    nothing for the others. *)
Theorem plural_dict_ignore_missing :
  forall (plural_obj : list node) (include_attr : bool)
         (prefix_attr delimiter : string) (start_idx : Z)
         (flats : list (dict value)),
    Forall2 (fun obj fw =>
               obj_dict include_attr prefix_attr delimiter start_idx obj = Ok fw)
            plural_obj flats ->
    exists frame_dict : dict (list value),
      plural_dict plural_obj include_attr false prefix_attr delimiter start_idx
      = Ok frame_dict /\
      dict_keys frame_dict = first_seen (concat (map (@dict_keys value) flats)) /\
      forall key, In key (dict_keys frame_dict) ->
        dict_get key frame_dict = Some (flat_map (value_if_present key) flats).
Proof.
  intros plural_obj ia pa d s flats Hfl.
  exists (frame_of (first_seen (concat (map (@dict_keys value) flats)))
                   (fun k => flat_map (value_if_present k) flats)).
  split; [now apply plural_dict_append|split].
  - apply dict_keys_frame_of.
  - intros key Hkey. rewrite dict_keys_frame_of in Hkey.
    now rewrite dict_get_frame_of.
Qed.

Lemma plural_dict_ignore_missing_witness :
  exists frame_dict : dict (list value),
    plural_dict flat_collection false false "" "." 0 = Ok frame_dict /\
    dict_keys frame_dict = ["b"; "a"; "c"] /\
    forall key, In key (dict_keys frame_dict) ->
      dict_get key frame_dict
      = Some (flat_map (value_if_present key)
                       [[("b", VInt 2); ("a", VInt 1)]; [("c", VInt 4); ("a", VInt 3)]]).
Proof.
  apply (@plural_dict_ignore_missing flat_collection false "" "." 0
           [[("b", VInt 2); ("a", VInt 1)]; [("c", VInt 4); ("a", VInt 3)]]).
  repeat constructor.
Defined.

Lemma Forall2_In_r {X Y : Type} (R : X -> Y -> Prop) (l : list X) (l' : list Y) (y : Y) :
  Forall2 R l l' -> In y l' -> exists x, In x l /\ R x y.
Proof.
  induction 1 as [|x y' l l' HR _ IH]; simpl; [tauto|].
  intros [<-|Hin]; [eauto|]. destruct (IH Hin) as (x' & Hx & HR'). eauto.
Qed.

(** X9: when every member of the collection flattens to the same keys,
    [plural_dict] returns the same frame with and without [fill_missing]. *)
Theorem plural_dict_uniform_members :
  forall (plural_obj : list node) (include_attr : bool)
         (prefix_attr delimiter : string) (start_idx : Z),
    (forall obj obj' fw fw' key,
        In obj plural_obj -> In obj' plural_obj ->
        obj_dict include_attr prefix_attr delimiter start_idx obj = Ok fw ->
        obj_dict include_attr prefix_attr delimiter start_idx obj' = Ok fw' ->
        In key (dict_keys fw) -> In key (dict_keys fw')) ->
    plural_dict plural_obj include_attr true prefix_attr delimiter start_idx
    = plural_dict plural_obj include_attr false prefix_attr delimiter start_idx.
Proof.
  intros plural_obj ia pa d s Hsame.
  destruct (all_or_first_failure (obj_dict ia pa d s) plural_obj)
    as [(flats & Hfl)|(pre & obj & post & flats & e & -> & Hpre & He)].
  2:{ now rewrite !(@plural_dict_member_raises ia pa d s pre obj post flats e _ Hpre He). }
  rewrite (@plural_dict_fill ia pa d s plural_obj flats Hfl).
  rewrite (@plural_dict_append ia pa d s plural_obj flats Hfl). f_equal.
  apply frame_of_ext. intros key Hkey.
  apply first_seen_In, in_concat in Hkey. destruct Hkey as (ks & Hks & Hkey).
  apply in_map_iff in Hks. destruct Hks as (fw0 & <- & Hfw0).
  destruct (@Forall2_In_r _ _ _ _ _ fw0 Hfl Hfw0) as (obj0 & Hobj0 & Hflat0).
  assert (Hall : forall fw, In fw flats -> In key (dict_keys fw)).
  { intros fw Hfw. destruct (@Forall2_In_r _ _ _ _ _ fw Hfl Hfw) as (obj & Hobj & Hflat).
    exact (Hsame obj0 obj fw0 fw key Hobj0 Hobj Hflat0 Hflat Hkey). }
  clear -Hall. induction flats as [|fw l IH]; [reflexivity|].
  cbn [map flat_map]. rewrite IH by (intros o Ho; apply Hall; now right). clear IH.
  specialize (Hall fw (or_introl eq_refl)).
  unfold value_or_none, value_if_present.
  destruct (dict_get key fw) eqn:E; [reflexivity|].
  apply dict_get_None in E. contradiction.
Qed.

Lemma plural_dict_uniform_members_witness :
  plural_dict uniform_collection false true "" "." 0
  = plural_dict uniform_collection false false "" "." 0.
Proof.
  apply (@plural_dict_uniform_members uniform_collection false "" "." 0).
  intros obj obj' fw fw' key [<-|[<-|[]]] [<-|[<-|[]]] [= <-] [= <-] H; exact H.
Defined.


(* ================================================================== *)
(** * Further properties of the flattener *)

Lemma content_entries_ext delimiter (rec rec' : string -> node -> list (string * value))
      (g : node -> node) content :
  (forall id next_obj, In (Some (id, next_obj)) content ->
                       forall base_name, rec base_name next_obj = rec' base_name (g next_obj)) ->
  forall base_name,
    content_entries delimiter rec base_name content
    = content_entries delimiter rec' base_name
        (map (fun cont : option (string * node) =>
                match cont with
                | Some (id, next_obj) => Some (id, g next_obj)
                | None => None
                end) content).
Proof.
  unfold content_entries.
  induction content as [|[[id n]|] content IH]; intros H base_name; simpl; [reflexivity| |].
  - rewrite IH by (intros id' n' Hin; apply (H id' n'); now right).
    f_equal. apply (H id n). now left.
  - apply IH. intros id' n' Hin. apply (H id' n'). now right.
Qed.

Lemma items_entries_ext start_idx (rec rec' : string -> node -> list (string * value))
      (g : node -> node) items :
  (forall item, In item items ->
                forall base_name, rec base_name item = rec' base_name (g item)) ->
  forall base_name k,
    items_entries start_idx rec base_name items k
    = items_entries start_idx rec' base_name (map g items) k.
Proof.
  unfold items_entries.
  induction items as [|item items IH]; intros H base_name k; simpl; [reflexivity|].
  rewrite IH by (intros; apply H; now right). f_equal. apply H. now left.
Qed.

Lemma entries_without_attrs prefix_attr prefix_attr' delimiter start_idx obj :
  forall base_name,
    entries false prefix_attr delimiter start_idx base_name obj
    = entries false prefix_attr' delimiter start_idx base_name (without_attrs obj).
Proof.
  induction obj as [v|attrs v|as_log attrs content IH|items IH|attrs|attrs]
    using node_induction;
    intros base_name; cbn [entries without_attrs]; try reflexivity.
  - now apply content_entries_ext.
  - now apply items_entries_ext.
Qed.

Lemma content_failure_ext (rec rec' : node -> option exn) (g : node -> node) content :
  (forall id next_obj, In (Some (id, next_obj)) content -> rec next_obj = rec' (g next_obj)) ->
  content_failure rec content
  = content_failure rec'
      (map (fun cont : option (string * node) =>
              match cont with
              | Some (id, next_obj) => Some (id, g next_obj)
              | None => None
              end) content).
Proof.
  unfold content_failure.
  induction content as [|[[id n]|] content IH]; intros H; simpl; [reflexivity| |].
  - rewrite IH by (intros id' n' Hin; apply (H id' n'); now right).
    now rewrite (H id n (or_introl eq_refl)).
  - apply IH. intros id' n' Hin. apply (H id' n'). now right.
Qed.

Lemma items_failure_ext (rec rec' : node -> option exn) (g : node -> node) items :
  (forall item, In item items -> rec item = rec' (g item)) ->
  items_failure rec items = items_failure rec' (map g items).
Proof.
  unfold items_failure.
  induction items as [|item items IH]; intros H; simpl; [reflexivity|].
  rewrite IH by (intros; apply H; now right).
  now rewrite (H item (or_introl eq_refl)).
Qed.

Lemma failure_without_attrs obj : failure obj = failure (without_attrs obj).
Proof.
  induction obj as [v|attrs v|as_log attrs content IH|items IH|attrs|attrs]
    using node_induction; cbn [failure without_attrs]; try reflexivity.
  - now apply content_failure_ext.
  - now apply items_failure_ext.
Qed.

(** X10: without [include_attr], [obj_dict] does not look at attributes:
    the object with every attribute taken away, flattened under any other
    [prefix_attr], gives the same dictionary. *)
Theorem obj_dict_attributes_unread :
  forall (obj : node) (prefix_attr prefix_attr' delimiter : string) (start_idx : Z),
    obj_dict false prefix_attr delimiter start_idx obj
    = obj_dict false prefix_attr' delimiter start_idx (without_attrs obj).
Proof.
  intros obj pa pa' d s. rewrite !obj_dict_outcome.
  rewrite <- failure_without_attrs.
  now rewrite (entries_without_attrs pa pa' d s obj "").
Qed.

Lemma str_of_int_inj (a b : Z) : str_of_int a = str_of_int b -> a = b.
Proof.
  unfold str_of_int. intros H. apply DecimalZ.to_int_inj.
  assert (Hnil : forall z, Z.to_int z <> Decimal.Pos Decimal.Nil
                           /\ Z.to_int z <> Decimal.Neg Decimal.Nil).
  { intros [|p|p]; simpl; split; try discriminate;
      intros [= Hp]; now apply DecimalPos.Unsigned.to_uint_nonnil in Hp. }
  destruct (Hnil a) as [Ha Ha']. destruct (Hnil b) as [Hb Hb'].
  pose proof (NilZero.isi _ Ha Ha') as Ia. pose proof (NilZero.isi _ Hb Hb') as Ib.
  rewrite H in Ia. congruence.
Qed.

Lemma string_length_app (a b : string) :
  String.length (a ++ b) = String.length a + String.length b.
Proof. induction a as [|c a IH]; simpl; [reflexivity | now rewrite IH]. Qed.

Lemma string_app_inj_l (a b c : string) : (a ++ c)%string = (b ++ c)%string -> a = b.
Proof.
  revert b. induction a as [|x a IH]; intros [|y b] H; simpl in H.
  - reflexivity.
  - apply (f_equal String.length) in H. simpl in H. rewrite string_length_app in H. lia.
  - apply (f_equal String.length) in H. simpl in H. rewrite string_length_app in H. lia.
  - injection H as -> H. f_equal. now apply IH.
Qed.

Lemma string_app_inj_r (a b c : string) : (a ++ b)%string = (a ++ c)%string -> b = c.
Proof. induction a as [|x a IH]; simpl; [auto | intros [= H]; auto]. Qed.

Lemma item_path_inj start_idx base_name i j :
  item_path start_idx base_name i = item_path start_idx base_name j -> i = j.
Proof.
  unfold item_path. intros H.
  apply string_app_inj_r, string_app_inj_r, string_app_inj_l, str_of_int_inj in H. lia.
Qed.

Lemma items_entries_leaves include_attr prefix_attr delimiter start_idx base_name
      (vs : list value) : forall k,
  items_entries start_idx (entries include_attr prefix_attr delimiter start_idx)
                base_name (map Leaf vs) k
  = rev (map (fun iv : nat * value => (item_path start_idx base_name (fst iv), snd iv))
             (enumerate_from k vs)).
Proof.
  unfold items_entries. induction vs as [|v vs IH]; intros k; simpl; [reflexivity|].
  now rewrite IH.
Qed.

Lemma enumerate_from_indices {X : Type} (l : list X) : forall k,
  map fst (enumerate_from k l) = seq k (length l).
Proof. induction l as [|x l IH]; intros k; simpl; [reflexivity | now rewrite IH]. Qed.

(** X11: a collection of simple values, flattened on its own without
    [include_attr], gives one entry per item under the key
    [[start_idx + i]] for the item at position i; the keys are distinct and
    the entries stand last item first. *)
Theorem obj_dict_collection_of_values :
  forall (vs : list value) (prefix_attr delimiter : string) (start_idx : Z),
    obj_dict false prefix_attr delimiter start_idx (Plural (map Leaf vs))
    = Ok (rev (map (fun iv : nat * value => (item_path start_idx "" (fst iv), snd iv))
                   (enumerate vs))).
Proof.
  intros vs pa d s. rewrite obj_dict_returns.
  2:{ cbn [failure]. unfold items_failure. clear.
      induction vs as [|v vs IH]; simpl; [reflexivity | now rewrite IH]. }
  cbn [entries].
  rewrite items_entries_leaves. fold (enumerate vs). f_equal.
  apply dict_comp_NoDup. rewrite map_rev. apply NoDup_rev.
  rewrite map_map. cbn [fst].
  rewrite <- (map_map fst (item_path s "")). unfold enumerate.
  rewrite enumerate_from_indices.
  apply Injective_map_NoDup; [|apply seq_NoDup].
  intros i j. apply item_path_inj.
Qed.

Lemma content_entries_leaves prefix_attr delimiter start_idx content :
  (forall c, In c (children_of content) -> is_leaf (snd c) = true) ->
  content_entries delimiter (entries false prefix_attr delimiter start_idx) "" content
  = rev (map (fun c : string * node => (fst c, leaf_value (snd c))) (children_of content)).
Proof.
  unfold content_entries, children_of.
  induction content as [|[[id n]|] content IH]; intros H; cbn [flat_map app map rev];
    [reflexivity | |].
  - rewrite IH by (intros c Hc; apply H; cbn [flat_map app]; now right). f_equal.
    specialize (H (id, n) (or_introl eq_refl)). cbn [fst snd] in *.
    destruct n as [v|attrs v| | | |]; try discriminate; reflexivity.
  - apply IH. intros c Hc. apply H. exact Hc.
Qed.

(** X12: a structured object that is no log, whose children are simple
    values with distinct names, has the same entries under [obj_dict] and
    under [to_plain] (both without [include_attr]): [to_plain] lists them in
    the order of the content, [obj_dict] in the reverse order. *)
Theorem obj_dict_reverse_of_to_plain :
  forall (P : prim_casts) (attrs : list (string * value))
         (content : list (option (string * node)))
         (prefix_attr delimiter : string) (start_idx : Z) (transpose : bool),
    (forall c, In c (children_of content) -> is_leaf (snd c) = true) ->
    NoDup (map fst (children_of content)) ->
    let kvs := map (fun c : string * node => (fst c, leaf_value (snd c)))
                   (children_of content) in
    obj_dict false prefix_attr delimiter start_idx (Complex None attrs content)
    = Ok (rev kvs) /\
    to_plain P (Complex None attrs content) false prefix_attr delimiter transpose
    = Ok (PDict (plain_values kvs)).
Proof.
  intros P attrs content pa d s tr Hleaf Hnd kvs.
  assert (Hkeys : map fst kvs = map fst (children_of content)).
  { unfold kvs. rewrite map_map. reflexivity. }
  split.
  - rewrite obj_dict_returns.
    2:{ cbn [failure]. apply content_failure_None. intros c Hc.
        specialize (Hleaf c Hc). destruct (snd c); try discriminate; reflexivity. }
    cbn [entries].
    change (attr_entries false pa d "" attrs) with (@nil (string * value)).
    cbn [app]. rewrite content_entries_leaves by exact Hleaf. fold kvs. f_equal.
    apply dict_comp_NoDup. rewrite map_rev, Hkeys. now apply NoDup_rev.
  - unfold to_plain. cbn [any_to_plain]. rewrite named_with_children.
    rewrite dict_fromkeys_NoDup by (now rewrite map_map).
    rewrite (map_ext_in _
               (fun c : string * node => (fst c, (snd c, Ok (PVal (leaf_value (snd c))))))).
    2:{ intros c Hc. now rewrite any_to_plain_leaf by (now apply Hleaf). }
    unfold singular_to_plain. rewrite singular_children. cbn [bind plain_attrs].
    do 2 f_equal.
    replace (flat_map (plain_child_entries false pa d) (children_of content)) with kvs.
    + apply (dict_comp_NoDup (plain_values kvs)).
      pose proof (dict_keys_plain_values kvs) as E. unfold dict_keys in E.
      rewrite E, Hkeys. exact Hnd.
    + unfold kvs. clear. induction (children_of content) as [|c l IH]; simpl; [reflexivity|].
      now rewrite IH.
Qed.

Lemma obj_dict_reverse_of_to_plain_witness :
  obj_dict false "" "." 0 wellbore = Ok [("well", VStr "W1"); ("name", VStr "B1")] /\
  to_plain decimal_casts wellbore false "" "." false
  = Ok (PDict [("name", PVal (VStr "B1")); ("well", PVal (VStr "W1"))]).
Proof.
  apply (@obj_dict_reverse_of_to_plain decimal_casts [("uid", VStr "wb1")]
           [Some ("name", Leaf (VStr "B1"));
            Some ("well", Simple [("uid", VStr "w1")] (VStr "W1"))]
           "" "." 0 false).
  - intros c [<-|[<-|[]]]; reflexivity.
  - simpl. repeat constructor; simpl; intuition discriminate.
Defined.


(* ================================================================== *)
(** * Further properties of the converter *)

Lemma pivot_members {X : Type} (convert : X -> outcome plain) (items : list X)
      (xs : list plain) :
  Forall2 (fun obj x => convert obj = Ok x) items xs ->
  forall st,
    for_each (fun st (r : outcome plain) => as_dict <- r ;; pivot_add st as_dict)
             (map convert items) st
    = for_each pivot_add xs st.
Proof.
  induction 1 as [|obj x items xs Hx _ IH]; intros st; [reflexivity|].
  cbn [map for_each]. rewrite Hx. cbn [bind].
  destruct (pivot_add st x) as [st'|e]; [apply IH | reflexivity].
Qed.

(** X13: with [transpose], for a collection whose members convert to
    mappings, [to_plain] returns a mapping whose keys are the union, in
    first-seen order, of the keys of these mappings; the list of a key has
    one entry per member, what the member holds for the key and [None] when
    it does not have the key. *)
Theorem to_plain_transpose_mappings :
  forall (P : prim_casts) (items : list node) (include_attr : bool)
         (prefix_attr delimiter : string) (ds : list (dict plain)),
    Forall2 (fun obj as_dict =>
               to_plain P obj include_attr prefix_attr delimiter true = Ok (PDict as_dict))
            items ds ->
    to_plain P (Plural items) include_attr prefix_attr delimiter true
    = Ok (PDict (frame_of (first_seen (concat (map (@dict_keys plain) ds)))
                          (fun key => PList (map (plain_or_none key) ds)))).
Proof.
  intros P items ia pa d ds H. unfold to_plain in *. cbn [any_to_plain].
  unfold plural_to_dict_of_lists.
  rewrite (@pivot_members node (any_to_plain P ia pa d true) items (map PDict ds)).
  - exact (pivot_dicts ds).
  - clear -H. induction H; simpl; constructor; assumption.
Qed.

Lemma to_plain_transpose_mappings_witness :
  to_plain decimal_casts (Plural flat_collection) false "" "." true
  = Ok (PDict [("a", PList [PVal (VInt 1); PVal (VInt 3)]);
               ("b", PList [PVal (VInt 2); PVal VNone]);
               ("c", PList [PVal VNone; PVal (VInt 4)])]).
Proof.
  apply (@to_plain_transpose_mappings decimal_casts flat_collection false "" "."
           [[("a", PVal (VInt 1)); ("b", PVal (VInt 2))];
            [("a", PVal (VInt 3)); ("c", PVal (VInt 4))]]).
  repeat constructor.
Defined.

Lemma for_each_total {S X : Type} (body : S -> X -> outcome S) (l : list X) :
  (forall x, In x l -> forall st, exists st', body st x = Ok st') ->
  forall st, exists st', for_each body l st = Ok st'.
Proof.
  induction l as [|x l IH]; intros H st; [now exists st|].
  cbn [for_each]. destruct (H x (or_introl eq_refl) st) as (st1 & ->). cbn [bind].
  apply IH. intros y Hy. apply H. now right.
Qed.

Lemma dict_fromkeys_In {X : Type} (named : list (string * X)) (kv : string * X) :
  In kv (dict_fromkeys named) -> In kv named.
Proof.
  unfold dict_fromkeys.
  assert (H : forall acc,
             In kv (fold_left (fun acc (kv : string * X) =>
                                 if dict_mem (fst kv) acc then acc else acc ++ [kv])
                              named acc) ->
             In kv acc \/ In kv named).
  { induction named as [|x named IH]; intros acc Hin; simpl in *; [now left|].
    apply IH in Hin. destruct Hin as [Hin|Hin]; [|auto].
    destruct (dict_mem (fst x) acc); [auto|].
    apply in_app_or in Hin. destruct Hin as [Hin|[<-|[]]]; auto. }
  intros Hin. destruct (H [] Hin) as [[]|Hn]. exact Hn.
Qed.

Lemma content_failure_In rec content id next_obj :
  content_failure rec content = None ->
  In (Some (id, next_obj)) content -> rec next_obj = None.
Proof.
  unfold content_failure.
  induction content as [|[[id' n]|] content IH]; simpl; [tauto| |].
  - destruct ((fix go (c : list (option (string * node))) : option exn :=
                 match c with
                 | [] => None
                 | None :: c' => go c'
                 | Some (_, next_obj0) :: c' =>
                     match go c' with Some e => Some e | None => rec next_obj0 end
                 end) content) eqn:E; [discriminate|].
    intros Hn [[= _ <-]|Hin]; [exact Hn | now apply IH].
  - intros H [Hd|Hin]; [discriminate | now apply IH].
Qed.

Lemma items_failure_In rec items item :
  items_failure rec items = None -> In item items -> rec item = None.
Proof.
  unfold items_failure.
  induction items as [|item' items IH]; simpl; [tauto|].
  destruct ((fix go (l : list node) : option exn :=
               match l with
               | [] => None
               | item0 :: l' => match go l' with Some e => Some e | None => rec item0 end
               end) items) eqn:E; [discriminate|].
  intros Hn [<-|Hin]; [exact Hn | now apply IH].
Qed.

(** X14: without [transpose], [to_plain] returns for every object that
    holds no object of class [obj_log], no object with empty content and no
    object with mixed content ([failure]): the exceptions of [to_plain] in
    this model come from [logdata_dict], from [value()] on empty content,
    from mixed content and from the transposition only. *)
Theorem to_plain_without_logs :
  forall (P : prim_casts) (obj : node) (include_attr : bool)
         (prefix_attr delimiter : string),
    log_free obj = true ->
    failure obj = None ->
    exists x, to_plain P obj include_attr prefix_attr delimiter false = Ok x.
Proof.
  intros P obj ia pa d. unfold to_plain.
  induction obj as [v|attrs v|as_log attrs content IH|items IH|attrs|attrs]
    using node_induction;
    intros Hfree Hvalued; cbn [any_to_plain]; try discriminate.
  - eauto.
  - eauto.
  - destruct as_log as [log|]; [discriminate|]. cbn [log_free] in Hfree.
    cbn [failure] in Hvalued.
    rewrite forallb_forall in Hfree. unfold singular_to_plain.
    match goal with
    | |- exists x, bind (for_each ?body ?l ?st) _ = _ =>
        assert (Hloop : exists st', for_each body l st = Ok st')
    end; [|destruct Hloop as (as_dict & ->); cbn [bind]; eauto].
    apply for_each_total.
    intros [next_path [next_obj converted]] Hin st.
    apply dict_fromkeys_In in Hin. rewrite named_with_children in Hin.
    apply in_map_iff in Hin. destruct Hin as ([id n] & [= <- <- <-] & Hc).
    unfold children_of in Hc. apply in_flat_map in Hc.
    destruct Hc as ([c|] & Hcont & Hc); [|destruct Hc].
    destruct Hc as [->|[]].
    destruct (IH id n Hcont (Hfree _ Hcont) (@content_failure_In failure content id n Hvalued Hcont))
      as (x & ->).
    cbn [bind]. eauto.
  - cbn [log_free] in Hfree. cbn [failure] in Hvalued.
    rewrite forallb_forall in Hfree.
    unfold plural_to_list_of_plains, list_comp.
    match goal with
    | |- exists x, bind (for_each ?body ?l ?st) _ = _ =>
        assert (Hloop : exists st', for_each body l st = Ok st')
    end; [|destruct Hloop as (xs & ->); cbn [bind]; eauto].
    apply for_each_total.
    intros r Hr acc. apply in_map_iff in Hr. destruct Hr as (item & <- & Hitem).
    destruct (IH item Hitem (Hfree item Hitem) (@items_failure_In failure items item Hvalued Hitem))
      as (x & ->).
    cbn [bind]. eauto.
Qed.

Lemma to_plain_without_logs_witness :
  exists x, to_plain decimal_casts interleaved true "@" "." false = Ok x.
Proof.
  apply (@to_plain_without_logs decimal_casts interleaved true "@" ".").
  - reflexivity.
  - reflexivity.
Defined.

(** X15: with [transpose], a collection whose first member is a simple
    value that is no string makes [to_plain] raise [TypeError]: the value is
    handed to [dict.update], which needs a mapping or an iterable. *)
Theorem to_plain_transpose_values :
  forall (P : prim_casts) (obj : node) (rest : list node) (include_attr : bool)
         (prefix_attr delimiter : string),
    is_leaf obj = true ->
    (forall s, leaf_value obj <> VStr s) ->
    exists msg,
      to_plain P (Plural (obj :: rest)) include_attr prefix_attr delimiter true
      = Raise (TypeError msg).
Proof.
  intros P obj rest ia pa d Hleaf Hstr. unfold to_plain. cbn [any_to_plain map].
  rewrite any_to_plain_leaf by exact Hleaf.
  unfold plural_to_dict_of_lists. cbn [for_each bind pivot_add].
  destruct (leaf_value obj) as [| | | |s|] eqn:E;
    try (eexists; reflexivity).
  now destruct (Hstr s).
Qed.

Lemma to_plain_transpose_values_witness :
  exists msg,
    to_plain decimal_casts (Plural [Leaf (VInt 1); Leaf (VInt 2)]) false "" "." true
    = Raise (TypeError msg).
Proof.
  apply (@to_plain_transpose_values decimal_casts (Leaf (VInt 1)) [Leaf (VInt 2)] false "" ".").
  - reflexivity.
  - discriminate.
Defined.

Lemma children_of_map (g : node -> node) content :
  children_of (map (fun cont : option (string * node) =>
                      match cont with
                      | Some (id, next_obj) => Some (id, g next_obj)
                      | None => None
                      end) content)
  = map (fun c : string * node => (fst c, g (snd c))) (children_of content).
Proof.
  unfold children_of. induction content as [|[[id n]|] content IH]; simpl;
    [reflexivity | now rewrite IH | exact IH].
Qed.

Lemma In_children_of c content : In c (children_of content) -> In (Some c) content.
Proof.
  unfold children_of. intros H. apply in_flat_map in H.
  destruct H as ([c'|] & Hin & Hc); [|destruct Hc].
  destruct Hc as [<-|[]]. exact Hin.
Qed.

Lemma any_to_plain_without_attrs P prefix_attr prefix_attr' delimiter delimiter'
      transpose obj :
  any_to_plain P false prefix_attr delimiter transpose obj
  = any_to_plain P false prefix_attr' delimiter' transpose (without_attrs obj).
Proof.
  induction obj as [v|attrs v|as_log attrs content IH|items IH|attrs|attrs]
    using node_induction;
    cbn [any_to_plain without_attrs]; try reflexivity.
  - destruct as_log as [log|]; [reflexivity|].
    rewrite !named_with_children, children_of_map, map_map. cbn [fst snd].
    rewrite (map_ext_in
               (fun c : string * node =>
                  (fst c, (without_attrs (snd c),
                           any_to_plain P false prefix_attr' delimiter' transpose
                                        (without_attrs (snd c)))))
               (fun c : string * node =>
                  (fst c, (without_attrs (snd c),
                           any_to_plain P false prefix_attr delimiter transpose (snd c))))).
    2:{ intros [id n] Hc. cbn [fst snd]. apply In_children_of in Hc.
        now rewrite (IH id n Hc). }
    rewrite <- (map_map
                  (fun c : string * node =>
                     (fst c, (snd c, any_to_plain P false prefix_attr delimiter transpose (snd c))))
                  (fun kv : string * (node * outcome plain) =>
                     (fst kv, (without_attrs (fst (snd kv)), snd (snd kv))))).
    rewrite (dict_fromkeys_map
               (fun nx : node * outcome plain => (without_attrs (fst nx), snd nx))).
    unfold singular_to_plain. rewrite for_each_map. cbn [plain_attrs].
    f_equal. apply for_each_ext_in. intros [id [n x]] _ st. reflexivity.
  - rewrite map_map.
    rewrite (map_ext_in
               (fun item => any_to_plain P false prefix_attr' delimiter' transpose
                                         (without_attrs item))
               (any_to_plain P false prefix_attr delimiter transpose)); [reflexivity|].
    intros item Hitem. symmetry. now apply IH.
Qed.

(** X16: without [include_attr], [to_plain] reads neither the attributes
    nor [prefix_attr] nor [delimiter]: the object with every attribute taken
    away, converted under any other [prefix_attr] and [delimiter], gives the
    same outcome. *)
Theorem to_plain_attributes_unread :
  forall (P : prim_casts) (obj : node) (prefix_attr prefix_attr' : string)
         (delimiter delimiter' : string) (transpose : bool),
    to_plain P obj false prefix_attr delimiter transpose
    = to_plain P (without_attrs obj) false prefix_attr' delimiter' transpose.
Proof. intros. apply any_to_plain_without_attrs. Qed.
